(** * AnyPang: the match-3 board (entities/Board.ts, entities/Tile.ts)

    A shallow embedding of the board state machine: the grid of tile
    references, the tile objects behind them, match detection, swap
    validation, the destroy / gravity / spawn / re-check cascade and the
    timers that sequence it.

    Tile objects are mutable and shared (the grid, the selection and the
    pending timers all hold references to them), so tiles live in a store
    indexed by reference and the grid holds references. *)

From Stdlib Require Import ZArith QArith Qminmax Lia.
From stdpp Require Import base option list gmap.

Local Open Scope Z_scope.

(** ** utils/constants.ts *)

Definition BOARD_ROWS : Z := 8.
Definition BOARD_COLS : Z := 8.
Definition TILE_SIZE : Z := 64.
Definition TILE_TYPE_COUNT : Z := 6.
Definition MIN_MATCH_LENGTH : Z := 3.
Definition CANVAS_WIDTH : Z := 640.
Definition BOARD_OFFSET_X : Z := (CANVAS_WIDTH - BOARD_COLS * TILE_SIZE) / 2.
Definition BOARD_OFFSET_Y : Z := 200.
Definition SWAP_DURATION : Z := 200.
Definition FALL_DURATION_PER_CELL : Z := 100.
Definition DESTROY_DURATION : Z := 300.
Definition SPAWN_DURATION : Z := 200.

(** ** utils/types.ts *)

(** [TileType] is a numeric enum (Red = 0 .. Orange = 5); tiles are created
    from plain numbers, so a type is an integer. *)
Definition TileType : Type := Z.

Inductive TileState : Type :=
| Idle | Selected | Swapping | Falling | Destroying | Spawning.

Record BoardPosition : Type := mkPos { pos_row : Z; pos_col : Z }.

Inductive MatchDirection : Type := Horizontal | Vertical.

Record Match : Type := mkMatch {
  tiles : list BoardPosition;
  direction : MatchDirection;
  mlength : Z
}.

#[global] Instance TileState_eq_dec : EqDecision TileState.
Proof. solve_decision. Defined.
#[global] Instance BoardPosition_eq_dec : EqDecision BoardPosition.
Proof. solve_decision. Defined.
#[global] Instance MatchDirection_eq_dec : EqDecision MatchDirection.
Proof. solve_decision. Defined.
#[global] Instance Match_eq_dec : EqDecision Match.
Proof. solve_decision. Defined.

(** ** entities/Tile.ts

    The fields the board logic reads or writes.  The interpolated drawing
    fields (x, y, startX, startY, scale, alpha, rotation) are written by the
    animation code and read only by [render]; they are left out.  Times are
    milliseconds, as rationals. *)

Record Tile : Type := mkTile {
  type : TileType;
  state : TileState;
  row : Z;
  col : Z;
  targetX : Z;
  targetY : Z;
  animationProgress : Q;
  animationDuration : Q
}.

Definition set_type (v : TileType) (t : Tile) : Tile :=
  mkTile v (state t) (row t) (col t) (targetX t) (targetY t)
         (animationProgress t) (animationDuration t).
Definition set_state (v : TileState) (t : Tile) : Tile :=
  mkTile (type t) v (row t) (col t) (targetX t) (targetY t)
         (animationProgress t) (animationDuration t).
Definition set_rowcol (r c : Z) (t : Tile) : Tile :=
  mkTile (type t) (state t) r c (targetX t) (targetY t)
         (animationProgress t) (animationDuration t).
Definition set_target (p : Z * Z) (t : Tile) : Tile :=
  mkTile (type t) (state t) (row t) (col t) (fst p) (snd p)
         (animationProgress t) (animationDuration t).
Definition set_animation (st : TileState) (progress duration : Q) (t : Tile) : Tile :=
  mkTile (type t) st (row t) (col t) (targetX t) (targetY t) progress duration.

(** [calculateScreenPosition]: the pair (x, y). *)
Definition calculateScreenPosition (r c : Z) : Z * Z :=
  (BOARD_OFFSET_X + c * TILE_SIZE + TILE_SIZE / 2,
   BOARD_OFFSET_Y + r * TILE_SIZE + TILE_SIZE / 2).

(** The constructor [new Tile(type, row, col)]. *)
Definition Tile_new (ty : TileType) (r c : Z) : Tile :=
  let pos := calculateScreenPosition r c in
  mkTile ty Idle r c (fst pos) (snd pos) 0%Q 0%Q.

Definition setBoardPosition (r c : Z) (t : Tile) : Tile :=
  set_target (calculateScreenPosition r c) (set_rowcol r c t).

Definition startMoveAnimation (duration : Z) (t : Tile) : Tile :=
  set_animation Swapping 0%Q (inject_Z duration) t.
Definition startFallAnimation (duration : Z) (t : Tile) : Tile :=
  set_animation Falling 0%Q (inject_Z duration) t.
Definition startSpawnAnimation (duration : Z) (startRow : Z) (t : Tile) : Tile :=
  set_animation Spawning 0%Q (inject_Z duration) t.
Definition startDestroyAnimation (duration : Z) (t : Tile) : Tile :=
  set_animation Destroying 0%Q (inject_Z duration) t.

Definition finishAnimation (t : Tile) : Tile :=
  match state t with
  | Destroying => t
  | _ => set_state Idle t
  end.

(** The test [Math.min(progress / duration, 1) >= 1] of [Tile.update], in
    JavaScript's arithmetic.  With a duration other than 0 it compares the
    quotient with 1.  A division by 0 gives [Infinity] when the progress is
    positive, and the minimum is then 1; it gives [NaN] for 0/0 and
    [-Infinity] for a negative progress, and the test fails for both. *)
Definition animationComplete (progress duration : Q) : bool :=
  if Qeq_bool duration 0 then negb (Qle_bool progress 0)
  else Qle_bool 1%Q (Qmin (progress / duration)%Q 1%Q).

(** [Tile.update]: advance the animation clock; when the normalised time
    [t = min(progress / duration, 1)] reaches 1 the animation is finished.
    Times are exact rationals where the code has doubles: the two agree
    wherever the sums of the frame times are exact in doubles, as they are
    for whole numbers of milliseconds (the rounding of the quotient itself
    never changes the outcome of the test against 1). *)
Definition Tile_update (deltaTime : Q) (t : Tile) : bool * Tile :=
  match state t with
  | Idle | Selected => (false, t)
  | st =>
      let progress := (animationProgress t + deltaTime)%Q in
      let t1 := set_animation st progress (animationDuration t) t in
      if animationComplete progress (animationDuration t)
      then (true, finishAnimation t1) else (false, t1)
  end.

Definition isAnimating (t : Tile) : bool :=
  negb (bool_decide (state t = Idle)) && negb (bool_decide (state t = Selected)).

Definition isDestroying (t : Tile) : bool :=
  bool_decide (state t = Destroying).

Definition getBoardPosition (t : Tile) : BoardPosition :=
  mkPos (row t) (col t).

#[global] Instance Tile_inhabited : Inhabited Tile :=
  populate (Tile_new 0 0 0).

(** ** entities/Board.ts: the state *)

(** A reference to a [Tile] object. *)
Definition loc : Type := nat.

(** What a pending [setTimeout] will run. *)
Inductive Callback : Type :=
| CbProcessMatches (matches : list Match)   (* trySwap, accepted swap *)
| CbSwapBack (tile1 tile2 : loc)            (* trySwap, rejected swap *)
| CbGravity                                 (* processMatches *)
| CbCheckCascade.                           (* applyGravity *)

Record Timer : Type := mkTimer { callback : Callback; delay : Z }.

(** The calls made to the two registered callbacks. *)
Inductive Event : Type :=
| EvMatch (matches : list Match) (isCombo : bool)
| EvSettled.

(** The [Board] object together with the part of the environment it acts
    on: the tile objects ([heap], [nextLoc] the next fresh reference), the
    pending timers, the calls made to the registered callbacks, and the
    random source ([entropy k] decides the [k]-th call of [Math.random];
    [draws] counts the calls made). *)
Record Board : Type := mkBoard {
  grid : list (list (option loc));
  selectedTile : option loc;
  isProcessing : bool;
  comboCount : Z;
  onMatchCallback : bool;
  onBoardSettledCallback : bool;
  heap : gmap loc Tile;
  nextLoc : loc;
  timers : list Timer;
  emitted : list Event;
  entropy : nat -> Z;
  draws : nat
}.

Definition set_grid (v : list (list (option loc))) (s : Board) : Board :=
  mkBoard v (selectedTile s) (isProcessing s) (comboCount s) (onMatchCallback s)
          (onBoardSettledCallback s) (heap s) (nextLoc s) (timers s) (emitted s)
          (entropy s) (draws s).
Definition set_selectedTile (v : option loc) (s : Board) : Board :=
  mkBoard (grid s) v (isProcessing s) (comboCount s) (onMatchCallback s)
          (onBoardSettledCallback s) (heap s) (nextLoc s) (timers s) (emitted s)
          (entropy s) (draws s).
Definition set_isProcessing (v : bool) (s : Board) : Board :=
  mkBoard (grid s) (selectedTile s) v (comboCount s) (onMatchCallback s)
          (onBoardSettledCallback s) (heap s) (nextLoc s) (timers s) (emitted s)
          (entropy s) (draws s).
Definition set_comboCount (v : Z) (s : Board) : Board :=
  mkBoard (grid s) (selectedTile s) (isProcessing s) v (onMatchCallback s)
          (onBoardSettledCallback s) (heap s) (nextLoc s) (timers s) (emitted s)
          (entropy s) (draws s).
Definition set_onMatchCallback (v : bool) (s : Board) : Board :=
  mkBoard (grid s) (selectedTile s) (isProcessing s) (comboCount s) v
          (onBoardSettledCallback s) (heap s) (nextLoc s) (timers s) (emitted s)
          (entropy s) (draws s).
Definition set_onBoardSettledCallback (v : bool) (s : Board) : Board :=
  mkBoard (grid s) (selectedTile s) (isProcessing s) (comboCount s) (onMatchCallback s)
          v (heap s) (nextLoc s) (timers s) (emitted s) (entropy s) (draws s).
Definition set_heap (v : gmap loc Tile) (s : Board) : Board :=
  mkBoard (grid s) (selectedTile s) (isProcessing s) (comboCount s) (onMatchCallback s)
          (onBoardSettledCallback s) v (nextLoc s) (timers s) (emitted s)
          (entropy s) (draws s).
Definition set_nextLoc (v : loc) (s : Board) : Board :=
  mkBoard (grid s) (selectedTile s) (isProcessing s) (comboCount s) (onMatchCallback s)
          (onBoardSettledCallback s) (heap s) v (timers s) (emitted s)
          (entropy s) (draws s).
Definition set_timers (v : list Timer) (s : Board) : Board :=
  mkBoard (grid s) (selectedTile s) (isProcessing s) (comboCount s) (onMatchCallback s)
          (onBoardSettledCallback s) (heap s) (nextLoc s) v (emitted s)
          (entropy s) (draws s).
Definition set_emitted (v : list Event) (s : Board) : Board :=
  mkBoard (grid s) (selectedTile s) (isProcessing s) (comboCount s) (onMatchCallback s)
          (onBoardSettledCallback s) (heap s) (nextLoc s) (timers s) v
          (entropy s) (draws s).
Definition set_draws (v : nat) (s : Board) : Board :=
  mkBoard (grid s) (selectedTile s) (isProcessing s) (comboCount s) (onMatchCallback s)
          (onBoardSettledCallback s) (heap s) (nextLoc s) (timers s) (emitted s)
          (entropy s) v.

(** ** Arrays as JavaScript has them

    A read outside the array (or of a hole) is [undefined], here the
    default [d]; a write at or past the end extends the array, leaving
    holes.  A write into a row that does not exist would throw; the methods
    below only write into existing rows, and the model leaves the grid as it
    is there.  A read [grid[row][col]] through a row that does not exist
    would throw as well; a board has its 8 rows from its construction on
    (see [wellFormed]), and the model reads [d] there. *)

Definition arraySet {A : Type} (d : A) (l : list A) (i : nat) (x : A) : list A :=
  if decide (i < length l)%nat then <[i := x]> l
  else l ++ replicate (i - length l)%nat d ++ [x].

Definition lookup2 {A : Type} (d : A) (g : list (list A)) (r c : Z) : A :=
  if (r <? 0) || (c <? 0) then d
  else match g !! Z.to_nat r with
       | Some cells => default d (cells !! Z.to_nat c)
       | None => d
       end.

Definition update2 {A : Type} (d : A) (g : list (list A)) (r c : Z) (v : A)
  : list (list A) :=
  if (r <? 0) || (c <? 0) then g
  else match g !! Z.to_nat r with
       | Some cells => <[Z.to_nat r := arraySet d cells (Z.to_nat c) v]> g
       | None => g
       end.

(** ** A state monad over [Board] *)

Definition M (A : Type) : Type := Board -> A * Board.

Definition ret {A : Type} (a : A) : M A := fun s => (a, s).
Definition bind {A B : Type} (m : M A) (k : A -> M B) : M B :=
  fun s => let '(a, s') := m s in k a s'.
Definition gets {A : Type} (f : Board -> A) : M A := fun s => (f s, s).
Definition modify (f : Board -> Board) : M unit := fun s => (tt, f s).

Notation "'let*' x := m 'in' k" := (bind m (fun x => k))
  (at level 10, x pattern, m at level 100, k at level 200).
Notation "m >> k" := (bind m (fun _ => k))
  (at level 90, right associativity).

(** [for (i of l) { a = body(i, a) }] *)
Fixpoint forM {I A : Type} (l : list I) (body : I -> A -> M A) (a : A) : M A :=
  match l with
  | [] => ret a
  | i :: l' => let* a' := body i a in forM l' body a'
  end.

Definition forM_ {I : Type} (l : list I) (body : I -> M unit) : M unit :=
  forM l (fun i _ => body i) tt.

(** Reading and writing through a tile reference. *)
Definition tileAt (l : loc) (s : Board) : Tile := heap s !!! l.
Definition onTile (l : loc) (f : Tile -> Tile) : M unit :=
  modify (fun s => set_heap (<[l := f (tileAt l s)]> (heap s)) s).

(** [new Tile(type, row, col)]: a fresh object. *)
Definition newTile (ty : TileType) (r c : Z) : M loc :=
  fun s => (nextLoc s,
            set_nextLoc (S (nextLoc s))
              (set_heap (<[nextLoc s := Tile_new ty r c]> (heap s)) s)).

(** [this.grid[row][col]] and [this.grid[row][col] = v]. *)
Definition gridAt (r c : Z) (s : Board) : option loc := lookup2 None (grid s) r c.
Definition setGrid (r c : Z) (v : option loc) : M unit :=
  modify (fun s => set_grid (update2 None (grid s) r c v) s).

(** [Math.floor(Math.random() * n)]: an integer in [0, n). *)
Definition randomInt (n : Z) : M Z :=
  fun s => (entropy s (draws s) mod n, set_draws (S (draws s)) s).

Definition setTimeout (cb : Callback) (ms : Z) : M unit :=
  modify (fun s => set_timers (timers s ++ [mkTimer cb ms]) s).

Definition emit (e : Event) : M unit :=
  modify (fun s => set_emitted (emitted s ++ [e]) s).

(** ** entities/Board.ts: construction *)

(** [wouldCreateMatch]: the reads are [this.grid[row]?.[col]]. *)
Definition wouldCreateMatch (r c : Z) (ty : TileType) (s : Board) : bool :=
  (if 2 <=? c then
     match gridAt r (c - 1) s, gridAt r (c - 2) s with
     | Some left1, Some left2 =>
         (type (tileAt left1 s) =? ty) && (type (tileAt left2 s) =? ty)
     | _, _ => false
     end
   else false)
  ||
  (if 2 <=? r then
     match gridAt (r - 1) c s, gridAt (r - 2) c s with
     | Some up1, Some up2 =>
         (type (tileAt up1 s) =? ty) && (type (tileAt up2 s) =? ty)
     | _, _ => false
     end
   else false).

(** The number of tile types is an argument of the generator (the game
    passes [TILE_TYPE_COUNT]), so that the branch taken when no type is
    available can be exercised. *)
Definition availableTypes (typeCount : Z) (r c : Z) (s : Board) : list TileType :=
  filter (fun ty => wouldCreateMatch r c ty s = false) (seqZ 0 typeCount).

Definition getRandomTileType (typeCount : Z) (r c : Z) : M TileType :=
  let* available := gets (availableTypes typeCount r c) in
  if bool_decide (length available = 0%nat) then
    randomInt typeCount
  else
    let* k := randomInt (Z.of_nat (length available)) in
    ret (default 0 (available !! Z.to_nat k)).

Definition initializeBoardWith (typeCount : Z) : M unit :=
  modify (set_grid []) >>
  forM_ (seqZ 0 BOARD_ROWS) (fun r =>
    modify (fun s => set_grid (arraySet [] (grid s) (Z.to_nat r) []) s) >>
    forM_ (seqZ 0 BOARD_COLS) (fun c =>
      let* ty := getRandomTileType typeCount r c in
      let* tile := newTile ty r c in
      setGrid r c (Some tile))).

Definition initializeBoard : M unit := initializeBoardWith TILE_TYPE_COUNT.

(** The state in which the constructor starts, for a given random source. *)
Definition emptyBoard (rand : nat -> Z) : Board :=
  mkBoard [] None false 0 false false ∅ 0%nat [] [] rand 0%nat.

(** [new Board()]. *)
Definition Board_new (rand : nat -> Z) : Board :=
  snd (initializeBoard (emptyBoard rand)).

(** ** entities/Board.ts: selection *)

Definition getTile (r c : Z) (s : Board) : option loc :=
  if (r <? 0) || (r >=? BOARD_ROWS) || (c <? 0) || (c >=? BOARD_COLS) then None
  else gridAt r c s.

Definition selectTile (r c : Z) : M unit :=
  let* tile := gets (getTile r c) in
  let* processing := gets isProcessing in
  match tile with
  | None => ret tt
  | Some tile =>
      if processing then ret tt
      else
        let* sel := gets selectedTile in
        match sel with
        | Some old => onTile old (set_state Idle)
        | None => ret tt
        end >>
        modify (set_selectedTile (Some tile)) >>
        onTile tile (set_state Selected)
  end.

Definition deselectTile : M unit :=
  let* sel := gets selectedTile in
  match sel with
  | Some old =>
      onTile old (set_state Idle) >>
      modify (set_selectedTile None)
  | None => ret tt
  end.

Definition getSelectedTile (s : Board) : option loc := selectedTile s.

(** ** entities/Board.ts: match detection *)

(** The test of lines 251-252 (and 282-283) on two cells. *)
Definition tilesLink (currentTile prevTile : option loc) (s : Board) : bool :=
  match currentTile, prevTile with
  | Some cur, Some prev =>
      (type (tileAt cur s) =? type (tileAt prev s))
      && negb (isAnimating (tileAt cur s))
      && negb (isAnimating (tileAt prev s))
  | _, _ => false
  end.

(** The local variables of [findMatches]. *)
Record Scan : Type := mkScan {
  sc_matches : list Match;
  sc_matched : list (list bool);
  sc_matchStart : Z;
  sc_matchLength : Z
}.

(** Lines 255-266: close a horizontal run. *)
Definition closeHorizontal (r : Z) (st : Scan) : list Match * list (list bool) :=
  if MIN_MATCH_LENGTH <=? sc_matchLength st then
    let '(ts, matched) :=
      fold_left (fun '(ts, matched) i =>
                   (ts ++ [mkPos r i], update2 false matched r i true))
                (seqZ (sc_matchStart st) (sc_matchLength st))
                ([], sc_matched st) in
    (sc_matches st ++ [mkMatch ts Horizontal (sc_matchLength st)], matched)
  else (sc_matches st, sc_matched st).

(** Lines 286-301: close a vertical run. *)
Definition closeVertical (c : Z) (st : Scan) : list Match * list (list bool) :=
  if MIN_MATCH_LENGTH <=? sc_matchLength st then
    let '(ts, matched) :=
      fold_left (fun '(ts, matched) i =>
                   if negb (lookup2 false matched i c)
                   then (ts ++ [mkPos i c], update2 false matched i c true)
                   else (ts, matched))
                (seqZ (sc_matchStart st) (sc_matchLength st))
                ([], sc_matched st) in
    if (0 <? Z.of_nat (length ts))
    then (sc_matches st ++ [mkMatch ts Vertical (sc_matchLength st)], matched)
    else (sc_matches st, matched)
  else (sc_matches st, sc_matched st).

Definition horizontalStep (r c : Z) (st : Scan) : M Scan :=
  let* currentTile := gets (getTile r c) in
  let* prevTile := gets (getTile r (c - 1)) in
  let* linked := gets (tilesLink currentTile prevTile) in
  if linked then
    ret (mkScan (sc_matches st) (sc_matched st) (sc_matchStart st)
                (sc_matchLength st + 1))
  else
    let '(matches, matched) := closeHorizontal r st in
    ret (mkScan matches matched c 1).

Definition verticalStep (c r : Z) (st : Scan) : M Scan :=
  let* currentTile := gets (getTile r c) in
  let* prevTile := gets (getTile (r - 1) c) in
  let* linked := gets (tilesLink currentTile prevTile) in
  if linked then
    ret (mkScan (sc_matches st) (sc_matched st) (sc_matchStart st)
                (sc_matchLength st + 1))
  else
    let '(matches, matched) := closeVertical c st in
    ret (mkScan matches matched r 1).

Definition findMatches : M (list Match) :=
  let matches := [] in
  let matched := replicate (Z.to_nat BOARD_ROWS) (replicate (Z.to_nat BOARD_COLS) false) in
  let* (matches, matched) :=
    forM (seqZ 0 BOARD_ROWS) (fun r '(matches, matched) =>
      let* st := forM (seqZ 1 BOARD_COLS) (horizontalStep r)
                      (mkScan matches matched 0 1) in
      ret (sc_matches st, sc_matched st)) (matches, matched) in
  let* (matches, matched) :=
    forM (seqZ 0 BOARD_COLS) (fun c '(matches, matched) =>
      let* st := forM (seqZ 1 BOARD_ROWS) (verticalStep c)
                      (mkScan matches matched 0 1) in
      ret (sc_matches st, sc_matched st)) (matches, matched) in
  ret matches.

(** ** entities/Board.ts: swapping *)

Definition swapTilesLogical (tile1 tile2 : loc) : M unit :=
  let* row1 := gets (fun s => row (tileAt tile1 s)) in
  let* col1 := gets (fun s => col (tileAt tile1 s)) in
  let* row2 := gets (fun s => row (tileAt tile2 s)) in
  let* col2 := gets (fun s => col (tileAt tile2 s)) in
  setGrid row1 col1 (Some tile2) >>
  setGrid row2 col2 (Some tile1) >>
  onTile tile1 (set_rowcol row2 col2) >>
  onTile tile2 (set_rowcol row1 col1) >>
  onTile tile1 (set_target (calculateScreenPosition row2 col2)) >>
  onTile tile2 (set_target (calculateScreenPosition row1 col1)).

Definition trySwap (pos1 pos2 : BoardPosition) : M bool :=
  let* processing := gets isProcessing in
  if processing then ret false
  else
    let dx := Z.abs (pos_col pos1 - pos_col pos2) in
    let dy := Z.abs (pos_row pos1 - pos_row pos2) in
    if negb (((dx =? 1) && (dy =? 0)) || ((dx =? 0) && (dy =? 1))) then ret false
    else
      let* tile1 := gets (getTile (pos_row pos1) (pos_col pos1)) in
      let* tile2 := gets (getTile (pos_row pos2) (pos_col pos2)) in
      match tile1, tile2 with
      | Some tile1, Some tile2 =>
          swapTilesLogical tile1 tile2 >>
          let* matches := findMatches in
          if (0 <? Z.of_nat (length matches)) then
            modify (set_isProcessing true) >>
            modify (set_comboCount 0) >>
            deselectTile >>
            onTile tile1 (startMoveAnimation SWAP_DURATION) >>
            onTile tile2 (startMoveAnimation SWAP_DURATION) >>
            setTimeout (CbProcessMatches matches) SWAP_DURATION >>
            ret true
          else
            swapTilesLogical tile1 tile2 >>
            onTile tile1 (startMoveAnimation SWAP_DURATION) >>
            onTile tile2 (startMoveAnimation SWAP_DURATION) >>
            setTimeout (CbSwapBack tile1 tile2) SWAP_DURATION >>
            ret false
      | _, _ => ret false
      end.

(** The timer of a rejected swap (lines 190-201). *)
Definition swapBack (tile1 tile2 : loc) : M unit :=
  let* tempX := gets (fun s => targetX (tileAt tile1 s)) in
  let* tempY := gets (fun s => targetY (tileAt tile1 s)) in
  let* x2 := gets (fun s => targetX (tileAt tile2 s)) in
  let* y2 := gets (fun s => targetY (tileAt tile2 s)) in
  onTile tile1 (set_target (x2, y2)) >>
  onTile tile2 (set_target (tempX, tempY)) >>
  onTile tile1 (startMoveAnimation SWAP_DURATION) >>
  onTile tile2 (startMoveAnimation SWAP_DURATION).

(** ** entities/Board.ts: the cascade *)

(** [Set.add] on the keys ["row,col"], kept in insertion order. *)
Definition setAdd (k : Z * Z) (set : list (Z * Z)) : list (Z * Z) :=
  if bool_decide (k ∈ set) then set else set ++ [k].

Definition processMatches (matches : list Match) : M unit :=
  modify (fun s => set_comboCount (comboCount s + 1) s) >>
  let* cb := gets onMatchCallback in
  let* combo := gets comboCount in
  (if cb then emit (EvMatch matches (1 <? combo)) else ret tt) >>
  let toDestroy :=
    fold_left (fun set m =>
                 fold_left (fun set pos => setAdd (pos_row pos, pos_col pos) set)
                           (tiles m) set)
              matches [] in
  forM_ toDestroy (fun '(r, c) =>
    let* tile := gets (getTile r c) in
    match tile with
    | Some tile => onTile tile (startDestroyAnimation DESTROY_DURATION)
    | None => ret tt
    end) >>
  setTimeout CbGravity DESTROY_DURATION.

Definition removeDestroyedTiles : M unit :=
  forM_ (seqZ 0 BOARD_ROWS) (fun r =>
    forM_ (seqZ 0 BOARD_COLS) (fun c =>
      let* tile := gets (gridAt r c) in
      match tile with
      | Some tile =>
          let* destroying := gets (fun s => isDestroying (tileAt tile s)) in
          if destroying then setGrid r c None else ret tt
      | None => ret tt
      end)).

(** Lines 370-386 of [applyGravity]: compact one column, bottom to top.
    The loop state is [(emptySpaces, maxFallDistance)]. *)
Definition compactColumn (c : Z) (maxFallDistance : Z) : M (Z * Z) :=
  forM (reverse (seqZ 0 BOARD_ROWS)) (fun r '(emptySpaces, maxFallDistance) =>
    let* tile := gets (gridAt r c) in
    match tile with
    | None => ret (emptySpaces + 1, maxFallDistance)
    | Some tile =>
        if 0 <? emptySpaces then
          let newRow := r + emptySpaces in
          setGrid newRow c (Some tile) >>
          setGrid r c None >>
          onTile tile (setBoardPosition newRow c) >>
          onTile tile (startFallAnimation (FALL_DURATION_PER_CELL * emptySpaces)) >>
          ret (emptySpaces, Z.max maxFallDistance emptySpaces)
        else ret (emptySpaces, maxFallDistance)
    end) (0, maxFallDistance).

(** Lines 389-398 of [applyGravity]: fill the top of the column. *)
Definition spawnColumn (c : Z) (emptySpaces : Z) (maxFallDistance : Z) : M Z :=
  forM (seqZ 0 emptySpaces) (fun i maxFallDistance =>
    let r := emptySpaces - 1 - i in
    let* ty := randomInt TILE_TYPE_COUNT in
    let* tile := newTile ty r c in
    setGrid r c (Some tile) >>
    onTile tile (startSpawnAnimation (SPAWN_DURATION + i * 50) (-1 - i)) >>
    ret (Z.max maxFallDistance emptySpaces)) maxFallDistance.

Definition applyGravity : M unit :=
  let* maxFallDistance :=
    forM (seqZ 0 BOARD_COLS) (fun c maxFallDistance =>
      let* (emptySpaces, maxFallDistance) := compactColumn c maxFallDistance in
      spawnColumn c emptySpaces maxFallDistance) 0 in
  let waitTime :=
    Z.max (FALL_DURATION_PER_CELL * maxFallDistance + 100)
          (SPAWN_DURATION + (BOARD_ROWS - 1) * 50 + 100) in
  setTimeout CbCheckCascade waitTime.

Definition checkCascade : M unit :=
  let* matches := findMatches in
  if (0 <? Z.of_nat (length matches)) then
    processMatches matches
  else
    modify (set_isProcessing false) >>
    modify (set_comboCount 0) >>
    let* cb := gets onBoardSettledCallback in
    if cb then emit EvSettled else ret tt.

Definition getIsProcessing (s : Board) : bool := isProcessing s.
Definition getComboCount (s : Board) : Z := comboCount s.

Definition update (deltaTime : Q) : M unit :=
  forM_ (seqZ 0 BOARD_ROWS) (fun r =>
    forM_ (seqZ 0 BOARD_COLS) (fun c =>
      let* tile := gets (gridAt r c) in
      match tile with
      | Some tile => onTile tile (fun t => snd (Tile_update deltaTime t))
      | None => ret tt
      end)).

Definition onMatch : M unit := modify (set_onMatchCallback true).
Definition onBoardSettled : M unit := modify (set_onBoardSettledCallback true).

(** ** entities/Board.ts: valid moves and shuffle *)

(** [for (...; cond(i); ...) count++] over the indices [l] in order: the
    number of leading indices that pass the test. *)
Fixpoint countWhile (p : Z -> bool) (l : list Z) : Z :=
  match l with
  | [] => 0
  | i :: l' => if p i then 1 + countWhile p l' else 0
  end.

(** [this.getTile(row, col)?.type === type] *)
Definition hasType (ty : TileType) (s : Board) (r c : Z) : bool :=
  match getTile r c s with
  | Some tile => type (tileAt tile s) =? ty
  | None => false
  end.

Definition checkMatchAt (r c : Z) (ty : TileType) (s : Board) : bool :=
  let hCount :=
    1 + countWhile (fun c' => hasType ty s r c') (reverse (seqZ 0 c))
      + countWhile (fun c' => hasType ty s r c') (seqZ (c + 1) (BOARD_COLS - (c + 1))) in
  if MIN_MATCH_LENGTH <=? hCount then true
  else
    let vCount :=
      1 + countWhile (fun r' => hasType ty s r' c) (reverse (seqZ 0 r))
        + countWhile (fun r' => hasType ty s r' c) (seqZ (r + 1) (BOARD_ROWS - (r + 1))) in
    MIN_MATCH_LENGTH <=? vCount.

Definition wouldMatchAfterSwap (pos1 pos2 : BoardPosition) : M bool :=
  let* tile1 := gets (getTile (pos_row pos1) (pos_col pos1)) in
  let* tile2 := gets (getTile (pos_row pos2) (pos_col pos2)) in
  match tile1, tile2 with
  | Some tile1, Some tile2 =>
      setGrid (pos_row pos1) (pos_col pos1) (Some tile2) >>
      setGrid (pos_row pos2) (pos_col pos2) (Some tile1) >>
      let* type2 := gets (fun s => type (tileAt tile2 s)) in
      let* type1 := gets (fun s => type (tileAt tile1 s)) in
      let* at1 := gets (checkMatchAt (pos_row pos1) (pos_col pos1) type2) in
      let* hasMatch :=
        (if at1 then ret true
         else gets (checkMatchAt (pos_row pos2) (pos_col pos2) type1)) in
      setGrid (pos_row pos1) (pos_col pos1) (Some tile1) >>
      setGrid (pos_row pos2) (pos_col pos2) (Some tile2) >>
      ret hasMatch
  | _, _ => ret false
  end.

(** The loop state is "has [return true] been reached". *)
Definition hasValidMoves : M bool :=
  forM (seqZ 0 BOARD_ROWS) (fun r returned =>
    forM (seqZ 0 BOARD_COLS) (fun c returned =>
      if (returned : bool) then ret true
      else
        let* swapRight :=
          (if c <? BOARD_COLS - 1
           then wouldMatchAfterSwap (mkPos r c) (mkPos r (c + 1))
           else ret false) in
        if swapRight then ret true
        else if r <? BOARD_ROWS - 1
             then wouldMatchAfterSwap (mkPos r c) (mkPos (r + 1) c)
             else ret false) returned) false.

(** [[types[i], types[j]] = [types[j], types[i]]] *)
Definition swapEntries (types : list TileType) (i j : Z) : list TileType :=
  let ti := default 0 (types !! Z.to_nat i) in
  let tj := default 0 (types !! Z.to_nat j) in
  <[Z.to_nat j := ti]> (<[Z.to_nat i := tj]> types).

Definition shuffle : M unit :=
  let* types :=
    forM (seqZ 0 BOARD_ROWS) (fun r types =>
      forM (seqZ 0 BOARD_COLS) (fun c types =>
        let* tile := gets (getTile r c) in
        match tile with
        | Some tile =>
            let* ty := gets (fun s => type (tileAt tile s)) in
            ret (types ++ [ty])
        | None => ret types
        end) types) [] in
  let* types :=
    forM (reverse (seqZ 1 (Z.of_nat (length types) - 1))) (fun i types =>
      let* j := randomInt (i + 1) in
      ret (swapEntries types i j)) types in
  let* _ :=
    forM (seqZ 0 BOARD_ROWS) (fun r index =>
      forM (seqZ 0 BOARD_COLS) (fun c index =>
        let* tile := gets (getTile r c) in
        match tile with
        | Some tile =>
            onTile tile (set_type (default 0 (types !! Z.to_nat index))) >>
            ret (index + 1)
        | None => ret index
        end) index) 0 in
  ret tt.

(** ** The board as a machine

    What can happen to a board: a call of one of its public methods, or one
    of its pending timers firing.  Timers and frame updates are driven by
    different clocks of the host, so no order between them is assumed. *)

Definition runCallback (cb : Callback) : M unit :=
  match cb with
  | CbProcessMatches matches => processMatches matches
  | CbSwapBack tile1 tile2 => swapBack tile1 tile2
  | CbGravity => removeDestroyedTiles >> applyGravity
  | CbCheckCascade => checkCascade
  end.

Definition fireTimer (n : nat) : M unit :=
  let* pending := gets timers in
  match pending !! n with
  | Some t => modify (set_timers (delete n pending)) >> runCallback (callback t)
  | None => ret tt
  end.

Inductive Input : Type :=
| CallTrySwap (pos1 pos2 : BoardPosition)
| CallSelectTile (r c : Z)
| CallDeselectTile
| CallUpdate (deltaTime : Q)
| CallFindMatches
| CallHasValidMoves
| CallShuffle
| CallOnMatch
| CallOnBoardSettled
| TimerFires (n : nat).

Definition step (i : Input) : M unit :=
  match i with
  | CallTrySwap pos1 pos2 => trySwap pos1 pos2 >> ret tt
  | CallSelectTile r c => selectTile r c
  | CallDeselectTile => deselectTile
  | CallUpdate deltaTime => update deltaTime
  | CallFindMatches => findMatches >> ret tt
  | CallHasValidMoves => hasValidMoves >> ret tt
  | CallShuffle => shuffle
  | CallOnMatch => onMatch
  | CallOnBoardSettled => onBoardSettled
  | TimerFires n => fireTimer n
  end.

Definition run (inputs : list Input) : M unit := forM_ inputs step.

(** The boards that can arise: constructed, then driven by any inputs. *)
Definition reachable (s : Board) : Prop :=
  exists rand inputs, s = snd (run inputs (Board_new rand)).

(** ** The detection pass, read as a function of the grid

    [scanRuns] is the run-length scan that both loops of [findMatches]
    perform over a line, given the test [link i] ("cell [i] continues the run
    of cell [i - 1]"); it lists the closed runs of at least
    [MIN_MATCH_LENGTH] cells as (start, length). *)

Fixpoint scanRuns (link : Z -> bool) (idx : list Z) (matchStart matchLength : Z)
  : list (Z * Z) :=
  match idx with
  | [] => []
  | i :: rest =>
      if link i then scanRuns link rest matchStart (matchLength + 1)
      else (if MIN_MATCH_LENGTH <=? matchLength
            then [(matchStart, matchLength)] else [])
           ++ scanRuns link rest i 1
  end.

Definition hlink (s : Board) (r c : Z) : bool :=
  tilesLink (getTile r c s) (getTile r (c - 1) s) s.
Definition vlink (s : Board) (c r : Z) : bool :=
  tilesLink (getTile r c s) (getTile (r - 1) c s) s.

Definition hRunsOf (s : Board) (r : Z) : list (Z * Z) :=
  scanRuns (hlink s r) (seqZ 1 BOARD_COLS) 0 1.
Definition vRunsOf (s : Board) (c : Z) : list (Z * Z) :=
  scanRuns (vlink s c) (seqZ 1 BOARD_ROWS) 0 1.

Definition hCells (r : Z) (seg : Z * Z) : list BoardPosition :=
  map (mkPos r) (seqZ (fst seg) (snd seg)).
Definition vCells (c : Z) (seg : Z * Z) : list BoardPosition :=
  map (fun i => mkPos i c) (seqZ (fst seg) (snd seg)).

Definition hMatchOf (r : Z) (seg : Z * Z) : Match :=
  mkMatch (hCells r seg) Horizontal (snd seg).

Definition hMatches (s : Board) : list Match :=
  flat_map (fun r => map (hMatchOf r) (hRunsOf s r)) (seqZ 0 BOARD_ROWS).

(** Is the cell listed by one of the horizontal matches? *)
Definition inHorizontal (s : Board) (p : BoardPosition) : bool :=
  bool_decide (Exists (fun m => p ∈ tiles m) (hMatches s)).

(** The cells of a vertical run that no horizontal match lists. *)
Definition vFresh (s : Board) (c : Z) (seg : Z * Z) : list BoardPosition :=
  map (fun i => mkPos i c)
      (filter (fun i => inHorizontal s (mkPos i c) = false) (seqZ (fst seg) (snd seg))).

Definition vMatchOf (s : Board) (c : Z) (seg : Z * Z) : option Match :=
  if bool_decide (vFresh s c seg = []) then None
  else Some (mkMatch (vFresh s c seg) Vertical (snd seg)).

Definition vMatches (s : Board) : list Match :=
  flat_map (fun c => omap (vMatchOf s c) (vRunsOf s c)) (seqZ 0 BOARD_COLS).

Definition matchesOf (s : Board) : list Match := hMatches s ++ vMatches s.

(** Closing the run [seg], as a step on the pair (matches, matched). *)
Definition closeH (r : Z) (acc : list Match * list (list bool)) (seg : Z * Z)
  : list Match * list (list bool) :=
  closeHorizontal r (mkScan (fst acc) (snd acc) (fst seg) (snd seg)).
Definition closeV (c : Z) (acc : list Match * list (list bool)) (seg : Z * Z)
  : list Match * list (list bool) :=
  closeVertical c (mkScan (fst acc) (snd acc) (fst seg) (snd seg)).

(** Runs listed in order, without overlap, inside [lo, hi), each of at
    least [MIN_MATCH_LENGTH] cells. *)
Fixpoint segsWithin (lo hi : Z) (segs : list (Z * Z)) : Prop :=
  match segs with
  | [] => True
  | seg :: rest =>
      lo <= fst seg /\ MIN_MATCH_LENGTH <= snd seg /\ fst seg + snd seg <= hi
      /\ segsWithin (fst seg + snd seg) hi rest
  end.

(** Marking the cells [l] of row [r]. *)
Definition markRow (r : Z) (md : list (list bool)) (l : list Z) : list (list bool) :=
  fold_left (fun md i => update2 false md r i true) l md.

(** ** Runs, as the specification speaks of them *)

(** The type of the tile in a cell, when the cell holds a tile that is not
    in the middle of an animation. *)
Definition restingType (s : Board) (r c : Z) : option TileType :=
  match getTile r c s with
  | Some tile =>
      if isAnimating (tileAt tile s) then None else Some (type (tileAt tile s))
  | None => None
  end.

(** The cells [(r, c0) .. (r, c0 + n - 1)] are a maximal run of equal-type
    tiles, none of them animating. *)
Definition hRun (s : Board) (r c0 n : Z) : Prop :=
  exists ty,
    (forall c, c0 <= c < c0 + n -> restingType s r c = Some ty)
    /\ restingType s r (c0 - 1) <> Some ty
    /\ restingType s r (c0 + n) <> Some ty.

(** The cells [(r0, c) .. (r0 + n - 1, c)] are such a run. *)
Definition vRun (s : Board) (c r0 n : Z) : Prop :=
  exists ty,
    (forall r, r0 <= r < r0 + n -> restingType s r c = Some ty)
    /\ restingType s (r0 - 1) c <> Some ty
    /\ restingType s (r0 + n) c <> Some ty.

(** Is the cell listed by a match of direction [d] of the list? *)
Definition listedIn (d : MatchDirection) (ms : list Match) (p : BoardPosition) : bool :=
  bool_decide (Exists (fun m => direction m = d /\ p ∈ tiles m) ms).

(** Do two matches list a common cell? *)
Definition overlap (m1 m2 : Match) : Prop :=
  Exists (fun p => p ∈ tiles m2) (tiles m1).

#[global] Instance overlap_dec (m1 m2 : Match) : Decision (overlap m1 m2).
Proof. unfold overlap. apply _. Defined.

(** ** Example boards

    A random source given by the list of its first draws (0 afterwards). *)
Definition drawsFrom (l : list Z) (k : nat) : Z := nth k l 0.

(** The generator, fed these draws, builds the board

      1 2 0 4 5 1 2 3
      3 4 0 1 2 3 4 5
      0 0 2 0 4 5 1 2
      2 3 4 5 1 2 3 4   (and four more rows of the same pattern)

    in which tile 18 is at (2,2) and tile 19 at (2,3). *)
Definition crossDraws : list Z :=
  [1; 2; 0; 4; 5; 1; 2; 3;  3; 4; 0; 1; 2; 3; 4; 5;
   0; 0; 1; 0; 4; 5; 1; 2;  2; 3; 4; 5; 1; 2; 3; 4;
   4; 5; 1; 2; 3; 4; 5; 1;  1; 2; 3; 4; 5; 1; 2; 3;
   3; 4; 5; 1; 2; 3; 4; 5;  5; 1; 2; 3; 4; 5; 1; 2].

(** The grid [trySwap] hands to [findMatches] for the swap (2,2) <-> (2,3)
    on that board: row 2 starts with three 0s and column 2 starts with
    three 0s, sharing the cell (2,2). *)
Definition crossBoard : Board :=
  snd (swapTilesLogical 18%nat 19%nat (Board_new (drawsFrom crossDraws))).

(** The same with the 0 of the top row moved away, so that the board is

      1 2 3 4 5 1 2 3
      3 4 0 1 2 3 4 5
      0 0 2 0 4 5 1 2   ...

    with tile 10 at (1,2) and tile 18 at (2,2). *)
Definition fourDraws : list Z :=
  [1; 2; 3; 4; 5; 1; 2; 3;  3; 4; 0; 1; 2; 3; 4; 5;
   0; 0; 1; 0; 4; 5; 1; 2;  2; 3; 4; 5; 1; 2; 3; 4;
   4; 5; 1; 2; 3; 4; 5; 1;  1; 2; 3; 4; 5; 1; 2; 3;
   3; 4; 5; 1; 2; 3; 4; 5;  5; 1; 2; 3; 4; 5; 1; 2].

(** The grid [trySwap] hands to [findMatches] for the swap (1,2) <-> (2,2):
    row 2 starts with four 0s. *)
Definition fourBoard : Board :=
  snd (swapTilesLogical 10%nat 18%nat (Board_new (drawsFrom fourDraws))).

(** ** Invariants of the board *)

(** The type of the tile in a cell of the board, whatever the tile is
    doing. *)
Definition typeAt (s : Board) (r c : Z) : option TileType :=
  match getTile r c s with
  | Some tile => Some (type (tileAt tile s))
  | None => None
  end.

(** Every cell of the board holds a tile. *)
Definition full (s : Board) : Prop :=
  forall r c, 0 <= r < BOARD_ROWS -> 0 <= c < BOARD_COLS -> gridAt r c s <> None.

(** No three adjacent cells of a row or of a column hold tiles of the same
    type. *)
Definition noRun3 (s : Board) : Prop :=
  forall r c ty,
    typeAt s r c = Some ty ->
    ~ (typeAt s r (c + 1) = Some ty /\ typeAt s r (c + 2) = Some ty)
    /\ ~ (typeAt s (r + 1) c = Some ty /\ typeAt s (r + 2) c = Some ty).

(** The same, counting only tiles that are not animating. *)
Definition noRestingRun3 (s : Board) : Prop :=
  forall r c ty,
    restingType s r c = Some ty ->
    ~ (restingType s r (c + 1) = Some ty /\ restingType s r (c + 2) = Some ty)
    /\ ~ (restingType s (r + 1) c = Some ty /\ restingType s (r + 2) c = Some ty).

(** Each tile in the grid knows the cell it is in. *)
Definition positionCoherent (s : Board) : Prop :=
  forall r c l, gridAt r c s = Some l -> row (tileAt l s) = r /\ col (tileAt l s) = c.

(** No tile is in two cells. *)
Definition unshared (s : Board) : Prop :=
  forall r c r' c' l,
    gridAt r c s = Some l -> gridAt r' c' s = Some l -> r = r' /\ c = c'.

(** The references in the grid are to tiles that were created. *)
Definition allocated (s : Board) : Prop :=
  forall r c l, gridAt r c s = Some l -> (l < nextLoc s)%nat.

Definition wellFormed (s : Board) : Prop :=
  length (grid s) = Z.to_nat BOARD_ROWS /\ positionCoherent s /\ allocated s.

(** A function on tiles that leaves the board position alone. *)
Definition keepsPosition (f : Tile -> Tile) : Prop :=
  forall t, row (f t) = row t /\ col (f t) = col t.

(** A function on tiles that leaves the type alone. *)
Definition keepsType (f : Tile -> Tile) : Prop :=
  forall t, type (f t) = type t.

(** Two states with the same cells and the same tiles. *)
Definition sameCells (s s' : Board) : Prop :=
  length (grid s') = length (grid s)
  /\ (forall r c, gridAt r c s' = gridAt r c s)
  /\ heap s' = heap s /\ nextLoc s' = nextLoc s.

(** A computation keeps a property of the board. *)
Definition preserves {A : Type} (P : Board -> Prop) (m : M A) : Prop :=
  forall s, P s -> P (snd (m s)).

(** The part of the state that the cascade accounting is about. *)
Definition accounting (s : Board) : bool * Z * list Event * bool :=
  (isProcessing s, comboCount s, emitted s, onMatchCallback s).

(** ** Cascades

    Does this input, arriving in state [s], start a destroy pass (a call of
    [processMatches])?  It does when it fires the timer set by an accepted
    swap, or the timer of [checkCascade] on a board that has matches. *)
Definition startsPass (i : Input) (s : Board) : bool :=
  match i with
  | TimerFires n =>
      match timers s !! n with
      | Some t =>
          match callback t with
          | CbProcessMatches _ => true
          | CbCheckCascade => bool_decide (fst (findMatches s) <> [])
          | _ => false
          end
      | None => false
      end
  | _ => false
  end.

(** The number of destroy passes started by a sequence of inputs. *)
Fixpoint passes (inputs : list Input) (s : Board) : nat :=
  match inputs with
  | [] => 0
  | i :: rest => ((if startsPass i s then 1 else 0) + passes rest (snd (step i s)))%nat
  end.

(** The board is processing when each of the inputs arrives: the inputs
    fall within one cascade. *)
Fixpoint busyThroughout (inputs : list Input) (s : Board) : Prop :=
  match inputs with
  | [] => True
  | i :: rest => isProcessing s = true /\ busyThroughout rest (snd (step i s))
  end.

(** The [isCombo] flags of the match events of a list of events. *)
Definition comboFlags (es : list Event) : list bool :=
  omap (fun e => match e with EvMatch _ b => Some b | EvSettled => None end) es.

(** The generator, fed these draws, builds a board whose last two rows are

      3 4 0 1 2 3 4 5
      0 0 2 3 4 5 1 2

    over rows of the pattern above.  The six draws after the first 64 are
    the types of the tiles spawned later: three 0s, then 2, 3, 5. *)
Definition comboDraws : list Z :=
  [1; 2; 3; 4; 5; 1; 2; 3;  3; 4; 5; 1; 2; 3; 4; 5;
   5; 1; 2; 3; 4; 5; 1; 2;  2; 3; 4; 5; 1; 2; 3; 4;
   4; 5; 1; 2; 3; 4; 5; 1;  1; 2; 3; 4; 5; 1; 2; 3;
   3; 4; 0; 1; 2; 3; 4; 5;  0; 0; 1; 3; 4; 5; 1; 2;
   0; 0; 0;  2; 3; 5].

(** That board, with a match callback registered. *)
Definition comboBoard : Board := snd (onMatch (Board_new (drawsFrom comboDraws))).

(** After the swap (6,2) <-> (7,2): the timers of the first pass, frames of
    one second that finish every animation, the re-check that finds the
    three spawned 0s, the timers of the second pass, and the re-check that
    settles the board. *)
Definition comboInputs : list Input :=
  [TimerFires 0; TimerFires 0; CallUpdate 1000; TimerFires 0;
   TimerFires 0; CallUpdate 1000; TimerFires 0].

(** The board of [crossDraws] with a settled callback registered, and the
    cascade of the swap (2,2) <-> (2,3) when no frame update comes between
    the timers. *)
Definition stalledBoard : Board :=
  snd (run [CallOnBoardSettled; CallTrySwap (mkPos 2 2) (mkPos 2 3);
            TimerFires 0; TimerFires 0]
           (Board_new (drawsFrom crossDraws))).

(** ** Columns under gravity *)

(** The body of the column loop of [applyGravity]. *)
Definition gravityColumn (c : Z) (maxFallDistance : Z) : M Z :=
  let* (emptySpaces, maxFallDistance) := compactColumn c maxFallDistance in
  spawnColumn c emptySpaces maxFallDistance.

(** The cells of column [c] in rows [lo .. lo + n - 1]. *)
Definition columnCells (c : Z) (s : Board) (lo n : Z) : list (option loc) :=
  map (fun r => gridAt r c s) (seqZ lo n).

(** The tiles of column [c], top to bottom. *)
Definition columnTiles (c : Z) (s : Board) : list loc :=
  omap id (columnCells c s 0 BOARD_ROWS).

(** The types of the tiles of column [c], top to bottom. *)
Definition columnTypes (c : Z) (s : Board) : list TileType :=
  map (fun l => type (tileAt l s)) (columnTiles c s).

(** The types of the tiles of column [c] that are not being destroyed. *)
Definition survivorTypes (c : Z) (s : Board) : list TileType :=
  map (fun l => type (tileAt l s))
      (filter (fun l => isDestroying (tileAt l s) = false) (columnTiles c s)).

(** The compaction loop of column [c], started in [s0], after [k] rows
    (the rows [8 - k .. 7]): the loop state is [a = (emptySpaces, _)]. *)
Definition compactInv (c : Z) (s0 : Board) (k : nat) (a : Z * Z) (s : Board) : Prop :=
  0 <= fst a <= Z.of_nat k
  /\ wellFormed s
  /\ (forall r c', c' <> c \/ r < 8 - Z.of_nat k \/ 8 <= r ->
                   gridAt r c' s = gridAt r c' s0)
  /\ (forall r, 8 - Z.of_nat k <= r < 8 - Z.of_nat k + fst a -> gridAt r c s = None)
  /\ (forall r, 8 - Z.of_nat k + fst a <= r < 8 -> gridAt r c s <> None)
  /\ omap id (columnCells c s (8 - Z.of_nat k) (Z.of_nat k))
     = omap id (columnCells c s0 (8 - Z.of_nat k) (Z.of_nat k))
  /\ (forall l, type (tileAt l s) = type (tileAt l s0))
  /\ nextLoc s = nextLoc s0.

(** The spawn loop of column [c], started in [s0] with [e] empty cells,
    after [k] tiles were created (in the rows [e - k .. e - 1]). *)
Definition spawnInv (c e : Z) (s0 : Board) (k : nat) (s : Board) : Prop :=
  wellFormed s
  /\ (forall r c', c' <> c \/ r < e - Z.of_nat k \/ e <= r ->
                   gridAt r c' s = gridAt r c' s0)
  /\ (forall r, e - Z.of_nat k <= r < e ->
                exists l, gridAt r c s = Some l /\ (nextLoc s0 <= l)%nat)
  /\ (forall l, (l < nextLoc s0)%nat -> tileAt l s = tileAt l s0)
  /\ nextLoc s = (nextLoc s0 + k)%nat.

(** What [removeDestroyedTiles] leaves in a cell. *)
Definition cleared (s : Board) (r c : Z) : option loc :=
  match gridAt r c s with
  | Some l => if isDestroying (tileAt l s) then None else Some l
  | None => None
  end.

(** [removeDestroyedTiles], started in [s0], when the rows above [k] and
    the first [j] cells of row [k] have been visited. *)
Definition removeInv (s0 : Board) (k j : Z) (s : Board) : Prop :=
  length (grid s) = length (grid s0)
  /\ heap s = heap s0 /\ nextLoc s = nextLoc s0
  /\ forall r c,
       gridAt r c s
       = if decide ((r < k \/ (r = k /\ c < j)) /\ 0 <= c < BOARD_COLS)
         then cleared s0 r c else gridAt r c s0.

(** [applyGravity] stopped in column [c], when the column has been
    compacted and its spawn loop has not started: the columns before [c] are
    done.  The result is [(emptySpaces, maxFallDistance)]. *)
Definition gravityUpTo (c : Z) : M (Z * Z) :=
  let* maxFallDistance := forM (seqZ 0 c) gravityColumn 0 in
  compactColumn c maxFallDistance.

(** The rest of [applyGravity] from there. *)
Definition gravityFrom (c : Z) (emptySpaces maxFallDistance : Z) : M unit :=
  let* maxFallDistance := spawnColumn c emptySpaces maxFallDistance in
  let* maxFallDistance :=
    forM (seqZ (c + 1) (BOARD_COLS - c - 1)) gravityColumn maxFallDistance in
  let waitTime :=
    Z.max (FALL_DURATION_PER_CELL * maxFallDistance + 100)
          (SPAWN_DURATION + (BOARD_ROWS - 1) * 50 + 100) in
  setTimeout CbCheckCascade waitTime.

(** ** The construction loop *)

(** The cells that [initializeBoard] has filled when it is in row [k], about
    to fill column [j]. *)
Definition placed (k j r c : Z) : Prop :=
  0 <= c < BOARD_COLS /\ (0 <= r < k \/ (r = k /\ c < j)).

(** No tile ends a run of three, looking left and looking up. *)
Definition noRunBehind (s : Board) : Prop :=
  forall r c l l1 l2,
    gridAt r c s = Some l ->
    (gridAt r (c - 1) s = Some l1 -> gridAt r (c - 2) s = Some l2 ->
     ~ (type (tileAt l1 s) = type (tileAt l s) /\ type (tileAt l2 s) = type (tileAt l s)))
    /\ (gridAt (r - 1) c s = Some l1 -> gridAt (r - 2) c s = Some l2 ->
        ~ (type (tileAt l1 s) = type (tileAt l s)
           /\ type (tileAt l2 s) = type (tileAt l s))).

(** Every tile of the grid has one of the first [typeCount] types. *)
Definition typesBelow (typeCount : Z) (s : Board) : Prop :=
  forall r c l, gridAt r c s = Some l -> 0 <= type (tileAt l s) < typeCount.

Definition initInv (typeCount : Z) (n : nat) (k j : Z) (s : Board) : Prop :=
  length (grid s) = n
  /\ (forall r c, placed k j r c -> gridAt r c s <> None)
  /\ (forall r c l, gridAt r c s = Some l -> placed k j r c)
  /\ positionCoherent s /\ allocated s
  /\ noRunBehind s /\ typesBelow typeCount s.

(** ** Settle points

    Does this input, arriving in state [s], run the branch of
    [checkCascade] that ends the processing (lines 421-428)? *)
Definition settles (i : Input) (s : Board) : bool :=
  match i with
  | TimerFires n =>
      match timers s !! n with
      | Some t =>
          match callback t with
          | CbCheckCascade => bool_decide (fst (findMatches s) = [])
          | _ => false
          end
      | None => false
      end
  | _ => false
  end.

(** ** The board read row by row *)

(** The cells of the board in the order of the loops
    [for row ... for col ...]. *)
Definition boardCells : list (Z * Z) :=
  flat_map (fun r => map (fun c => (r, c)) (seqZ 0 BOARD_COLS)) (seqZ 0 BOARD_ROWS).

(** The tiles of the board, and their types, in that order. *)
Definition boardTiles (s : Board) : list loc :=
  omap (fun p => getTile (fst p) (snd p) s) boardCells.
Definition boardTypes (s : Board) : list TileType :=
  map (fun l => type (tileAt l s)) (boardTiles s).

(** Both objects are the same but for the type. *)
Definition sameButType (t t' : Tile) : Prop := t' = set_type (type t') t.

(** The three loops of [shuffle] (lines 601-609, 612-615, 618-626). *)
Definition collectTypes : M (list TileType) :=
  forM (seqZ 0 BOARD_ROWS) (fun r types =>
    forM (seqZ 0 BOARD_COLS) (fun c types =>
      let* tile := gets (getTile r c) in
      match tile with
      | Some tile =>
          let* ty := gets (fun s => type (tileAt tile s)) in
          ret (types ++ [ty])
      | None => ret types
      end) types) [].

Definition shuffleTypes (types : list TileType) : M (list TileType) :=
  forM (reverse (seqZ 1 (Z.of_nat (length types) - 1))) (fun i types =>
    let* j := randomInt (i + 1) in
    ret (swapEntries types i j)) types.

Definition assignTypes (types : list TileType) : M Z :=
  forM (seqZ 0 BOARD_ROWS) (fun r index =>
    forM (seqZ 0 BOARD_COLS) (fun c index =>
      let* tile := gets (getTile r c) in
      match tile with
      | Some tile =>
          onTile tile (set_type (default 0 (types !! Z.to_nat index))) >>
          ret (index + 1)
      | None => ret index
      end) index) 0.

(** The third loop of [shuffle], started in [s] with the list [types],
    when the first [k] cells have been visited; [index] is its counter. *)
Definition assignInv (types : list TileType) (s : Board) (k : nat) (index : Z)
           (t : Board) : Prop :=
  let visited := omap (fun p => getTile (fst p) (snd p) s) (take k boardCells) in
  set_heap (heap s) t = s
  /\ index = Z.of_nat (length visited)
  /\ map (fun l => type (tileAt l t)) visited = take (length visited) types
  /\ (forall l, l ∉ visited -> tileAt l t = tileAt l s)
  /\ (forall l, sameButType (tileAt l s) (tileAt l t)).

(** ** Coherence *)

(** Each tile of the grid knows its cell, and is in one cell only. *)
Definition coherent (s : Board) : Prop := positionCoherent s /\ unshared s.

(** The board of [crossDraws] after the swap (2,2) <-> (2,3) and the first
    destroy pass: the five tiles of the cross are being destroyed. *)
Definition passBoard : Board :=
  snd (run [CallTrySwap (mkPos 2 2) (mkPos 2 3); TimerFires 0]
           (Board_new (drawsFrom crossDraws))).

(** ** Cells in runs *)

(** The cell lies in a maximal run of at least [MIN_MATCH_LENGTH] resting
    tiles of one type, in its row or in its column. *)
Definition inRun (s : Board) (p : BoardPosition) : Prop :=
  (exists c0 n, MIN_MATCH_LENGTH <= n /\ hRun s (pos_row p) c0 n
                /\ c0 <= pos_col p < c0 + n)
  \/ (exists r0 n, MIN_MATCH_LENGTH <= n /\ vRun s (pos_col p) r0 n
                   /\ r0 <= pos_row p < r0 + n).

(** The cell is in the tile list of one of the matches. *)
Definition listedBy (ms : list Match) (p : BoardPosition) : Prop :=
  Exists (fun m => p ∈ tiles m) ms.

(** ** Moves *)

(** One of the two swaps that [hasValidMoves] tries at the cell [(r, c)],
    to the right and downwards, would make a match. *)
Definition moveAt (s : Board) (p : Z * Z) : bool :=
  ((snd p <? BOARD_COLS - 1)
   && fst (wouldMatchAfterSwap (mkPos (fst p) (snd p)) (mkPos (fst p) (snd p + 1)) s))
  || ((fst p <? BOARD_ROWS - 1)
      && fst (wouldMatchAfterSwap (mkPos (fst p) (snd p)) (mkPos (fst p + 1) (snd p)) s)).

(** ** The destroy pass *)

(** The tile is in a cell that one of the matches lists. *)
Definition doomed (matches : list Match) (s : Board) (l : loc) : Prop :=
  exists m p, m ∈ matches /\ p ∈ tiles m /\ getTile (pos_row p) (pos_col p) s = Some l.

(** The keys of the cells to destroy, as [processMatches] collects them. *)
Definition destroyKeys (matches : list Match) : list (Z * Z) :=
  fold_left (fun set m =>
               fold_left (fun set pos => setAdd (pos_row pos, pos_col pos) set)
                         (tiles m) set)
            matches [].

(** The board of [passBoard] when the destroyed tiles have been removed. *)
Definition holedBoard : Board := snd (removeDestroyedTiles passBoard).

(** ** Tiles over time *)

(** What may have happened to a tile object while the board only advanced
    its animation: its type, its cell and its target are as they were; if it
    was being destroyed it still is; and it has not become selected. *)
Definition agedTile (t t' : Tile) : Prop :=
  type t' = type t /\ row t' = row t /\ col t' = col t
  /\ targetX t' = targetX t /\ targetY t' = targetY t
  /\ (state t = Destroying -> state t' = Destroying)
  /\ (state t' = Selected -> state t = Selected).

(** ** Invariants of the tile objects *)

(** Every tile object has one of the types of the game. *)
Definition validTypes (s : Board) : Prop :=
  forall l, 0 <= type (tileAt l s) < TILE_TYPE_COUNT.

(** Only the selected tile is in state [Selected]. *)
Definition selectedOnly (s : Board) : Prop :=
  forall l, state (tileAt l s) = Selected -> selectedTile s = Some l.

(** A function on tiles that does not select. *)
Definition keepsUnselected (f : Tile -> Tile) : Prop :=
  forall t, state (f t) = Selected -> state t = Selected.

(** A reachable board on which the tile of the cell (2,2) is selected. *)
Definition selectedBoard : Board :=
  snd (run [CallSelectTile 2 2] (Board_new (drawsFrom crossDraws))).

(** ** Lines through a cell *)

(** Counting from the cell [c] of a line, in both directions, the cells
    that pass the test [p]: the cell itself and the cells counted are three or
    more. *)
Definition lineOf3 (p : Z -> bool) (c : Z) : Prop :=
  exists a b, 0 <= a /\ 0 <= b /\ 2 <= a + b
              /\ (forall k, 1 <= k <= a -> p (c - k) = true)
              /\ (forall k, 1 <= k <= b -> p (c + k) = true).

(** ** The timers of a cascade *)

(** The timers that carry a cascade on: all but the one of the swap-back
    animation. *)
Definition isCascade (cb : Callback) : bool :=
  match cb with
  | CbSwapBack _ _ => false
  | _ => true
  end.

Definition cascadeTimers (s : Board) : list Timer :=
  filter (fun t => isCascade (callback t) = true) (timers s).

(** A processing board has one pending cascade timer, and an idle board
    has none. *)
Definition oneCascade (s : Board) : Prop :=
  length (cascadeTimers s) = if isProcessing s then 1%nat else 0%nat.
(** ** A board with a block of equal tiles

    The generator, fed these draws, builds the board

      0 0 1 3 4 5 1 2
      0 0 1 4 5 1 2 3
      1 1 2 1 3 4 5 1
      2 3 0 5 1 2 3 4
      3 4 5 1 2 3 4 5   (and three more rows of other types than 0)

    (a draw picks among the types that make no run of three, so that the
    draws of the cells (0,2), (1,2), (2,0) and (2,1) are 0 for type 1, and
    the draw of (2,2) is 1 for type 2).  Every later draw is 0. *)
Definition blockDraws : list Z :=
  [0; 0; 0; 3; 4; 5; 1; 2;  0; 0; 0; 4; 5; 1; 2; 3;
   0; 0; 1; 1; 3; 4; 5; 1;  2; 3; 0; 5; 1; 2; 3; 4;
   3; 4; 5; 1; 2; 3; 4; 5;  4; 5; 1; 2; 3; 4; 5; 1;
   5; 1; 2; 3; 4; 5; 1; 2;  1; 2; 3; 4; 5; 1; 2; 3].

(** The swap (2,2) <-> (2,3) on that board makes a row and a column of
    three 1s that share the cell (2,2).  After the destroy pass, the gravity
    step (the five spawned tiles are of type 0) and a frame of one second
    that finishes every animation, the board on which [checkCascade] will
    call [findMatches] is

      0 0 0 3 4 5 1 2
      0 0 0 4 5 1 2 3
      0 0 0 2 3 4 5 1
      2 3 0 5 1 2 3 4   (the other rows as before)

    with every tile at rest. *)
Definition blockBoard : Board :=
  snd (run [CallTrySwap (mkPos 2 2) (mkPos 2 3); TimerFires 0; TimerFires 0;
            CallUpdate 1000]
           (Board_new (drawsFrom blockDraws))).

(** * Proofs *)

(** ** The monad *)

Lemma bind_run {A B : Type} (m : M A) (k : A -> M B) (s : Board) :
  bind m k s = k (fst (m s)) (snd (m s)).
Proof. unfold bind. destruct (m s); reflexivity. Qed.

(** A loop whose body only reads the board is a fold, and leaves the board
    as it found it. *)
Lemma forM_reads {I A : Type} (g : Board -> I -> A -> A) (body : I -> A -> M A)
      (l : list I) :
  (forall i a s, body i a s = (g s i a, s)) ->
  forall a s, forM l body a s = (fold_left (fun a i => g s i a) l a, s).
Proof.
  intros Hbody. induction l as [|i l IH]; intros a s; simpl.
  - reflexivity.
  - unfold bind. rewrite Hbody. apply IH.
Qed.

(** An invariant of the loop state and the board is kept by a loop. *)
Lemma forM_invariant {I A : Type} (P : A -> Board -> Prop) (body : I -> A -> M A)
      (l : list I) :
  (forall i a s, i ∈ l -> P a s -> P (fst (body i a s)) (snd (body i a s))) ->
  forall a s, P a s -> P (fst (forM l body a s)) (snd (forM l body a s)).
Proof.
  induction l as [|i l IH]; intros Hbody a s HP; simpl.
  - exact HP.
  - rewrite bind_run. apply IH.
    + intros j b t Hj. apply Hbody. by apply list_elem_of_further.
    + apply Hbody; [apply list_elem_of_here | exact HP].
Qed.

Lemma forM__invariant {I : Type} (P : Board -> Prop) (body : I -> M unit)
      (l : list I) :
  (forall i s, i ∈ l -> P s -> P (snd (body i s))) ->
  forall s, P s -> P (snd (forM_ l body s)).
Proof.
  intros Hbody s HP. unfold forM_.
  apply (forM_invariant (fun _ => P) (fun i _ => body i) l); auto.
Qed.

(** ** Arrays *)

Lemma arraySet_lookup {A : Type} (d : A) (l : list A) (i j : nat) (x : A) :
  default d (arraySet d l i x !! j) = if decide (j = i) then x else default d (l !! j).
Proof.
  unfold arraySet. destruct (decide (i < length l)%nat) as [Hi|Hi].
  - destruct (decide (j = i)) as [->|Hne].
    + by rewrite list_lookup_insert_eq.
    + by rewrite list_lookup_insert_ne.
  - destruct (decide (j < length l)%nat) as [Hj|Hj].
    + rewrite lookup_app_l by done.
      destruct (decide (j = i)); [lia | done].
    + rewrite lookup_app_r by lia.
      rewrite (lookup_ge_None_2 l j) by lia. simpl.
      destruct (decide (j - length l < i - length l)%nat) as [Hlt|Hge].
      * rewrite lookup_app_l by (rewrite length_replicate; lia).
        rewrite lookup_replicate_2 by lia.
        destruct (decide (j = i)); [lia | done].
      * rewrite lookup_app_r by (rewrite length_replicate; lia).
        rewrite length_replicate.
        destruct (decide (j = i)) as [->|Hne].
        -- replace (i - length l - (i - length l))%nat with 0%nat by lia. done.
        -- destruct (j - length l - (i - length l))%nat eqn:E; [lia | done].
Qed.

Lemma update2_length {A : Type} (d : A) (g : list (list A)) (r c : Z) (v : A) :
  length (update2 d g r c v) = length g.
Proof.
  unfold update2. destruct ((r <? 0) || (c <? 0)); [done|].
  destruct (g !! Z.to_nat r); [|done]. by rewrite length_insert.
Qed.

Lemma lookup2_update2 {A : Type} (d : A) (g : list (list A)) (r c : Z) (v : A)
      (r' c' : Z) :
  0 <= r -> 0 <= c -> (Z.to_nat r < length g)%nat ->
  lookup2 d (update2 d g r c v) r' c'
  = if decide (r' = r /\ c' = c) then v else lookup2 d g r' c'.
Proof.
  intros Hr Hc Hlen. unfold lookup2, update2.
  replace ((r <? 0) || (c <? 0)) with false
    by (symmetry; apply orb_false_iff; split; apply Z.ltb_ge; lia).
  destruct (lookup_lt_is_Some_2 g (Z.to_nat r) Hlen) as [cells Hcells].
  rewrite Hcells.
  destruct ((r' <? 0) || (c' <? 0)) eqn:Hneg.
  - destruct (decide _) as [[-> ->]|]; [|done].
    apply orb_true_iff in Hneg as [H|H]; apply Z.ltb_lt in H; lia.
  - apply orb_false_iff in Hneg as [Hr' Hc'].
    apply Z.ltb_ge in Hr', Hc'.
    destruct (decide (r' = r)) as [->|Hne].
    + rewrite list_lookup_insert_eq by done. rewrite Hcells.
      rewrite arraySet_lookup.
      destruct (decide (Z.to_nat c' = Z.to_nat c)) as [Heq|Hneq].
      * assert (c' = c) as -> by lia. by rewrite decide_True.
      * rewrite decide_False by (intros [_ ->]; done). done.
    + rewrite list_lookup_insert_ne by lia.
      rewrite decide_False by (intros [-> _]; done). done.
Qed.

Lemma lookup2_update2_same {A : Type} (d : A) (g : list (list A)) (r c : Z) (v : A) :
  0 <= r -> 0 <= c -> (Z.to_nat r < length g)%nat ->
  lookup2 d (update2 d g r c v) r c = v.
Proof. intros. rewrite lookup2_update2 by done. by rewrite decide_True. Qed.

Lemma lookup2_update2_other {A : Type} (d : A) (g : list (list A)) (r c : Z) (v : A)
      (r' c' : Z) :
  (r', c') <> (r, c) ->
  lookup2 d (update2 d g r c v) r' c' = lookup2 d g r' c'.
Proof.
  intros Hne.
  destruct (decide (0 <= r /\ 0 <= c /\ (Z.to_nat r < length g)%nat)) as [(?&?&?)|Hout].
  - rewrite lookup2_update2 by done.
    rewrite decide_False; [done|]. intros [-> ->]. done.
  - unfold update2. destruct ((r <? 0) || (c <? 0)) eqn:Hneg; [done|].
    apply orb_false_iff in Hneg as [Hr Hc]. apply Z.ltb_ge in Hr, Hc.
    rewrite (lookup_ge_None_2 g (Z.to_nat r)) by lia. done.
Qed.

Lemma filter_ext_elem {A : Type} (P1 P2 : A -> Prop)
      `{!forall x, Decision (P1 x), !forall x, Decision (P2 x)} (l : list A) :
  (forall x, x ∈ l -> P1 x <-> P2 x) -> filter P1 l = filter P2 l.
Proof.
  induction l as [|a l IH]; intros Hiff; [done|].
  assert (filter P1 l = filter P2 l) as Hl
    by (apply IH; intros x Hx; apply Hiff; by apply list_elem_of_further).
  destruct (decide (P1 a)) as [Ha|Ha].
  - rewrite !filter_cons_True; [by rewrite Hl | | done].
    by apply (Hiff a (list_elem_of_here _ _)).
  - rewrite !filter_cons_False; [done | | done].
    intros Hb. by apply Ha, (Hiff a (list_elem_of_here _ _)).
Qed.

Lemma filter_none {A : Type} (P : A -> Prop) `{!forall x, Decision (P x)} (l : list A) :
  (forall x, x ∈ l -> ~ P x) -> filter P l = [].
Proof.
  induction l as [|a l IH]; intros Hnone; [done|].
  rewrite filter_cons_False by (apply Hnone, list_elem_of_here).
  apply IH. intros x Hx. apply Hnone. by apply list_elem_of_further.
Qed.

Lemma filter_map_comm {A B : Type} (f : A -> B) (P : B -> Prop)
      `{!forall x, Decision (P x)} (l : list A) :
  filter P (map f l) = map f (filter (fun x => P (f x)) l).
Proof.
  induction l as [|a l IH]; [done|]. simpl.
  destruct (decide (P (f a))) as [Ha|Ha].
  - rewrite !filter_cons_True by done. simpl. by rewrite IH.
  - rewrite !filter_cons_False by done. done.
Qed.

Lemma filter_flat_map_none {A B : Type} (f : A -> list B) (P : B -> Prop)
      `{!forall x, Decision (P x)} (l : list A) :
  (forall a, a ∈ l -> forall b, b ∈ f a -> ~ P b) -> filter P (flat_map f l) = [].
Proof.
  intros Hnone. apply filter_none. intros b Hb%list_elem_of_In%in_flat_map.
  destruct Hb as (a & Ha%list_elem_of_In & Hb%list_elem_of_In). by apply (Hnone a).
Qed.

Lemma bind_gets {A B : Type} (f : Board -> A) (k : A -> M B) (s : Board) :
  bind (gets f) k s = k (f s) s.
Proof. reflexivity. Qed.

Lemma bind_modify {B : Type} (f : Board -> Board) (k : unit -> M B) (s : Board) :
  bind (modify f) k s = k tt (f s).
Proof. reflexivity. Qed.

Lemma bind_ret {A B : Type} (a : A) (k : A -> M B) (s : Board) :
  bind (ret a) k s = k a s.
Proof. reflexivity. Qed.

Lemma omap_ext_elem {A B : Type} (f g : A -> option B) (l : list A) :
  (forall x, x ∈ l -> f x = g x) -> omap f l = omap g l.
Proof.
  induction l as [|a l IH]; intros Hext; [done|].
  assert (omap f l = omap g l) as Hl
    by (apply IH; intros x Hx; apply Hext; by apply list_elem_of_further).
  simpl. rewrite (Hext a (list_elem_of_here _ _)).
  destruct (g a); [by f_equal | done].
Qed.

(** ** The run-length scan *)

Lemma seqZ_succ (c : Z) (n : nat) :
  seqZ c (Z.of_nat (S n)) = c :: seqZ (c + 1) (Z.of_nat n).
Proof.
  rewrite seqZ_cons by lia. f_equal. f_equal; lia.
Qed.

Lemma segsWithin_weaken (lo lo' hi : Z) (segs : list (Z * Z)) :
  lo' <= lo -> segsWithin lo hi segs -> segsWithin lo' hi segs.
Proof.
  destruct segs as [|seg rest]; simpl; [done|].
  intros Hle (H1 & H2 & H3 & H4). repeat split; [lia | done | done | done].
Qed.

Lemma scanRuns_within (link : Z -> bool) (n : nat) :
  forall c start len,
    start + len = c -> 1 <= len ->
    segsWithin start (c + Z.of_nat n - 1)
               (scanRuns link (seqZ c (Z.of_nat n)) start len).
Proof.
  induction n as [|n IH]; intros c start len Hc Hlen.
  - simpl. done.
  - rewrite seqZ_succ. simpl.
    replace (c + Z.of_nat (S n) - 1) with (c + 1 + Z.of_nat n - 1) by lia.
    destruct (link c).
    + apply IH; lia.
    + assert (segsWithin c (c + 1 + Z.of_nat n - 1)
                (scanRuns link (seqZ (c + 1) (Z.of_nat n)) c 1)) as Hrest
        by (apply IH; lia).
      destruct (MIN_MATCH_LENGTH <=? len) eqn:Hmin; simpl.
      * apply Z.leb_le in Hmin. repeat split; [lia | done | lia |].
        by rewrite Hc.
      * eapply segsWithin_weaken; [|exact Hrest]. lia.
Qed.

(** What the scan lists: exactly the maximal stretches of linked cells of
    at least [MIN_MATCH_LENGTH] cells that are closed inside the scanned
    indices. *)
Lemma scanRuns_elem (link : Z -> bool) (n : nat) :
  forall c start len st l,
    start + len = c -> 1 <= len ->
    (forall i, start < i < c -> link i = true) ->
    (st, l) ∈ scanRuns link (seqZ c (Z.of_nat n)) start len
    <->
    MIN_MATCH_LENGTH <= l /\ st + l <= c + Z.of_nat n - 1 /\
    link (st + l) = false /\
    (forall i, st < i < st + l -> link i = true) /\
    (st = start \/ (c <= st /\ link st = false)).
Proof.
  unfold MIN_MATCH_LENGTH.
  induction n as [|n IH]; intros c start len st l Hc Hlen Hin.
  - simpl. split; [by intros ?%elem_of_nil|].
    intros (Hl & Hend & Hstop & Hinner & [->|[Hst _]]); [|lia].
    rewrite Hin in Hstop by lia. done.
  - rewrite seqZ_succ. simpl. unfold MIN_MATCH_LENGTH.
    replace (c + Z.of_nat (S n) - 1) with (c + 1 + Z.of_nat n - 1) by lia.
    destruct (link c) eqn:Hlink.
    + rewrite (IH (c + 1) start (len + 1) st l) by
        (first [lia | intros i Hi; destruct (decide (i = c)) as [->|]; [done | apply Hin; lia]]).
      split; intros (Hl & Hend & Hstop & Hinner & Hst); repeat split; try done.
      * destruct Hst as [->|[? ?]]; [by left | right; split; [lia | done]].
      * destruct Hst as [->|[? Hf]]; [by left | right].
        split; [|done]. destruct (decide (st = c)) as [->|]; [congruence | lia].
    + rewrite elem_of_app.
      rewrite (IH (c + 1) c 1 st l) by (first [lia | intros i Hi; lia]).
      split.
      * intros [Hhere|(Hl & Hend & Hstop & Hinner & Hst)].
        -- destruct (3 <=? len) eqn:Hmin; [|by apply elem_of_nil in Hhere].
           apply Z.leb_le in Hmin. apply list_elem_of_singleton in Hhere.
           injection Hhere as -> ->.
           repeat split; [done | lia | by rewrite Hc | | by left].
           intros i Hi. apply Hin. lia.
        -- repeat split; try done.
           destruct Hst as [->|[? ?]]; right; [done | split; [lia | done]].
      * intros (Hl & Hend & Hstop & Hinner & Hst).
        destruct Hst as [->|[Hge Hf]].
        -- left.
           assert (start + l = c) as Hlc.
           { destruct (decide (start + l < c)) as [Hlt|Hnlt].
             - rewrite Hin in Hstop by lia. done.
             - destruct (decide (c < start + l)) as [Hgt|]; [|lia].
               rewrite Hinner in Hlink by lia. done. }
           assert (l = len) as -> by lia.
           replace (3 <=? len) with true by (symmetry; apply Z.leb_le; lia).
           apply list_elem_of_here.
        -- right. repeat split; try done.
           destruct (decide (st = c)) as [->|]; [by left | right; split; [lia | done]].
Qed.

(** When the scan lists nothing, no cell of the line is linked to both its
    neighbours. *)
Lemma scanRuns_nil (link : Z -> bool) (n : nat) :
  forall c start len,
    1 <= len ->
    scanRuns link (seqZ c (Z.of_nat (S n))) start len = [] ->
    link (c + Z.of_nat n) = false ->
    len < MIN_MATCH_LENGTH /\
    (len = 2 -> link c = false) /\
    (forall i, c <= i -> i + 1 <= c + Z.of_nat n ->
               link i = true -> link (i + 1) = true -> False).
Proof.
  unfold MIN_MATCH_LENGTH.
  induction n as [|n IH]; intros c start len Hlen Hnil Hlast.
  - rewrite seqZ_succ in Hnil. simpl in Hnil. unfold MIN_MATCH_LENGTH in Hnil.
    replace (c + Z.of_nat 0) with c in Hlast by lia. rewrite Hlast in Hnil.
    destruct (3 <=? len) eqn:Hmin; [done|]. apply Z.leb_gt in Hmin.
    split; [done | split; [done |]]. intros i ? ?. lia.
  - rewrite seqZ_succ in Hnil. simpl in Hnil. unfold MIN_MATCH_LENGTH in Hnil.
    replace (c + Z.of_nat (S n)) with (c + 1 + Z.of_nat n) in * by lia.
    destruct (link c) eqn:Hlink.
    + destruct (IH (c + 1) start (len + 1)) as (H1 & H2 & H3); [lia | done | done |].
      unfold MIN_MATCH_LENGTH in H1.
      assert (len = 1) as -> by lia.
      split; [lia | split; [intros ?; lia |]].
      intros i Hi1 Hi2 Ha Hb. destruct (decide (i = c)) as [->|].
      * rewrite H2 in Hb by done. done.
      * apply (H3 i); [lia | lia | done | done].
    + apply app_eq_nil in Hnil as [Hfl Hrest].
      destruct (IH (c + 1) c 1) as (H1 & H2 & H3); [lia | done | done |].
      destruct (3 <=? len) eqn:Hmin; [done|]. apply Z.leb_gt in Hmin.
      split; [done | split; [done |]].
      intros i Hi1 Hi2 Ha Hb. destruct (decide (i = c)) as [->|].
      * congruence.
      * apply (H3 i); [lia | lia | done | done].
Qed.

(** ** The detection pass is its functional reading *)

Lemma scan_fold (link : Z -> bool) (close : Scan -> list Match * list (list bool)) :
  (forall st, sc_matchLength st < MIN_MATCH_LENGTH ->
              close st = (sc_matches st, sc_matched st)) ->
  forall idx st,
    let st' :=
      fold_left (fun st i =>
                   if link i
                   then mkScan (sc_matches st) (sc_matched st) (sc_matchStart st)
                               (sc_matchLength st + 1)
                   else let '(m, md) := close st in mkScan m md i 1) idx st in
    (sc_matches st', sc_matched st')
    = fold_left (fun acc seg => close (mkScan (fst acc) (snd acc) (fst seg) (snd seg)))
                (scanRuns link idx (sc_matchStart st) (sc_matchLength st))
                (sc_matches st, sc_matched st).
Proof.
  intros Hsmall. induction idx as [|i idx IH]; intros [m md start len]; simpl.
  - reflexivity.
  - destruct (link i).
    + apply (IH (mkScan m md start (len + 1))).
    + destruct (close (mkScan m md start len)) as [m' md'] eqn:Hclose.
      rewrite (IH (mkScan m' md' i 1)). simpl.
      rewrite fold_left_app. f_equal.
      destruct (MIN_MATCH_LENGTH <=? len) eqn:Hmin; simpl.
      * by rewrite Hclose.
      * apply Z.leb_gt in Hmin. rewrite Hsmall in Hclose by done.
        simpl in Hclose. by injection Hclose as <- <-.
Qed.

Lemma horizontalStep_run (r c : Z) (st : Scan) (s : Board) :
  horizontalStep r c st s
  = ((if hlink s r c
      then mkScan (sc_matches st) (sc_matched st) (sc_matchStart st) (sc_matchLength st + 1)
      else let '(m, md) := closeHorizontal r st in mkScan m md c 1), s).
Proof.
  unfold horizontalStep, bind, gets, ret, hlink. simpl.
  destruct (tilesLink _ _ s); [reflexivity|].
  destruct (closeHorizontal r st); reflexivity.
Qed.

Lemma verticalStep_run (c r : Z) (st : Scan) (s : Board) :
  verticalStep c r st s
  = ((if vlink s c r
      then mkScan (sc_matches st) (sc_matched st) (sc_matchStart st) (sc_matchLength st + 1)
      else let '(m, md) := closeVertical c st in mkScan m md r 1), s).
Proof.
  unfold verticalStep, bind, gets, ret, vlink. simpl.
  destruct (tilesLink _ _ s); [reflexivity|].
  destruct (closeVertical c st); reflexivity.
Qed.

Lemma closeHorizontal_small (r : Z) (st : Scan) :
  sc_matchLength st < MIN_MATCH_LENGTH ->
  closeHorizontal r st = (sc_matches st, sc_matched st).
Proof.
  intros H. unfold closeHorizontal.
  by replace (MIN_MATCH_LENGTH <=? sc_matchLength st) with false
    by (symmetry; apply Z.leb_gt; lia).
Qed.

Lemma closeVertical_small (c : Z) (st : Scan) :
  sc_matchLength st < MIN_MATCH_LENGTH ->
  closeVertical c st = (sc_matches st, sc_matched st).
Proof.
  intros H. unfold closeVertical.
  by replace (MIN_MATCH_LENGTH <=? sc_matchLength st) with false
    by (symmetry; apply Z.leb_gt; lia).
Qed.

(** The inner loop of a row, and of a column, closes the runs that
    [scanRuns] lists, in order. *)
Lemma horizontal_row_run (r : Z) (m : list Match) (md : list (list bool)) (s : Board) :
  exists st,
    forM (seqZ 1 BOARD_COLS) (horizontalStep r) (mkScan m md 0 1) s = (st, s)
    /\ (sc_matches st, sc_matched st) = fold_left (closeH r) (hRunsOf s r) (m, md).
Proof.
  eexists. split.
  - apply (forM_reads _ _ _ (horizontalStep_run r)).
  - unfold hRunsOf, closeH.
    exact (scan_fold (hlink s r) (closeHorizontal r) (closeHorizontal_small r)
                     (seqZ 1 BOARD_COLS) (mkScan m md 0 1)).
Qed.

Lemma vertical_column_run (c : Z) (m : list Match) (md : list (list bool)) (s : Board) :
  exists st,
    forM (seqZ 1 BOARD_ROWS) (verticalStep c) (mkScan m md 0 1) s = (st, s)
    /\ (sc_matches st, sc_matched st) = fold_left (closeV c) (vRunsOf s c) (m, md).
Proof.
  eexists. split.
  - apply (forM_reads _ _ _ (verticalStep_run c)).
  - unfold vRunsOf, closeV.
    exact (scan_fold (vlink s c) (closeVertical c) (closeVertical_small c)
                     (seqZ 1 BOARD_ROWS) (mkScan m md 0 1)).
Qed.

(** *** Closing a horizontal run *)

Lemma closeHorizontal_cells (r : Z) (l : list Z) :
  forall ts md,
    fold_left (fun '(ts, matched) i =>
                 (ts ++ [mkPos r i], update2 false matched r i true)) l (ts, md)
    = (ts ++ map (mkPos r) l, markRow r md l).
Proof.
  induction l as [|i l IH]; intros ts md; simpl.
  - by rewrite app_nil_r.
  - rewrite IH. by rewrite <- app_assoc.
Qed.

Lemma closeH_run (r : Z) (acc : list Match * list (list bool)) (seg : Z * Z) :
  MIN_MATCH_LENGTH <= snd seg ->
  closeH r acc seg
  = (fst acc ++ [hMatchOf r seg], markRow r (snd acc) (seqZ (fst seg) (snd seg))).
Proof.
  intros Hmin. unfold closeH, closeHorizontal. simpl.
  replace (MIN_MATCH_LENGTH <=? snd seg) with true by (symmetry; by apply Z.leb_le).
  rewrite closeHorizontal_cells. reflexivity.
Qed.

Lemma markRow_length (r : Z) (l : list Z) :
  forall md, length (markRow r md l) = length md.
Proof.
  induction l as [|i l IH]; intros md; simpl; [done|].
  unfold markRow in *. simpl. rewrite IH. apply update2_length.
Qed.

Lemma markRow_lookup (r : Z) (l : list Z) :
  forall md i j,
    0 <= r -> (Z.to_nat r < length md)%nat -> (forall k, k ∈ l -> 0 <= k) ->
    lookup2 false (markRow r md l) i j = true
    <-> lookup2 false md i j = true \/ (i = r /\ j ∈ l).
Proof.
  induction l as [|k l IH]; intros md i j Hr Hlen Hl.
  - simpl. split; [by left|]. intros [?|[_ ?%elem_of_nil]]; done.
  - unfold markRow in *. simpl.
    rewrite IH; [| done | by rewrite update2_length
                 | intros; apply Hl; by apply list_elem_of_further].
    rewrite lookup2_update2; [| done | apply Hl, list_elem_of_here | done].
    rewrite elem_of_cons.
    destruct (decide (i = r /\ j = k)) as [[-> ->]|Hne]; [|tauto].
    split; intros _; [right; split; [done | by left] | by left].
Qed.

Lemma elem_of_hMatchOf (r : Z) (seg : Z * Z) (i j : Z) :
  mkPos i j ∈ tiles (hMatchOf r seg) <-> i = r /\ fst seg <= j < fst seg + snd seg.
Proof.
  unfold hMatchOf, hCells. simpl. rewrite list_elem_of_fmap.
  setoid_rewrite elem_of_seqZ. split.
  - intros (k & Heq & Hk). injection Heq as -> ->. done.
  - intros [-> Hj]. by exists j.
Qed.

Lemma hrow_spec (r : Z) :
  0 <= r < BOARD_ROWS ->
  forall segs b acc,
    segsWithin b BOARD_COLS segs -> 0 <= b ->
    length (snd acc) = Z.to_nat BOARD_ROWS ->
    let res := fold_left (closeH r) segs acc in
    fst res = fst acc ++ map (hMatchOf r) segs
    /\ length (snd res) = Z.to_nat BOARD_ROWS
    /\ (forall i j,
          lookup2 false (snd res) i j = true
          <-> lookup2 false (snd acc) i j = true
              \/ Exists (fun m => mkPos i j ∈ tiles m) (map (hMatchOf r) segs)).
Proof.
  intros Hr. induction segs as [|seg segs IH]; intros b acc Hw Hb Hlen; simpl.
  - split; [by rewrite app_nil_r|]. split; [done|].
    intros i j. rewrite Exists_nil. tauto.
  - destruct Hw as (Hlo & Hmin & Hhi & Hrest).
    rewrite closeH_run by done.
    destruct (IH (fst seg + snd seg)
                 (fst acc ++ [hMatchOf r seg],
                  markRow r (snd acc) (seqZ (fst seg) (snd seg))))
      as (IH1 & IH2 & IH3); [done | unfold MIN_MATCH_LENGTH in *; lia
                             | simpl; by rewrite markRow_length |].
    simpl in IH1, IH2, IH3.
    split; [by rewrite IH1, <- app_assoc|]. split; [done|].
    intros i j. rewrite IH3, Exists_cons, elem_of_hMatchOf.
    rewrite markRow_lookup;
      [| lia | rewrite Hlen; unfold BOARD_ROWS in *; lia
       | intros k Hk%elem_of_seqZ; lia].
    rewrite elem_of_seqZ. tauto.
Qed.

Lemma hRunsOf_within (s : Board) (r : Z) : segsWithin 0 BOARD_COLS (hRunsOf s r).
Proof. apply (scanRuns_within (hlink s r) 8 1 0 1); lia. Qed.

Lemma vRunsOf_within (s : Board) (c : Z) : segsWithin 0 BOARD_ROWS (vRunsOf s c).
Proof. apply (scanRuns_within (vlink s c) 8 1 0 1); lia. Qed.

Lemma hpass_spec (s : Board) :
  forall rs acc,
    (forall r, r ∈ rs -> 0 <= r < BOARD_ROWS) ->
    length (snd acc) = Z.to_nat BOARD_ROWS ->
    let res := fold_left (fun acc r => fold_left (closeH r) (hRunsOf s r) acc) rs acc in
    fst res = fst acc ++ flat_map (fun r => map (hMatchOf r) (hRunsOf s r)) rs
    /\ length (snd res) = Z.to_nat BOARD_ROWS
    /\ (forall i j,
          lookup2 false (snd res) i j = true
          <-> lookup2 false (snd acc) i j = true
              \/ Exists (fun m => mkPos i j ∈ tiles m)
                        (flat_map (fun r => map (hMatchOf r) (hRunsOf s r)) rs)).
Proof.
  induction rs as [|r rs IH]; intros acc Hrs Hlen; simpl.
  - split; [by rewrite app_nil_r|]. split; [done|].
    intros i j. rewrite Exists_nil. tauto.
  - destruct (hrow_spec r (Hrs r (list_elem_of_here _ _))
                        (hRunsOf s r) 0 acc (hRunsOf_within s r) (Z.le_refl 0) Hlen)
      as (H1 & H2 & H3).
    destruct (IH (fold_left (closeH r) (hRunsOf s r) acc)) as (IH1 & IH2 & IH3);
      [intros; apply Hrs; by apply list_elem_of_further | done |].
    split; [by rewrite IH1, H1, <- app_assoc|]. split; [done|].
    intros i j. rewrite IH3, H3, Exists_app. tauto.
Qed.

Lemma lookup2_replicate (n m : nat) (i j : Z) :
  lookup2 false (replicate n (replicate m false)) i j = false.
Proof.
  unfold lookup2. destruct ((i <? 0) || (j <? 0)); [done|].
  destruct (replicate n (replicate m false) !! Z.to_nat i) as [cells|] eqn:Hc; [|done].
  apply lookup_replicate in Hc as [-> _].
  destruct (replicate m false !! Z.to_nat j) as [b|] eqn:Hb; [|done].
  by apply lookup_replicate in Hb as [-> _].
Qed.

(** *** Closing a vertical run *)

Lemma closeVertical_cells (c : Z) (l : list Z) :
  forall ts md,
    NoDup l -> 0 <= c ->
    (forall i, i ∈ l -> 0 <= i /\ (Z.to_nat i < length md)%nat) ->
    let res :=
      fold_left (fun '(ts, matched) i =>
                   if negb (lookup2 false matched i c)
                   then (ts ++ [mkPos i c], update2 false matched i c true)
                   else (ts, matched)) l (ts, md) in
    fst res = ts ++ map (fun i => mkPos i c)
                        (filter (fun i => lookup2 false md i c = false) l)
    /\ length (snd res) = length md
    /\ (forall i j, j <> c \/ i ∉ l ->
                    lookup2 false (snd res) i j = lookup2 false md i j).
Proof.
  induction l as [|k l IH]; intros ts md Hnd Hc Hl; simpl.
  - split; [by rewrite app_nil_r|]. done.
  - apply NoDup_cons in Hnd as [Hk Hnd].
    assert (forall md' : list (list bool), length md' = length md ->
              forall i, i ∈ l -> 0 <= i /\ (Z.to_nat i < length md')%nat) as Hl'.
    { intros md' -> i Hi. apply Hl. by apply list_elem_of_further. }
    destruct (lookup2 false md k c) eqn:Hlk; simpl.
    + destruct (IH ts md Hnd Hc (Hl' md eq_refl)) as (IH1 & IH2 & IH3).
      rewrite filter_cons_False by (rewrite Hlk; done).
      split; [done|]. split; [done|].
      intros i j Hij. apply IH3. rewrite not_elem_of_cons in Hij. tauto.
    + destruct (IH (ts ++ [mkPos k c]) (update2 false md k c true) Hnd Hc
                   (Hl' _ (update2_length _ _ _ _ _))) as (IH1 & IH2 & IH3).
      rewrite filter_cons_True by done.
      split.
      * rewrite IH1, <- app_assoc. simpl. do 3 f_equal.
        apply filter_ext_elem. intros i Hi.
        rewrite lookup2_update2_other; [done|]. intros [= ->]. done.
      * split; [by rewrite IH2, update2_length|].
        intros i j Hij. rewrite IH3 by (rewrite not_elem_of_cons in Hij; tauto).
        apply lookup2_update2_other. intros [= -> ->].
        destruct Hij as [?|Hn]; [done|]. apply Hn, list_elem_of_here.
Qed.

Lemma vcolumn_spec (s : Board) (c : Z) :
  0 <= c ->
  forall segs b acc,
    segsWithin b BOARD_ROWS segs -> 0 <= b ->
    length (snd acc) = Z.to_nat BOARD_ROWS ->
    (forall i j, c < j \/ (j = c /\ b <= i) ->
                 lookup2 false (snd acc) i j = inHorizontal s (mkPos i j)) ->
    let res := fold_left (closeV c) segs acc in
    fst res = fst acc ++ omap (vMatchOf s c) segs
    /\ length (snd res) = Z.to_nat BOARD_ROWS
    /\ (forall i j, c < j ->
                    lookup2 false (snd res) i j = inHorizontal s (mkPos i j)).
Proof.
  intros Hc. induction segs as [|seg segs IH]; intros b acc Hw Hb Hlen Hagree.
  - simpl. split; [by rewrite app_nil_r|]. split; [done|].
    intros i j Hj. apply Hagree. by left.
  - destruct Hw as (Hlo & Hmin & Hhi & Hrest).
    assert (let acc' := closeV c acc seg in
            fst acc' = fst acc ++ omap (vMatchOf s c) [seg]
            /\ length (snd acc') = Z.to_nat BOARD_ROWS
            /\ (forall i j, c < j \/ (j = c /\ fst seg + snd seg <= i) ->
                  lookup2 false (snd acc') i j = inHorizontal s (mkPos i j)))
      as (A1 & A2 & A3).
    { unfold closeV, closeVertical. simpl sc_matchLength. simpl sc_matchStart.
      simpl sc_matches. simpl sc_matched.
      replace (MIN_MATCH_LENGTH <=? snd seg) with true by (symmetry; by apply Z.leb_le).
      destruct (closeVertical_cells c (seqZ (fst seg) (snd seg)) [] (snd acc)
                  (NoDup_seqZ _ _) Hc) as (C1 & C2 & C3).
      { intros i Hi%elem_of_seqZ. rewrite Hlen. unfold BOARD_ROWS in *. lia. }
      destruct (fold_left _ (seqZ (fst seg) (snd seg)) ([], snd acc)) as [ts md'].
      simpl in C1, C2, C3.
      assert (ts = vFresh s c seg) as ->.
      { rewrite C1. unfold vFresh. f_equal. apply filter_ext_elem.
        intros i Hi%elem_of_seqZ. rewrite Hagree; [done|]. right. lia. }
      assert (forall i j, c < j \/ (j = c /\ fst seg + snd seg <= i) ->
                lookup2 false md' i j = inHorizontal s (mkPos i j)) as Hagree'.
      { intros i j Hij. rewrite C3.
        - apply Hagree. destruct Hij as [?|[-> ?]]; [by left | right].
          unfold MIN_MATCH_LENGTH in *. lia.
        - destruct Hij as [?|[-> ?]]; [left; lia | right].
          rewrite elem_of_seqZ. lia. }
      change (omap (vMatchOf s c) [seg])
        with (match vMatchOf s c seg with Some y => [y] | None => [] end).
      unfold vMatchOf.
      destruct (vFresh s c seg) as [|p ps] eqn:Hfresh; simpl.
      - rewrite app_nil_r. by rewrite C2.
      - by rewrite C2. }
    simpl fold_left.
    destruct (IH (fst seg + snd seg) (closeV c acc seg)) as (IH1 & IH2 & IH3);
      [done | unfold MIN_MATCH_LENGTH in *; lia | done | done |].
    split; [|done].
    rewrite IH1, A1, <- app_assoc. f_equal. simpl.
    destruct (vMatchOf s c seg); reflexivity.
Qed.

Lemma vpass_spec (s : Board) (n : nat) :
  forall lo acc,
    0 <= lo ->
    length (snd acc) = Z.to_nat BOARD_ROWS ->
    (forall i j, lo <= j -> lookup2 false (snd acc) i j = inHorizontal s (mkPos i j)) ->
    fst (fold_left (fun acc c => fold_left (closeV c) (vRunsOf s c) acc)
                   (seqZ lo (Z.of_nat n)) acc)
    = fst acc ++ flat_map (fun c => omap (vMatchOf s c) (vRunsOf s c))
                          (seqZ lo (Z.of_nat n)).
Proof.
  induction n as [|n IH]; intros lo acc Hlo Hlen Hagree.
  - simpl. by rewrite app_nil_r.
  - rewrite seqZ_succ. simpl.
    destruct (vcolumn_spec s lo Hlo (vRunsOf s lo) 0 acc (vRunsOf_within s lo)
                (Z.le_refl 0) Hlen) as (V1 & V2 & V3).
    { intros i j Hj. apply Hagree. lia. }
    rewrite IH; [| lia | done | intros i j Hj; apply V3; lia].
    by rewrite V1, <- app_assoc.
Qed.

(** The board is only read, and the matches are those of [matchesOf]. *)
Lemma findMatches_spec (s : Board) : findMatches s = (matchesOf s, s).
Proof.
  unfold findMatches. cbv zeta.
  set (hbody := fun (s : Board) (r : Z) (acc : list Match * list (list bool)) =>
                  fold_left (closeH r) (hRunsOf s r) acc).
  set (vbody := fun (s : Board) (c : Z) (acc : list Match * list (list bool)) =>
                  fold_left (closeV c) (vRunsOf s c) acc).
  rewrite bind_run.
  rewrite (forM_reads hbody).
  2:{ intros r [m md] t. rewrite bind_run.
      destruct (horizontal_row_run r m md t) as (st & -> & Hrow). cbn [fst snd].
      unfold ret. f_equal. exact Hrow. }
  cbn [fst snd].
  destruct (fold_left (fun a i => hbody s i a) (seqZ 0 BOARD_ROWS) _) as [mH mdH] eqn:HH.
  cbn [fst snd]. cbv beta iota. rewrite bind_run.
  rewrite (forM_reads vbody).
  2:{ intros c [m md] t. rewrite bind_run.
      destruct (vertical_column_run c m md t) as (st & -> & Hcol). cbn [fst snd].
      unfold ret. f_equal. exact Hcol. }
  cbn [fst snd].
  destruct (fold_left (fun a i => vbody s i a) (seqZ 0 BOARD_COLS) (mH, mdH))
    as [mV mdV] eqn:HV.
  cbn [fst snd]. cbv beta iota. unfold ret. f_equal.
  destruct (hpass_spec s (seqZ 0 BOARD_ROWS)
              ([], replicate (Z.to_nat BOARD_ROWS) (replicate (Z.to_nat BOARD_COLS) false)))
    as (H1 & H2 & H3).
  { intros r Hr%elem_of_seqZ. lia. }
  { reflexivity. }
  unfold hbody in HH. rewrite HH in H1, H2, H3. simpl in H1, H2, H3.
  assert (forall i j, lookup2 false mdH i j = inHorizontal s (mkPos i j)) as Hagree.
  { intros i j. apply Bool.eq_iff_eq_true. rewrite H3.
    rewrite (lookup2_replicate 8 8). unfold inHorizontal.
    rewrite bool_decide_eq_true. unfold hMatches. split; [|by right].
    intros [?|?]; done. }
  pose proof (vpass_spec s 8 0 (mH, mdH) (Z.le_refl 0) H2) as HVs.
  unfold vbody in HV. change (seqZ 0 (Z.of_nat 8)) with (seqZ 0 BOARD_COLS) in HVs.
  rewrite HV in HVs. simpl in HVs.
  rewrite HVs by (intros; apply Hagree).
  unfold matchesOf, vMatches, hMatches. by rewrite H1.
Qed.

Lemma findMatches_fst (s : Board) : fst (findMatches s) = matchesOf s.
Proof. by rewrite findMatches_spec. Qed.

Lemma findMatches_snd (s : Board) : snd (findMatches s) = s.
Proof. by rewrite findMatches_spec. Qed.

(** ** Runs and the scan *)

Lemma restingType_bounds (s : Board) (r c : Z) (ty : TileType) :
  restingType s r c = Some ty -> 0 <= r < BOARD_ROWS /\ 0 <= c < BOARD_COLS.
Proof.
  unfold restingType, getTile. intros H.
  destruct ((r <? 0) || (r >=? BOARD_ROWS) || (c <? 0) || (c >=? BOARD_COLS)) eqn:Hb;
    [done|].
  repeat (apply orb_false_iff in Hb as [Hb ?]). lia.
Qed.

Lemma tilesLink_resting (s : Board) (r c r' c' : Z) :
  tilesLink (getTile r c s) (getTile r' c' s) s = true
  <-> exists ty, restingType s r c = Some ty /\ restingType s r' c' = Some ty.
Proof.
  unfold tilesLink, restingType.
  destruct (getTile r c s) as [cur|]; [|split; [done | by intros (? & ? & ?)]].
  destruct (getTile r' c' s) as [prev|]; [|split; [done | by intros (? & ? & ?)]].
  destruct (isAnimating (tileAt cur s)), (isAnimating (tileAt prev s)); simpl;
    rewrite ?andb_false_r, ?andb_true_r;
    try (split; [done | by intros (? & ? & ?)]).
  rewrite Z.eqb_eq. split.
  - intros ->. by eexists.
  - intros (ty & [= ->] & [= ->]). done.
Qed.

Lemma hlink_resting (s : Board) (r c : Z) :
  hlink s r c = true
  <-> exists ty, restingType s r c = Some ty /\ restingType s r (c - 1) = Some ty.
Proof. apply tilesLink_resting. Qed.

Lemma vlink_resting (s : Board) (c r : Z) :
  vlink s c r = true
  <-> exists ty, restingType s r c = Some ty /\ restingType s (r - 1) c = Some ty.
Proof. apply tilesLink_resting. Qed.

(** A line of cells read through [cell]; [link i] says that cells [i - 1]
    and [i] hold the same resting type. *)
Section Line.
Variable cell : Z -> option TileType.
Variable link : Z -> bool.
Hypothesis link_cell :
  forall i, link i = true <-> exists ty, cell i = Some ty /\ cell (i - 1) = Some ty.
Hypothesis cell_bounds : forall i ty, cell i = Some ty -> 0 <= i < 8.

Local Abbreviation lineRun c0 n :=
  (exists ty,
      (forall c, c0 <= c < c0 + n -> cell c = Some ty)
      /\ cell (c0 - 1) <> Some ty /\ cell (c0 + n) <> Some ty).

Lemma link_false (i : Z) (ty : TileType) :
  cell i = Some ty -> cell (i - 1) <> Some ty -> link i = false.
Proof.
  intros Hi Hp. apply not_true_is_false. intros (ty' & H1 & H2)%link_cell.
  congruence.
Qed.

Lemma link_false' (i : Z) (ty : TileType) :
  cell (i - 1) = Some ty -> cell i <> Some ty -> link i = false.
Proof.
  intros Hp Hi. apply not_true_is_false. intros (ty' & H1 & H2)%link_cell.
  congruence.
Qed.

Lemma lineRun_scanned (c0 n : Z) :
  MIN_MATCH_LENGTH <= n -> lineRun c0 n ->
  (c0, n) ∈ scanRuns link (seqZ 1 8) 0 1.
Proof.
  unfold MIN_MATCH_LENGTH. intros Hn (ty & Hcells & Hbefore & Hafter).
  pose proof (cell_bounds c0 ty (Hcells c0 ltac:(lia))) as Hb0.
  pose proof (cell_bounds (c0 + n - 1) ty (Hcells (c0 + n - 1) ltac:(lia))) as Hb1.
  apply (scanRuns_elem link 8 1 0 1 c0 n); [lia | lia | intros; lia |].
  unfold MIN_MATCH_LENGTH.
  split; [done|]. split; [lia|]. split; [|split].
  - apply (link_false' _ ty); [|done].
    replace (c0 + n - 1) with (c0 + n - 1) by lia. apply Hcells. lia.
  - intros i Hi. apply link_cell. exists ty. split; apply Hcells; lia.
  - destruct (decide (c0 = 0)) as [->|]; [by left | right].
    split; [lia|]. apply (link_false _ ty); [apply Hcells; lia | done].
Qed.

Lemma chain_type (ty : TileType) (c0 : Z) (k : nat) :
  cell c0 = Some ty ->
  (forall i, c0 < i <= c0 + Z.of_nat k -> link i = true) ->
  cell (c0 + Z.of_nat k) = Some ty.
Proof.
  intros H0. induction k as [|k IH]; intros Hlinks.
  - by replace (c0 + Z.of_nat 0) with c0 by lia.
  - destruct (proj1 (link_cell (c0 + Z.of_nat (S k))) (Hlinks (c0 + Z.of_nat (S k)) ltac:(lia)))
      as (ty' & H1 & H2).
    replace (c0 + Z.of_nat (S k) - 1) with (c0 + Z.of_nat k) in H2 by lia.
    rewrite IH in H2 by (intros; apply Hlinks; lia). congruence.
Qed.

Lemma scanned_lineRun (c0 n : Z) :
  (c0, n) ∈ scanRuns link (seqZ 1 8) 0 1 ->
  MIN_MATCH_LENGTH <= n /\ lineRun c0 n.
Proof.
  intros Hin.
  apply (scanRuns_elem link 8 1 0 1 c0 n) in Hin; [| lia | lia | intros; lia].
  unfold MIN_MATCH_LENGTH in *.
  destruct Hin as (Hn & Hhi & Hstop & Hinner & Hstart).
  split; [done|].
  destruct (proj1 (link_cell (c0 + 1)) (Hinner (c0 + 1) ltac:(lia))) as (ty & _ & H0).
  replace (c0 + 1 - 1) with c0 in H0 by lia.
  assert (forall c, c0 <= c < c0 + n -> cell c = Some ty) as Hcells.
  { intros c Hc. replace c with (c0 + Z.of_nat (Z.to_nat (c - c0))) by lia.
    apply chain_type; [done|]. intros i Hi. apply Hinner. lia. }
  exists ty. split; [done|]. split.
  - destruct Hstart as [->|[_ Hf]].
    + intros Hc. apply cell_bounds in Hc. lia.
    + intros Hc. assert (link c0 = true) as Ht; [|congruence].
      apply link_cell. by exists ty.
  - intros Hc. assert (link (c0 + n) = true) as Ht; [|congruence].
    apply link_cell. exists ty. split; [done|]. apply Hcells. lia.
Qed.

Lemma scanned_nil_no_triple (i : Z) (ty : TileType) :
  scanRuns link (seqZ 1 8) 0 1 = [] ->
  cell i = Some ty -> cell (i + 1) = Some ty -> cell (i + 2) = Some ty -> False.
Proof.
  intros Hnil H0 H1 H2.
  destruct (scanRuns_nil link 7 1 0 1) as (_ & _ & H3); [lia | done | |].
  - apply not_true_is_false. intros (ty' & Hc & _)%link_cell.
    apply cell_bounds in Hc. lia.
  - apply cell_bounds in H0 as Hb0. apply cell_bounds in H2 as Hb2.
    apply (H3 (i + 1)); [lia | lia | |]; apply link_cell; exists ty.
    + by replace (i + 1 - 1) with i by lia.
    + by replace (i + 1 + 1 - 1) with (i + 1) by lia;
        replace (i + 1 + 1) with (i + 2) by lia.
Qed.
End Line.

Lemma hRun_scanned (s : Board) (r c0 n : Z) :
  MIN_MATCH_LENGTH <= n -> hRun s r c0 n -> (c0, n) ∈ hRunsOf s r.
Proof.
  apply (lineRun_scanned (restingType s r) (hlink s r)).
  - apply hlink_resting.
  - intros i ty H. by apply restingType_bounds in H as [_ ?].
Qed.

Lemma scanned_hRun (s : Board) (r c0 n : Z) :
  (c0, n) ∈ hRunsOf s r -> MIN_MATCH_LENGTH <= n /\ hRun s r c0 n.
Proof.
  apply (scanned_lineRun (restingType s r) (hlink s r)).
  - apply hlink_resting.
  - intros i ty H. by apply restingType_bounds in H as [_ ?].
Qed.

Lemma vRun_scanned (s : Board) (c r0 n : Z) :
  MIN_MATCH_LENGTH <= n -> vRun s c r0 n -> (r0, n) ∈ vRunsOf s c.
Proof.
  apply (lineRun_scanned (fun r => restingType s r c) (vlink s c)).
  - apply vlink_resting.
  - intros i ty H. by apply restingType_bounds in H as [? _].
Qed.

Lemma scanned_vRun (s : Board) (c r0 n : Z) :
  (r0, n) ∈ vRunsOf s c -> MIN_MATCH_LENGTH <= n /\ vRun s c r0 n.
Proof.
  apply (scanned_lineRun (fun r => restingType s r c) (vlink s c)).
  - apply vlink_resting.
  - intros i ty H. by apply restingType_bounds in H as [? _].
Qed.

(** ** What the reported matches are *)

Lemma elem_of_hMatches (s : Board) (m : Match) :
  m ∈ hMatches s
  <-> exists r seg, 0 <= r < BOARD_ROWS /\ seg ∈ hRunsOf s r /\ m = hMatchOf r seg.
Proof.
  unfold hMatches. rewrite list_elem_of_In, in_flat_map. split.
  - intros (r & Hr & Hm). apply list_elem_of_In, elem_of_seqZ in Hr.
    apply list_elem_of_In, list_elem_of_fmap in Hm as (seg & -> & Hseg).
    exists r, seg. split; [unfold BOARD_ROWS in *; lia | done].
  - intros (r & seg & Hr & Hseg & ->). exists r. split.
    + apply list_elem_of_In, elem_of_seqZ. unfold BOARD_ROWS in *. lia.
    + apply list_elem_of_In, list_elem_of_fmap. by exists seg.
Qed.

Lemma elem_of_vMatches (s : Board) (m : Match) :
  m ∈ vMatches s
  <-> exists c seg, 0 <= c < BOARD_COLS /\ seg ∈ vRunsOf s c
                    /\ vMatchOf s c seg = Some m.
Proof.
  unfold vMatches. rewrite list_elem_of_In, in_flat_map. split.
  - intros (c & Hc & Hm). apply list_elem_of_In, elem_of_seqZ in Hc.
    apply list_elem_of_In, list_elem_of_omap in Hm as (seg & Hseg & Hm).
    exists c, seg. split; [unfold BOARD_COLS in *; lia | done].
  - intros (c & seg & Hc & Hseg & Hm). exists c. split.
    + apply list_elem_of_In, elem_of_seqZ. unfold BOARD_COLS in *. lia.
    + apply list_elem_of_In, list_elem_of_omap. by exists seg.
Qed.

Lemma hMatches_direction (s : Board) (m : Match) :
  m ∈ hMatches s -> direction m = Horizontal.
Proof. intros (r & seg & _ & _ & ->)%elem_of_hMatches. done. Qed.

Lemma vMatchOf_Some (s : Board) (c : Z) (seg : Z * Z) (m : Match) :
  vMatchOf s c seg = Some m ->
  m = mkMatch (vFresh s c seg) Vertical (snd seg) /\ vFresh s c seg <> [].
Proof.
  unfold vMatchOf. case_bool_decide as Hnil; [done|]. by intros [= <-].
Qed.

Lemma vMatches_direction (s : Board) (m : Match) :
  m ∈ vMatches s -> direction m = Vertical.
Proof.
  intros (c & seg & _ & _ & Hm)%elem_of_vMatches.
  by apply vMatchOf_Some in Hm as [-> _].
Qed.

(** The cells listed by horizontal matches, read off the result. *)
Lemma listedIn_horizontal (s : Board) (p : BoardPosition) :
  listedIn Horizontal (matchesOf s) p = inHorizontal s p.
Proof.
  unfold listedIn, inHorizontal, matchesOf. apply bool_decide_ext.
  rewrite Exists_app, !Exists_exists. split.
  - intros [(m & Hm & _ & Hp)|(m & Hm & Hd & _)]; [by exists m|].
    apply vMatches_direction in Hm. congruence.
  - intros (m & Hm & Hp). left. exists m.
    split; [done|]. split; [by apply (hMatches_direction s) | done].
Qed.

Lemma elem_of_vCells (c : Z) (seg : Z * Z) (p : BoardPosition) :
  p ∈ vCells c seg <-> pos_col p = c /\ fst seg <= pos_row p < fst seg + snd seg.
Proof.
  unfold vCells. rewrite list_elem_of_fmap. setoid_rewrite elem_of_seqZ. split.
  - intros (i & -> & Hi). done.
  - intros [<- Hr]. exists (pos_row p). by destruct p.
Qed.

Lemma elem_of_vFresh (s : Board) (c : Z) (seg : Z * Z) (p : BoardPosition) :
  p ∈ vFresh s c seg <-> p ∈ vCells c seg /\ inHorizontal s p = false.
Proof.
  unfold vFresh, vCells. rewrite !list_elem_of_fmap. split.
  - intros (i & -> & [Hi1 Hi2]%list_elem_of_filter). split; [by exists i | done].
  - intros [(i & -> & Hi) Hin]. exists i. split; [done|].
    by apply list_elem_of_filter.
Qed.

(** Two maximal runs of a column that share a cell are the same run. *)
Lemma vRun_unique (s : Board) (c r0 n r0' n' i : Z) :
  vRun s c r0 n -> vRun s c r0' n' ->
  r0 <= i < r0 + n -> r0' <= i < r0' + n' -> r0' = r0 /\ n' = n.
Proof.
  intros (ty & Hc & Hlo & Hhi) (ty' & Hc' & Hlo' & Hhi') Hi Hi'.
  assert (ty' = ty) as ->
    by (pose proof (Hc i Hi); pose proof (Hc' i Hi'); congruence).
  assert (r0' = r0) as ->.
  { destruct (Z.lt_trichotomy r0 r0') as [? | [? | ?]]; [|done|].
    - exfalso. apply Hlo'. apply Hc. lia.
    - exfalso. apply Hlo. apply Hc'. lia. }
  split; [done|].
  destruct (Z.lt_trichotomy n n') as [? | [? | ?]]; [|done|].
  - exfalso. apply Hhi. apply Hc'. lia.
  - exfalso. apply Hhi'. apply Hc. lia.
Qed.

(** ** C6, C4 and C1: the detection pass *)

(** C6. Calling [findMatches] twice in succession returns the same list of
    matches both times, and the board (grid, tiles and everything else) is
    left exactly as it was. *)
Theorem C6_findMatches_twice (s : Board) :
  (let* first := findMatches in
   let* second := findMatches in
   ret (first, second)) s
  = ((fst (findMatches s), fst (findMatches s)), s)
  /\ snd (findMatches s) = s.
Proof.
  split; [|apply findMatches_snd].
  rewrite bind_run, findMatches_spec. cbn [fst snd].
  rewrite bind_run, findMatches_spec. reflexivity.
Qed.

Lemma overlap_hMatchOf (r r' : Z) (seg seg' : Z * Z) :
  overlap (hMatchOf r seg) (hMatchOf r' seg')
  <-> r = r' /\ exists j, fst seg <= j < fst seg + snd seg
                          /\ fst seg' <= j < fst seg' + snd seg'.
Proof.
  unfold overlap. rewrite Exists_exists. split.
  - intros ([i j] & H1 & H2).
    apply elem_of_hMatchOf in H1 as [-> H1]. apply elem_of_hMatchOf in H2 as [-> H2].
    split; [done|]. by exists j.
  - intros [-> (j & H1 & H2)]. exists (mkPos r' j).
    split; by apply elem_of_hMatchOf.
Qed.

Lemma segsWithin_lower (lo hi : Z) (segs : list (Z * Z)) (seg : Z * Z) :
  segsWithin lo hi segs -> seg ∈ segs ->
  lo <= fst seg /\ MIN_MATCH_LENGTH <= snd seg /\ fst seg + snd seg <= hi.
Proof.
  revert lo. induction segs as [|seg' segs IH]; intros lo Hw Hin.
  - by apply elem_of_nil in Hin.
  - destruct Hw as (H1 & H2 & H3 & H4).
    apply elem_of_cons in Hin as [->|Hin]; [done|].
    destruct (IH _ H4 Hin) as (? & ? & ?). unfold MIN_MATCH_LENGTH in *. lia.
Qed.

(** Among the runs of one row, only the run itself overlaps it. *)
Lemma filter_overlap_row (r : Z) (seg : Z * Z) (segs : list (Z * Z)) (lo hi : Z) :
  segsWithin lo hi segs -> seg ∈ segs ->
  filter (fun m' => direction m' = Horizontal /\ overlap m' (hMatchOf r seg))
         (map (hMatchOf r) segs)
  = [hMatchOf r seg].
Proof.
  revert lo. induction segs as [|seg' segs IH]; intros lo Hw Hin.
  - by apply elem_of_nil in Hin.
  - destruct Hw as (H1 & H2 & H3 & H4). simpl.
    destruct (decide (seg' = seg)) as [->|Hne].
    + rewrite filter_cons_True.
      2:{ split; [done|]. apply overlap_hMatchOf. split; [done|].
          exists (fst seg). unfold MIN_MATCH_LENGTH in *. lia. }
      f_equal. apply filter_none. intros m' (seg' & -> & Hseg')%list_elem_of_fmap.
      intros [_ (_ & j & Hj1 & Hj2)%overlap_hMatchOf].
      destruct (segsWithin_lower _ _ _ _ H4 Hseg') as (? & ? & ?). lia.
    + apply elem_of_cons in Hin as [->|Hin]; [done|].
      rewrite filter_cons_False.
      2:{ intros [_ (_ & j & Hj1 & Hj2)%overlap_hMatchOf].
          destruct (segsWithin_lower _ _ _ _ H4 Hin) as (? & ? & ?). lia. }
      by apply (IH (fst seg' + snd seg')).
Qed.

Lemma filter_overlap_hMatches (s : Board) (r : Z) (seg : Z * Z) :
  0 <= r < BOARD_ROWS -> seg ∈ hRunsOf s r ->
  filter (fun m' => direction m' = Horizontal /\ overlap m' (hMatchOf r seg))
         (matchesOf s)
  = [hMatchOf r seg].
Proof.
  intros Hr Hseg. unfold matchesOf. rewrite filter_app.
  rewrite (filter_none _ (vMatches s)).
  2:{ intros m Hm%vMatches_direction [Hd _]. congruence. }
  rewrite app_nil_r. unfold hMatches.
  replace BOARD_ROWS with (r + (1 + (BOARD_ROWS - r - 1))) at 1 by lia.
  unfold BOARD_ROWS in *.
  rewrite seqZ_app by lia. rewrite (seqZ_app _ 1) by lia.
  rewrite !flat_map_app, !filter_app.
  rewrite (filter_flat_map_none _ _ (seqZ 0 r)).
  2:{ intros r' Hr'%elem_of_seqZ m (seg' & -> & _)%list_elem_of_fmap.
      intros [_ (-> & _)%overlap_hMatchOf]. lia. }
  rewrite (filter_flat_map_none _ _ (seqZ (0 + r + 1) _)).
  2:{ intros r' Hr'%elem_of_seqZ m (seg' & -> & _)%list_elem_of_fmap.
      intros [_ (-> & _)%overlap_hMatchOf]. lia. }
  simpl. rewrite !app_nil_r.
  apply (filter_overlap_row _ _ _ 0 8), Hseg. apply hRunsOf_within.
Qed.

(** C4. When a row holds a maximal run of exactly four equal-type tiles,
    none of them animating, the horizontal matches reported by
    [findMatches] that touch the run are exactly one: the match of length 4
    listing the four cells (so there are no two overlapping matches of
    length 3). *)
Theorem C4_run_of_four_one_match (s : Board) (r c0 : Z) :
  hRun s r c0 4 ->
  let four :=
    mkMatch [mkPos r c0; mkPos r (c0 + 1); mkPos r (c0 + 2); mkPos r (c0 + 3)]
            Horizontal 4 in
  filter (fun m' => direction m' = Horizontal /\ overlap m' four)
         (fst (findMatches s))
  = [four].
Proof.
  intros Hrun four.
  assert (four = hMatchOf r (c0, 4)) as ->.
  { unfold four, hMatchOf, hCells. cbn [fst snd].
    change 4 with (Z.of_nat 4) at 2. rewrite !seqZ_succ. simpl.
    replace (c0 + 1 + 1) with (c0 + 2) by lia.
    replace (c0 + 2 + 1) with (c0 + 3) by lia. reflexivity. }
  rewrite findMatches_fst.
  apply filter_overlap_hMatches.
  - destruct Hrun as (ty & Hcells & _).
    destruct (restingType_bounds s r c0 ty) as [? _]; [apply Hcells; lia | done].
  - apply hRun_scanned; [unfold MIN_MATCH_LENGTH; lia | done].
Qed.

Lemma C4_run_of_four_one_match_witness :
  filter (fun m' => direction m' = Horizontal
                    /\ overlap m' (mkMatch [mkPos 2 0; mkPos 2 1; mkPos 2 2; mkPos 2 3]
                                           Horizontal 4))
         (fst (findMatches fourBoard))
  = [mkMatch [mkPos 2 0; mkPos 2 1; mkPos 2 2; mkPos 2 3] Horizontal 4].
Proof.
  apply (C4_run_of_four_one_match fourBoard 2 0).
  exists 0. split; [|split; vm_compute; congruence].
  intros c Hc.
  assert (c = 0 \/ c = 1 \/ c = 2 \/ c = 3) as [-> | [-> | [-> | ->]]] by lia;
    vm_compute; reflexivity.
Defined.

(** C1, as the claim states it, fails on [blockBoard], a board that arises
    in play.  The cell (2,2) lies in the horizontal run (2,0)-(2,2) and in
    the vertical run (0,2)-(3,2): the vertical match that is reported has
    the length 4 of the run but lists the cell (3,2) only.  The cell (2,0)
    lies in the same horizontal run and in the vertical run (0,0)-(2,0), of
    which every cell is listed by a horizontal match: no vertical match is
    reported for that run. *)
Lemma C1_counterexample :
  let ms := fst (findMatches blockBoard) in
  reachable blockBoard
  /\ hRun blockBoard 2 0 3 /\ vRun blockBoard 2 0 4 /\ vRun blockBoard 0 0 3
  /\ ms = [mkMatch [mkPos 0 0; mkPos 0 1; mkPos 0 2] Horizontal 3;
           mkMatch [mkPos 1 0; mkPos 1 1; mkPos 1 2] Horizontal 3;
           mkMatch [mkPos 2 0; mkPos 2 1; mkPos 2 2] Horizontal 3;
           mkMatch [mkPos 3 2] Vertical 4]
  /\ (mkMatch (vCells 2 (0, 4)) Vertical 4 ∉ ms)
  /\ (forall m, m ∈ ms -> direction m = Vertical ->
                forall p, p ∈ tiles m -> p ∉ vCells 0 (0, 3)).
Proof.
  assert (fst (findMatches blockBoard)
          = [mkMatch [mkPos 0 0; mkPos 0 1; mkPos 0 2] Horizontal 3;
             mkMatch [mkPos 1 0; mkPos 1 1; mkPos 1 2] Horizontal 3;
             mkMatch [mkPos 2 0; mkPos 2 1; mkPos 2 2] Horizontal 3;
             mkMatch [mkPos 3 2] Vertical 4]) as Hms by (vm_compute; reflexivity).
  cbv zeta. rewrite Hms.
  split; [by eexists _, _|].
  split; [|split; [|split]].
  - exists 0. split; [|split; vm_compute; congruence].
    intros c Hc. assert (c = 0 \/ c = 1 \/ c = 2) as [-> | [-> | ->]] by lia;
      vm_compute; reflexivity.
  - exists 0. split; [|split; vm_compute; congruence].
    intros r Hr.
    assert (r = 0 \/ r = 1 \/ r = 2 \/ r = 3) as [-> | [-> | [-> | ->]]] by lia;
      vm_compute; reflexivity.
  - exists 0. split; [|split; vm_compute; congruence].
    intros r Hr. assert (r = 0 \/ r = 1 \/ r = 2) as [-> | [-> | ->]] by lia;
      vm_compute; reflexivity.
  - split; [done|]. split.
    + intros Hin. refine (bool_decide_eq_false_1 _ _ Hin). vm_compute. reflexivity.
    + intros m Hm Hd p Hp Hcol.
      apply elem_of_vCells in Hcol as [Hcol _].
      repeat (apply elem_of_cons in Hm as [-> | Hm]; [try discriminate Hd|]).
      * apply list_elem_of_singleton in Hp as ->. discriminate Hcol.
      * by apply elem_of_nil in Hm.
Qed.

Lemma hRun_row_bounds (s : Board) (r c0 n : Z) :
  0 < n -> hRun s r c0 n -> 0 <= r < BOARD_ROWS.
Proof.
  intros Hn (ty & Hcells & _).
  destruct (restingType_bounds s r c0 ty) as [? _]; [apply Hcells; lia | done].
Qed.

Lemma vRun_col_bounds (s : Board) (c r0 n : Z) :
  0 < n -> vRun s c r0 n -> 0 <= c < BOARD_COLS.
Proof.
  intros Hn (ty & Hcells & _).
  destruct (restingType_bounds s r0 c ty) as [_ ?]; [apply Hcells; lia | done].
Qed.

Lemma vFresh_listed (s : Board) (c : Z) (seg : Z * Z) :
  filter (fun p => listedIn Horizontal (matchesOf s) p = false) (vCells c seg)
  = vFresh s c seg.
Proof.
  unfold vCells, vFresh. rewrite filter_map_comm. f_equal.
  apply filter_ext_elem. intros i _. by rewrite listedIn_horizontal.
Qed.

(** C1, amended.  When a cell lies in a horizontal run and in a vertical
    run (each maximal, of at least three equal-type tiles, none animating),
    one pass of [findMatches] reports the horizontal match with all the
    cells of its run.  Of the vertical run the cells that no horizontal
    match lists are left (the shared cell is not among them): when there is
    such a cell, the vertical match is reported with these cells as its tile
    list and the full length of the run as its length, and it is the only
    vertical match that lists a cell of the run; when there is none, no
    vertical match lists a cell of the run.  Every cell of both runs is
    listed by some reported match. *)
Theorem C1_cross_reported_deduplicated (s : Board) (r c c0 hn r0 vn : Z) :
  hRun s r c0 hn -> MIN_MATCH_LENGTH <= hn -> c0 <= c < c0 + hn ->
  vRun s c r0 vn -> MIN_MATCH_LENGTH <= vn -> r0 <= r < r0 + vn ->
  let ms := fst (findMatches s) in
  let fresh := filter (fun p => listedIn Horizontal ms p = false) (vCells c (r0, vn)) in
  mkMatch (hCells r (c0, hn)) Horizontal hn ∈ ms
  /\ (mkPos r c ∉ fresh)
  /\ (fresh <> [] -> mkMatch fresh Vertical vn ∈ ms)
  /\ (forall m p, m ∈ ms -> direction m = Vertical ->
                  p ∈ tiles m -> p ∈ vCells c (r0, vn) ->
                  fresh <> [] /\ m = mkMatch fresh Vertical vn)
  /\ (mkMatch (vCells c (r0, vn)) Vertical vn ∉ ms)
  /\ (forall p, p ∈ hCells r (c0, hn) ++ vCells c (r0, vn) ->
                Exists (fun m => p ∈ tiles m) ms).
Proof.
  intros Hh Hhn Hc Hv Hvn Hr ms fresh. subst fresh ms.
  rewrite findMatches_fst, vFresh_listed.
  assert (0 <= r < BOARD_ROWS) as Hrb
    by (apply (hRun_row_bounds s r c0 hn); [unfold MIN_MATCH_LENGTH in *; lia | done]).
  assert (0 <= c < BOARD_COLS) as Hcb
    by (apply (vRun_col_bounds s c r0 vn); [unfold MIN_MATCH_LENGTH in *; lia | done]).
  assert (hMatchOf r (c0, hn) ∈ hMatches s) as HinH.
  { apply elem_of_hMatches. exists r, (c0, hn).
    split; [done|]. split; [by apply hRun_scanned | done]. }
  assert (inHorizontal s (mkPos r c) = true) as Hshared.
  { apply bool_decide_eq_true, Exists_exists. exists (hMatchOf r (c0, hn)).
    split; [done|]. by apply elem_of_hMatchOf. }
  assert (mkPos r c ∉ vFresh s c (r0, vn)) as Hnotfresh.
  { unfold vFresh. intros (i & [= <-] & Hi)%list_elem_of_fmap.
    apply list_elem_of_filter in Hi as [Hi _]. congruence. }
  split; [|split; [|split; [|split; [|split]]]].
  - apply elem_of_app. by left.
  - exact Hnotfresh.
  - intros Hne. apply elem_of_app. right. apply elem_of_vMatches.
    exists c, (r0, vn). split; [done|]. split; [by apply vRun_scanned|].
    unfold vMatchOf. by rewrite bool_decide_eq_false_2.
  - intros m p Hm Hd Hpm Hpv.
    apply elem_of_app in Hm as [Hm | Hm];
      [apply hMatches_direction in Hm; congruence|].
    apply elem_of_vMatches in Hm as (c' & [r1 n1] & _ & Hseg & Hm).
    apply vMatchOf_Some in Hm as [-> Hne]. cbn [tiles] in Hpm.
    apply elem_of_vFresh in Hpm as [Hpc _].
    apply elem_of_vCells in Hpc as [Hcol Hrow].
    apply elem_of_vCells in Hpv as [Hcol' Hrow'].
    cbn [fst snd] in Hrow, Hrow'.
    assert (c' = c) as -> by congruence.
    apply scanned_vRun in Hseg as [_ Hrun'].
    destruct (vRun_unique s c r0 vn r1 n1 (pos_row p) Hv Hrun' Hrow' Hrow)
      as [-> ->].
    split; [exact Hne | reflexivity].
  - intros [Hin|Hin]%elem_of_app.
    + apply hMatches_direction in Hin. done.
    + apply elem_of_vMatches in Hin as (c' & seg & _ & _ & Hm).
      apply vMatchOf_Some in Hm as [[= Htiles _] _].
      assert (mkPos r c ∈ vFresh s c' seg) as Hin.
      { rewrite <- Htiles. unfold vCells. apply list_elem_of_fmap.
        exists r. split; [done|]. apply elem_of_seqZ. simpl. lia. }
      unfold vFresh in Hin. apply list_elem_of_fmap in Hin as (i & [= <- <-] & Hi).
      apply list_elem_of_filter in Hi as [Hi _]. congruence.
  - intros p Hp. apply Exists_exists.
    apply elem_of_app in Hp as [Hp|Hp].
    + exists (hMatchOf r (c0, hn)). split; [|done]. apply elem_of_app. by left.
    + destruct (inHorizontal s p) eqn:Hlisted.
      * apply bool_decide_eq_true, Exists_exists in Hlisted as (m & Hm & Hpm).
        exists m. split; [|done]. apply elem_of_app. by left.
      * assert (p ∈ vFresh s c (r0, vn)) as Hfresh.
        { unfold vCells in Hp. apply list_elem_of_fmap in Hp as (i & -> & Hi).
          unfold vFresh. apply list_elem_of_fmap. exists i. split; [done|].
          apply list_elem_of_filter. done. }
        exists (mkMatch (vFresh s c (r0, vn)) Vertical vn). split; [|done].
        apply elem_of_app. right. apply elem_of_vMatches.
        exists c, (r0, vn). split; [done|]. split; [by apply vRun_scanned|].
        unfold vMatchOf. rewrite bool_decide_eq_false_2; [done|].
        intros Hnil. rewrite Hnil in Hfresh. by apply elem_of_nil in Hfresh.
Qed.

Lemma C1_cross_reported_deduplicated_witness :
  let ms := fst (findMatches blockBoard) in
  let fresh := filter (fun p => listedIn Horizontal ms p = false) (vCells 0 (0, 3)) in
  mkMatch (hCells 2 (0, 3)) Horizontal 3 ∈ ms
  /\ (mkPos 2 0 ∉ fresh)
  /\ (fresh <> [] -> mkMatch fresh Vertical 3 ∈ ms)
  /\ (forall m p, m ∈ ms -> direction m = Vertical ->
                  p ∈ tiles m -> p ∈ vCells 0 (0, 3) ->
                  fresh <> [] /\ m = mkMatch fresh Vertical 3)
  /\ (mkMatch (vCells 0 (0, 3)) Vertical 3 ∉ ms)
  /\ (forall p, p ∈ hCells 2 (0, 3) ++ vCells 0 (0, 3) ->
                Exists (fun m => p ∈ tiles m) ms).
Proof.
  apply (C1_cross_reported_deduplicated blockBoard 2 0 0 3 0 3).
  - exists 0. split; [|split; vm_compute; congruence].
    intros c Hc. assert (c = 0 \/ c = 1 \/ c = 2) as [-> | [-> | ->]] by lia;
      vm_compute; reflexivity.
  - unfold MIN_MATCH_LENGTH. lia.
  - lia.
  - exists 0. split; [|split; vm_compute; congruence].
    intros r Hr. assert (r = 0 \/ r = 1 \/ r = 2) as [-> | [-> | ->]] by lia;
      vm_compute; reflexivity.
  - unfold MIN_MATCH_LENGTH. lia.
  - lia.
Defined.

(** ** C3: rejected swap requests *)

Lemma getTile_out_of_bounds (r c : Z) (s : Board) :
  ~ (0 <= r < BOARD_ROWS /\ 0 <= c < BOARD_COLS) -> getTile r c s = None.
Proof.
  intros Hout. unfold getTile.
  destruct ((r <? 0) || (r >=? BOARD_ROWS) || (c <? 0) || (c >=? BOARD_COLS)) eqn:Hb;
    [done|].
  repeat (apply orb_false_iff in Hb as [Hb ?]). lia.
Qed.

Lemma getTile_in_bounds (r c : Z) (s : Board) :
  0 <= r < BOARD_ROWS -> 0 <= c < BOARD_COLS -> getTile r c s = gridAt r c s.
Proof.
  intros Hr Hc. unfold getTile.
  replace ((r <? 0) || (r >=? BOARD_ROWS) || (c <? 0) || (c >=? BOARD_COLS))
    with false; [done|].
  symmetry. repeat (apply orb_false_iff; split); lia.
Qed.

Lemma getTile_Some (r c : Z) (s : Board) (l : loc) :
  getTile r c s = Some l ->
  0 <= r < BOARD_ROWS /\ 0 <= c < BOARD_COLS /\ gridAt r c s = Some l.
Proof.
  intros H.
  destruct (decide (0 <= r < BOARD_ROWS /\ 0 <= c < BOARD_COLS)) as [[Hr Hc]|Hout].
  - by rewrite getTile_in_bounds in H.
  - by rewrite getTile_out_of_bounds in H.
Qed.

Lemma trySwap_refused (s : Board) (pos1 pos2 : BoardPosition) :
  isProcessing s = true
  \/ ~ (0 <= pos_row pos1 < BOARD_ROWS /\ 0 <= pos_col pos1 < BOARD_COLS)
  \/ ~ (0 <= pos_row pos2 < BOARD_ROWS /\ 0 <= pos_col pos2 < BOARD_COLS)
  \/ gridAt (pos_row pos1) (pos_col pos1) s = None
  \/ gridAt (pos_row pos2) (pos_col pos2) s = None
  \/ ~ ((Z.abs (pos_col pos1 - pos_col pos2) = 1 /\ pos_row pos1 = pos_row pos2)
        \/ (pos_col pos1 = pos_col pos2 /\ Z.abs (pos_row pos1 - pos_row pos2) = 1)) ->
  trySwap pos1 pos2 s = (false, s).
Proof.
  intros Hcase. unfold trySwap, bind, gets, ret. cbv beta iota zeta.
  destruct (isProcessing s) eqn:Hproc; [reflexivity|].
  destruct (negb _) eqn:Hadj; [reflexivity|].
  apply negb_false_iff in Hadj.
  assert ((Z.abs (pos_col pos1 - pos_col pos2) = 1 /\ pos_row pos1 = pos_row pos2)
          \/ (pos_col pos1 = pos_col pos2 /\ Z.abs (pos_row pos1 - pos_row pos2) = 1))
    as Hadjacent.
  { apply orb_true_iff in Hadj as [H|H]; apply andb_true_iff in H as [H1 H2];
      apply Z.eqb_eq in H1, H2; lia. }
  assert (getTile (pos_row pos1) (pos_col pos1) s = None
          \/ getTile (pos_row pos2) (pos_col pos2) s = None) as [-> | Hnone].
  { destruct Hcase as [H|[H|[H|[H|[H|H]]]]]; [done | | | | | done].
    - left. by apply getTile_out_of_bounds.
    - right. by apply getTile_out_of_bounds.
    - left. destruct (getTile _ _ s) eqn:Hg; [|done].
      apply getTile_Some in Hg as (_ & _ & Hg). congruence.
    - right. destruct (getTile (pos_row pos2) _ s) eqn:Hg; [|done].
      apply getTile_Some in Hg as (_ & _ & Hg). congruence. }
  - reflexivity.
  - rewrite Hnone. destruct (getTile (pos_row pos1) (pos_col pos1) s); reflexivity.
Qed.

(** C3. A swap request is refused, returning false and leaving every part
    of the state as it was (grid, tiles, selection, combo counter,
    processing flag, timers), when the board is processing, when one of the
    positions is out of bounds or holds no tile, or when the positions are
    not exactly one step apart along one axis. *)
Theorem C3_refused_swap_changes_nothing (s : Board) (pos1 pos2 : BoardPosition) :
  isProcessing s = true
  \/ ~ (0 <= pos_row pos1 < BOARD_ROWS /\ 0 <= pos_col pos1 < BOARD_COLS)
  \/ ~ (0 <= pos_row pos2 < BOARD_ROWS /\ 0 <= pos_col pos2 < BOARD_COLS)
  \/ gridAt (pos_row pos1) (pos_col pos1) s = None
  \/ gridAt (pos_row pos2) (pos_col pos2) s = None
  \/ ~ ((Z.abs (pos_col pos1 - pos_col pos2) = 1 /\ pos_row pos1 = pos_row pos2)
        \/ (pos_col pos1 = pos_col pos2 /\ Z.abs (pos_row pos1 - pos_row pos2) = 1)) ->
  trySwap pos1 pos2 s = (false, s).
Proof. apply trySwap_refused. Qed.

Lemma C3_refused_swap_changes_nothing_witness :
  trySwap (mkPos 0 0) (mkPos 1 1) (Board_new (drawsFrom crossDraws))
  = (false, Board_new (drawsFrom crossDraws)).
Proof.
  apply C3_refused_swap_changes_nothing.
  do 5 right. simpl. lia.
Defined.

(** ** The primitive operations *)

Lemma gridAt_setGrid (s : Board) (r c : Z) (v : option loc) (r' c' : Z) :
  0 <= r -> 0 <= c -> (Z.to_nat r < length (grid s))%nat ->
  gridAt r' c' (snd (setGrid r c v s))
  = if decide (r' = r /\ c' = c) then v else gridAt r' c' s.
Proof. intros. unfold gridAt, setGrid, modify. simpl. by apply lookup2_update2. Qed.

Lemma gridAt_setGrid_other (s : Board) (r c : Z) (v : option loc) (r' c' : Z) :
  (r', c') <> (r, c) -> gridAt r' c' (snd (setGrid r c v s)) = gridAt r' c' s.
Proof. intros. unfold gridAt, setGrid, modify. simpl. by apply lookup2_update2_other. Qed.

Lemma gridAt_in_grid (s : Board) (r c : Z) (l : loc) :
  gridAt r c s = Some l -> 0 <= r /\ 0 <= c /\ (Z.to_nat r < length (grid s))%nat.
Proof.
  unfold gridAt, lookup2. intros H.
  destruct ((r <? 0) || (c <? 0)) eqn:Hneg; [done|].
  apply orb_false_iff in Hneg as [Hr Hc]. apply Z.ltb_ge in Hr, Hc.
  destruct (grid s !! Z.to_nat r) as [cells|] eqn:Hcells; [|done].
  apply lookup_lt_Some in Hcells. done.
Qed.

Lemma gridAt_setGrid_Some (s : Board) (r c : Z) (l : loc) (r' c' : Z) (l' : loc) :
  gridAt r c s = Some l ->
  gridAt r' c' (snd (setGrid r c None s)) = Some l' ->
  gridAt r' c' s = Some l' /\ (r', c') <> (r, c).
Proof.
  intros Hcell H. apply gridAt_in_grid in Hcell as (Hr & Hc & Hlen).
  rewrite gridAt_setGrid in H by done.
  destruct (decide (r' = r /\ c' = c)) as [[-> ->]|Hne]; [done|].
  split; [done|]. intros [= -> ->]. tauto.
Qed.

Lemma setGrid_length (s : Board) (r c : Z) (v : option loc) :
  length (grid (snd (setGrid r c v s))) = length (grid s).
Proof. unfold setGrid, modify. simpl. apply update2_length. Qed.

Lemma tileAt_onTile (s : Board) (l : loc) (f : Tile -> Tile) (l' : loc) :
  tileAt l' (snd (onTile l f s)) = if decide (l' = l) then f (tileAt l s) else tileAt l' s.
Proof.
  unfold tileAt, onTile, modify. simpl.
  destruct (decide (l' = l)) as [->|Hne].
  - apply lookup_total_insert_eq.
  - by apply lookup_total_insert_ne.
Qed.

Lemma tileAt_newTile (s : Board) (ty : TileType) (r c : Z) (l : loc) :
  tileAt l (snd (newTile ty r c s))
  = if decide (l = nextLoc s) then Tile_new ty r c else tileAt l s.
Proof.
  unfold tileAt, newTile. simpl.
  destruct (decide (l = nextLoc s)) as [->|Hne].
  - apply lookup_total_insert_eq.
  - by apply lookup_total_insert_ne.
Qed.

(** *** Well-formedness under the primitive operations *)

Lemma positionCoherent_unshared (s : Board) : positionCoherent s -> unshared s.
Proof.
  intros Hco r c r' c' l H1 H2.
  destruct (Hco _ _ _ H1) as [<- <-]. destruct (Hco _ _ _ H2) as [<- <-]. done.
Qed.

Lemma wellFormed_sameCells (s s' : Board) :
  sameCells s s' -> wellFormed s -> wellFormed s'.
Proof.
  intros (Hlen & Hcells & Hheap & Hnext) (W1 & W2 & W3).
  split; [congruence|]. split.
  - intros r c l H. rewrite Hcells in H. unfold tileAt. rewrite Hheap. by apply W2.
  - intros r c l H. rewrite Hcells in H. rewrite Hnext. by apply (W3 r c).
Qed.

Lemma full_sameCells (s s' : Board) : sameCells s s' -> full s -> full s'.
Proof. intros (_ & Hcells & _) Hfull r c Hr Hc. rewrite Hcells. by apply Hfull. Qed.

Lemma sameCells_refl (s : Board) : sameCells s s.
Proof. done. Qed.

Lemma sameCells_trans (s1 s2 s3 : Board) :
  sameCells s1 s2 -> sameCells s2 s3 -> sameCells s1 s3.
Proof.
  intros (A1 & A2 & A3 & A4) (B1 & B2 & B3 & B4).
  split; [congruence|]. split; [intros; by rewrite B2, A2|]. split; congruence.
Qed.

Lemma wellFormed_onTile (s : Board) (l : loc) (f : Tile -> Tile) :
  keepsPosition f -> wellFormed s -> wellFormed (snd (onTile l f s)).
Proof.
  intros Hf (W1 & W2 & W3). split; [done|]. split.
  - intros r c l' H. rewrite tileAt_onTile.
    destruct (decide (l' = l)) as [->|]; [|by apply W2].
    destruct (Hf (tileAt l s)) as [-> ->]. by apply W2.
  - exact W3.
Qed.

Lemma full_onTile (s : Board) (l : loc) (f : Tile -> Tile) :
  full s -> full (snd (onTile l f s)).
Proof. done. Qed.

Lemma wellFormed_clear (s : Board) (r c : Z) :
  wellFormed s -> wellFormed (snd (setGrid r c None s)).
Proof.
  intros (W1 & W2 & W3).
  assert (forall r' c' l, gridAt r' c' (snd (setGrid r c None s)) = Some l ->
                          gridAt r' c' s = Some l) as Hsub.
  { intros r' c' l H.
    destruct (decide ((r', c') = (r, c))) as [[= -> ->]|Hne].
    - destruct (gridAt r c s) as [l0|] eqn:Hcell.
      + by apply (gridAt_setGrid_Some _ _ _ _ _ _ _ Hcell) in H as [_ ?].
      + unfold gridAt, setGrid, modify in *. simpl in H.
        destruct (decide (0 <= r /\ 0 <= c /\ (Z.to_nat r < length (grid s))%nat))
          as [(?&?&?)|Hout].
        * by rewrite lookup2_update2_same in H.
        * unfold update2 in H. destruct ((r <? 0) || (c <? 0)) eqn:Hneg; [congruence|].
          apply orb_false_iff in Hneg as [Hr Hc]. apply Z.ltb_ge in Hr, Hc.
          rewrite (lookup_ge_None_2 (grid s) (Z.to_nat r)) in H by lia. congruence.
    - by rewrite gridAt_setGrid_other in H. }
  split; [by rewrite setGrid_length|]. split.
  - intros r' c' l H. apply W2. by apply Hsub.
  - intros r' c' l H. apply (W3 r' c'). by apply Hsub.
Qed.

Lemma keepsPosition_set_state (st : TileState) : keepsPosition (set_state st).
Proof. done. Qed.
Lemma keepsPosition_set_type (ty : TileType) : keepsPosition (set_type ty).
Proof. done. Qed.
Lemma keepsPosition_set_target (p : Z * Z) : keepsPosition (set_target p).
Proof. done. Qed.
Lemma keepsPosition_set_animation (st : TileState) (p d : Q) :
  keepsPosition (set_animation st p d).
Proof. done. Qed.
Lemma keepsPosition_Tile_update (dt : Q) : keepsPosition (fun t => snd (Tile_update dt t)).
Proof.
  intros t. unfold Tile_update.
  destruct (state t) eqn:Hst; simpl; try done;
    destruct (animationComplete _ _); simpl; unfold finishAnimation; simpl; done.
Qed.

(** ** Detection looks at the cells and the tiles only *)

Lemma getTile_sameCells (s s' : Board) (r c : Z) :
  sameCells s s' -> getTile r c s' = getTile r c s.
Proof. intros (_ & Hcells & _). unfold getTile. by rewrite Hcells. Qed.

Lemma tileAt_sameCells (s s' : Board) (l : loc) :
  sameCells s s' -> tileAt l s' = tileAt l s.
Proof. intros (_ & _ & Hheap & _). unfold tileAt. by rewrite Hheap. Qed.

Lemma tilesLink_sameCells (s s' : Board) (a b : option loc) :
  sameCells s s' -> tilesLink a b s' = tilesLink a b s.
Proof.
  intros H. unfold tilesLink. destruct a as [a|], b as [b|]; try done.
  by rewrite !(tileAt_sameCells s s').
Qed.

Lemma scanRuns_ext (link link' : Z -> bool) (idx : list Z) :
  (forall i, link i = link' i) ->
  forall start len, scanRuns link idx start len = scanRuns link' idx start len.
Proof.
  intros Hext. induction idx as [|i idx IH]; intros start len; simpl; [done|].
  rewrite Hext. destruct (link' i); [apply IH|]. by rewrite IH.
Qed.

Lemma hRunsOf_sameCells (s s' : Board) (r : Z) :
  sameCells s s' -> hRunsOf s' r = hRunsOf s r.
Proof.
  intros H. apply scanRuns_ext. intros c. unfold hlink.
  by rewrite !(getTile_sameCells s s'), (tilesLink_sameCells s s').
Qed.

Lemma vRunsOf_sameCells (s s' : Board) (c : Z) :
  sameCells s s' -> vRunsOf s' c = vRunsOf s c.
Proof.
  intros H. apply scanRuns_ext. intros r. unfold vlink.
  by rewrite !(getTile_sameCells s s'), (tilesLink_sameCells s s').
Qed.

Lemma hMatches_sameCells (s s' : Board) : sameCells s s' -> hMatches s' = hMatches s.
Proof.
  intros H. unfold hMatches. apply flat_map_ext. intros r.
  by rewrite (hRunsOf_sameCells s s').
Qed.

Lemma matchesOf_sameCells (s s' : Board) : sameCells s s' -> matchesOf s' = matchesOf s.
Proof.
  intros H. unfold matchesOf. rewrite (hMatches_sameCells s s') by done. f_equal.
  unfold vMatches. apply flat_map_ext. intros c.
  rewrite (vRunsOf_sameCells s s') by done.
  apply omap_ext_elem.
  intros seg _. unfold vMatchOf, vFresh, inHorizontal.
  by rewrite (hMatches_sameCells s s').
Qed.

Lemma restingType_sameCells (s s' : Board) (r c : Z) :
  sameCells s s' -> restingType s' r c = restingType s r c.
Proof.
  intros H. unfold restingType. rewrite (getTile_sameCells s s') by done.
  destruct (getTile r c s); [|done]. by rewrite (tileAt_sameCells s s').
Qed.

Lemma sameCells_set_timers (s : Board) (x : list Timer) : sameCells s (set_timers x s).
Proof. done. Qed.

(** ** Properties kept by computations *)

Lemma preserves_ret {A : Type} (P : Board -> Prop) (a : A) : preserves P (ret a).
Proof. intros s H. exact H. Qed.

Lemma preserves_gets {A : Type} (P : Board -> Prop) (f : Board -> A) :
  preserves P (gets f).
Proof. intros s H. exact H. Qed.

Lemma preserves_bind {A B : Type} (P : Board -> Prop) (m : M A) (k : A -> M B) :
  preserves P m -> (forall a, preserves P (k a)) -> preserves P (bind m k).
Proof. intros Hm Hk s H. rewrite bind_run. apply Hk, Hm, H. Qed.

Lemma preserves_forM {I A : Type} (P : Board -> Prop) (l : list I)
      (body : I -> A -> M A) :
  (forall i a, preserves P (body i a)) -> forall a, preserves P (forM l body a).
Proof.
  intros Hbody. induction l as [|i l IH]; intros a; simpl.
  - apply preserves_ret.
  - apply preserves_bind; [apply Hbody | apply IH].
Qed.

Lemma preserves_forM_ {I : Type} (P : Board -> Prop) (l : list I) (body : I -> M unit) :
  (forall i, preserves P (body i)) -> preserves P (forM_ l body).
Proof. intros Hbody. unfold forM_. apply preserves_forM. intros i _. apply Hbody. Qed.

Lemma preserves_findMatches (P : Board -> Prop) : preserves P findMatches.
Proof. intros s H. by rewrite findMatches_snd. Qed.

(** Take a computation apart, down to its primitive operations. *)
Ltac preserves_step :=
  cbv beta;
  lazymatch goal with
  | |- preserves _ (bind _ _) => apply preserves_bind; [|intros ?]
  | |- preserves _ (ret _) => apply preserves_ret
  | |- preserves _ (gets _) => apply preserves_gets
  | |- preserves _ (forM _ _ _) => apply preserves_forM; intros ? ?
  | |- preserves _ (forM_ _ _) => apply preserves_forM_; intros ?
  | |- preserves _ findMatches => apply preserves_findMatches
  | |- preserves _ (match ?x with _ => _ end) => destruct x
  end.

(** *** The accounting *)

Lemma accounting_onTile (v : bool * Z * list Event * bool) (l : loc) (f : Tile -> Tile) :
  preserves (fun s => accounting s = v) (onTile l f).
Proof. intros s H. exact H. Qed.

Lemma accounting_setGrid (v : bool * Z * list Event * bool) (r c : Z) (x : option loc) :
  preserves (fun s => accounting s = v) (setGrid r c x).
Proof. intros s H. exact H. Qed.

Lemma accounting_newTile (v : bool * Z * list Event * bool) (ty : TileType) (r c : Z) :
  preserves (fun s => accounting s = v) (newTile ty r c).
Proof. intros s H. exact H. Qed.

Lemma accounting_randomInt (v : bool * Z * list Event * bool) (n : Z) :
  preserves (fun s => accounting s = v) (randomInt n).
Proof. intros s H. exact H. Qed.

Lemma accounting_setTimeout (v : bool * Z * list Event * bool) (cb : Callback) (ms : Z) :
  preserves (fun s => accounting s = v) (setTimeout cb ms).
Proof. intros s H. exact H. Qed.

Lemma accounting_set_selectedTile (v : bool * Z * list Event * bool) (x : option loc) :
  preserves (fun s => accounting s = v) (modify (set_selectedTile x)).
Proof. intros s H. exact H. Qed.

Ltac accounting_tac :=
  repeat first
    [ apply accounting_onTile | apply accounting_setGrid | apply accounting_newTile
    | apply accounting_randomInt | apply accounting_setTimeout
    | apply accounting_set_selectedTile | preserves_step ].

Lemma accounting_selectTile (v : bool * Z * list Event * bool) (r c : Z) :
  preserves (fun s => accounting s = v) (selectTile r c).
Proof. unfold selectTile. accounting_tac. Qed.

Lemma accounting_deselectTile (v : bool * Z * list Event * bool) :
  preserves (fun s => accounting s = v) deselectTile.
Proof. unfold deselectTile. accounting_tac. Qed.

Lemma accounting_update (v : bool * Z * list Event * bool) (dt : Q) :
  preserves (fun s => accounting s = v) (update dt).
Proof. unfold update. accounting_tac. Qed.

Lemma accounting_wouldMatchAfterSwap (v : bool * Z * list Event * bool)
      (pos1 pos2 : BoardPosition) :
  preserves (fun s => accounting s = v) (wouldMatchAfterSwap pos1 pos2).
Proof. unfold wouldMatchAfterSwap. accounting_tac. Qed.

Lemma accounting_hasValidMoves (v : bool * Z * list Event * bool) :
  preserves (fun s => accounting s = v) hasValidMoves.
Proof.
  unfold hasValidMoves.
  repeat first [ apply accounting_wouldMatchAfterSwap | preserves_step ].
Qed.

Lemma accounting_shuffle (v : bool * Z * list Event * bool) :
  preserves (fun s => accounting s = v) shuffle.
Proof. unfold shuffle. accounting_tac. Qed.

Lemma accounting_swapBack (v : bool * Z * list Event * bool) (tile1 tile2 : loc) :
  preserves (fun s => accounting s = v) (swapBack tile1 tile2).
Proof. unfold swapBack. accounting_tac. Qed.

Lemma accounting_removeDestroyedTiles (v : bool * Z * list Event * bool) :
  preserves (fun s => accounting s = v) removeDestroyedTiles.
Proof. unfold removeDestroyedTiles. accounting_tac. Qed.

Lemma accounting_applyGravity (v : bool * Z * list Event * bool) :
  preserves (fun s => accounting s = v) applyGravity.
Proof. unfold applyGravity, compactColumn, spawnColumn. accounting_tac. Qed.

(** ** C8: combo accounting *)

Lemma processMatches_accounting (matches : list Match) (s : Board) :
  onMatchCallback s = true ->
  accounting (snd (processMatches matches s))
  = (isProcessing s, comboCount s + 1,
     emitted s ++ [EvMatch matches (1 <? comboCount s + 1)], true).
Proof.
  intros Hcb. unfold processMatches.
  rewrite bind_modify, bind_gets. simpl onMatchCallback. rewrite Hcb.
  rewrite bind_gets. simpl comboCount. unfold emit. rewrite bind_modify.
  match goal with
  | |- accounting (snd (?m ?t)) = ?v =>
      assert (preserves (fun s => accounting s = v) m) as Hrest
  end.
  { accounting_tac. }
  apply Hrest. unfold accounting. simpl. by rewrite Hcb.
Qed.

Lemma checkCascade_settles (s : Board) :
  fst (findMatches s) = [] ->
  isProcessing (snd (checkCascade s)) = false
  /\ comboCount (snd (checkCascade s)) = 0
  /\ sameCells s (snd (checkCascade s))
  /\ emitted (snd (checkCascade s))
     = emitted s ++ (if onBoardSettledCallback s then [EvSettled] else []).
Proof.
  intros Hnone. unfold checkCascade.
  rewrite bind_run, findMatches_spec. rewrite findMatches_fst in Hnone.
  cbn [fst snd]. rewrite Hnone. simpl.
  unfold bind, modify, gets, emit, ret. simpl.
  destruct (onBoardSettledCallback s); simpl; [done|].
  by rewrite app_nil_r.
Qed.

Lemma checkCascade_continues (s : Board) :
  fst (findMatches s) <> [] ->
  checkCascade s = processMatches (fst (findMatches s)) s.
Proof.
  intros Hsome. unfold checkCascade.
  rewrite bind_run, findMatches_spec. cbn [fst snd].
  rewrite findMatches_fst in Hsome.
  destruct (matchesOf s) as [|m ms]; [done|]. reflexivity.
Qed.

(** What one input does to the accounting of a busy board: it starts a
    pass, or changes nothing, or settles the board. *)
Lemma step_accounting (i : Input) (s : Board) :
  isProcessing s = true -> onMatchCallback s = true ->
  (startsPass i s = true
   /\ exists matches,
       accounting (snd (step i s))
       = (true, comboCount s + 1,
          emitted s ++ [EvMatch matches (1 <? comboCount s + 1)], true))
  \/ (startsPass i s = false /\ accounting (snd (step i s)) = accounting s)
  \/ (startsPass i s = false
      /\ isProcessing (snd (step i s)) = false
      /\ exists es, emitted (snd (step i s)) = emitted s ++ es /\ comboFlags es = []).
Proof.
  intros Hbusy Hcb.
  assert (forall (m : M unit),
             preserves (fun t => accounting t = accounting s) m ->
             accounting (snd (m s)) = accounting s) as Hkeep
    by (intros m Hm; by apply Hm).
  destruct i; cbn [step startsPass].
  - right; left. split; [done|].
    rewrite bind_run, trySwap_refused by (by left). done.
  - right; left. split; [done|]. apply Hkeep, accounting_selectTile.
  - right; left. split; [done|]. apply Hkeep, accounting_deselectTile.
  - right; left. split; [done|]. apply Hkeep, accounting_update.
  - right; left. split; [done|]. apply Hkeep. accounting_tac.
  - right; left. split; [done|]. apply Hkeep.
    apply preserves_bind; [apply accounting_hasValidMoves | intros; apply preserves_ret].
  - right; left. split; [done|]. apply Hkeep, accounting_shuffle.
  - right; left. split; [done|]. unfold accounting, onMatch, modify. simpl.
    by rewrite Hcb.
  - right; left. done.
  - unfold fireTimer. rewrite bind_gets.
    destruct (timers s !! n) as [t|] eqn:Ht; [|right; left; done].
    rewrite bind_modify.
    set (s' := set_timers (delete n (timers s)) s).
    destruct (callback t) as [matches| tile1 tile2 | |] eqn:Hcallback; simpl runCallback.
    + left. split; [done|]. exists matches.
      rewrite processMatches_accounting by done. simpl. by rewrite Hbusy.
    + right; left. split; [done|].
      by apply (accounting_swapBack (accounting s) tile1 tile2 s').
    + right; left. split; [done|].
      assert (preserves (fun t => accounting t = accounting s)
                        (removeDestroyedTiles >> applyGravity)) as Hg.
      { apply preserves_bind; [apply accounting_removeDestroyedTiles|].
        intros _. apply accounting_applyGravity. }
      by apply (Hg s').
    + assert (fst (findMatches s') = fst (findMatches s)) as Hsame
        by (rewrite !findMatches_fst; apply matchesOf_sameCells, sameCells_set_timers).
      case_bool_decide as Hmatches.
      * left. split; [done|]. exists (fst (findMatches s)).
        rewrite checkCascade_continues by (by rewrite Hsame).
        rewrite processMatches_accounting by done. rewrite Hsame. simpl.
        by rewrite Hbusy.
      * right; right. split; [done|].
        destruct (checkCascade_settles s') as (S1 & S2 & S3 & S4);
          [by rewrite Hsame|].
        split; [done|]. rewrite S4. eexists. split; [reflexivity|].
        by destruct (onBoardSettledCallback s').
Qed.

Lemma accounting_swapTilesLogical (v : bool * Z * list Event * bool) (tile1 tile2 : loc) :
  preserves (fun s => accounting s = v) (swapTilesLogical tile1 tile2).
Proof. unfold swapTilesLogical. accounting_tac. Qed.

(** An accepted swap leaves the board processing, with the combo counter
    at 0, and calls no callback. *)
Lemma trySwap_accepted (s : Board) (pos1 pos2 : BoardPosition) :
  fst (trySwap pos1 pos2 s) = true ->
  isProcessing s = false
  /\ accounting (snd (trySwap pos1 pos2 s)) = (true, 0, emitted s, onMatchCallback s).
Proof.
  unfold trySwap. rewrite bind_gets.
  destruct (isProcessing s) eqn:Hbusy; [done|].
  destruct (negb _); [done|].
  rewrite !bind_gets.
  destruct (getTile (pos_row pos1) (pos_col pos1) s) as [tile1|]; [|done].
  destruct (getTile (pos_row pos2) (pos_col pos2) s) as [tile2|]; [|done].
  rewrite bind_run.
  pose proof (accounting_swapTilesLogical (accounting s) tile1 tile2 s eq_refl) as Hswap.
  set (s1 := snd (swapTilesLogical tile1 tile2 s)) in *.
  rewrite bind_run, findMatches_spec. cbn [fst snd].
  destruct (0 <? Z.of_nat (length (matchesOf s1))).
  - intros _. split; [done|]. rewrite !bind_modify.
    match goal with
    | |- accounting (snd (?m ?t)) = ?v =>
        assert (preserves (fun s => accounting s = v) m) as Hrest
    end.
    { apply preserves_bind; [apply accounting_deselectTile | intros _].
      accounting_tac. }
    apply Hrest. unfold accounting in *. simpl. congruence.
  - intros Hret. exfalso. revert Hret.
    rewrite !bind_run. unfold ret. simpl. done.
Qed.

Lemma run_cons (i : Input) (inputs : list Input) (s : Board) :
  run (i :: inputs) s = run inputs (snd (step i s)).
Proof.
  unfold run, forM_. cbn [forM]. rewrite bind_run.
  by destruct (step i s) as [[] s'].
Qed.

Lemma comboFlags_app (es1 es2 : list Event) :
  comboFlags (es1 ++ es2) = comboFlags es1 ++ comboFlags es2.
Proof. unfold comboFlags. apply omap_app. Qed.

(** Within one cascade the match events are flagged by the combo counter:
    the event of the pass that brings the counter to [j] carries
    [isCombo = (1 < j)]. *)
Lemma cascade_flags (inputs : list Input) :
  forall s,
    onMatchCallback s = true -> busyThroughout inputs s ->
    exists es,
      emitted (snd (run inputs s)) = emitted s ++ es
      /\ comboFlags es
         = map (fun j => 1 <? j) (seqZ (comboCount s + 1) (Z.of_nat (passes inputs s))).
Proof.
  induction inputs as [|i inputs IH]; intros s Hcb Hbusy.
  - exists []. simpl. by rewrite app_nil_r.
  - destruct Hbusy as [Hbusy Hrest]. rewrite run_cons. cbn [passes].
    set (s' := snd (step i s)) in *.
    destruct (step_accounting i s Hbusy Hcb)
      as [(Hpass & ms & Hacc) | [(Hpass & Hacc) | (Hpass & Hidle & es0 & Hes0 & Hflags0)]];
      rewrite Hpass.
    + fold s' in Hacc. unfold accounting in Hacc. injection Hacc as H1 H2 H3 H4.
      destruct (IH s' H4 Hrest) as (es & Hes & Hflags).
      exists (EvMatch ms (1 <? comboCount s + 1) :: es). split.
      * rewrite Hes, H3, <- app_assoc. done.
      * change (comboFlags (?e :: ?l)) with (comboFlags [e] ++ comboFlags l).
        rewrite Hflags, H2. cbn [comboFlags omap].
        replace (Z.of_nat (1 + passes inputs s')) with (Z.of_nat (S (passes inputs s')))
          by done.
        rewrite seqZ_succ. reflexivity.
    + fold s' in Hacc. unfold accounting in Hacc. injection Hacc as H1 H2 H3 H4.
      destruct (IH s') as (es & Hes & Hflags); [congruence | done |].
      exists es. split; [congruence|]. rewrite Hflags, H2. done.
    + fold s' in Hidle, Hes0.
      destruct inputs as [|i' inputs]; [|destruct Hrest; congruence].
      exists es0. simpl. split; [done|]. by rewrite Hflags0.
Qed.

(** C8. After a swap is accepted (which resets the combo counter to 0), a
    cascade of exactly two destroy passes calls the match callback exactly
    twice, first with [isCombo = false], then with [isCombo = true]; each
    pass adds one to the counter and reports [isCombo = (1 < counter)]. *)
Theorem C8_two_passes_two_events (s : Board) (pos1 pos2 : BoardPosition)
        (inputs : list Input) :
  onMatchCallback s = true ->
  fst (trySwap pos1 pos2 s) = true ->
  let s1 := snd (trySwap pos1 pos2 s) in
  busyThroughout inputs s1 ->
  passes inputs s1 = 2%nat ->
  comboCount s1 = 0
  /\ emitted s1 = emitted s
  /\ exists es,
      emitted (snd (run inputs s1)) = emitted s ++ es
      /\ comboFlags es = [false; true].
Proof.
  intros Hcb Hacc s1 Hbusy Hpasses.
  destruct (trySwap_accepted s pos1 pos2 Hacc) as [_ Hs1]. fold s1 in Hs1.
  unfold accounting in Hs1. injection Hs1 as H1 H2 H3 H4.
  split; [done|]. split; [done|].
  destruct (cascade_flags inputs s1) as (es & Hes & Hflags); [congruence | done |].
  exists es. split; [congruence|].
  rewrite Hflags, Hpasses, H2. reflexivity.
Qed.

(** Each pass adds one to the combo counter and reports
    [isCombo = (1 < counter)]. *)
Lemma processMatches_counts (matches : list Match) (s : Board) :
  onMatchCallback s = true ->
  comboCount (snd (processMatches matches s)) = comboCount s + 1
  /\ emitted (snd (processMatches matches s))
     = emitted s ++ [EvMatch matches (1 <? comboCount (snd (processMatches matches s)))].
Proof.
  intros Hcb. pose proof (processMatches_accounting matches s Hcb) as H.
  unfold accounting in H. injection H as H1 H2 H3 H4. by rewrite H2, H3.
Qed.

Lemma C8_two_passes_two_events_witness :
  let s1 := snd (trySwap (mkPos 6 2) (mkPos 7 2) comboBoard) in
  comboCount s1 = 0
  /\ emitted s1 = emitted comboBoard
  /\ exists es,
      emitted (snd (run comboInputs s1)) = emitted comboBoard ++ es
      /\ comboFlags es = [false; true].
Proof.
  apply (C8_two_passes_two_events comboBoard (mkPos 6 2) (mkPos 7 2) comboInputs).
  - vm_compute. reflexivity.
  - vm_compute. reflexivity.
  - repeat (split; [vm_compute; reflexivity|]). exact I.
  - vm_compute. reflexivity.
Defined.

(** ** Well-formedness and fullness under the simple operations *)

Lemma preserves_sameCells_modify (f : Board -> Board) :
  (forall s, sameCells s (f s)) -> preserves wellFormed (modify f).
Proof. intros Hf s H. by apply (wellFormed_sameCells s), H. Qed.

Lemma full_sameCells_modify (f : Board -> Board) :
  (forall s, sameCells s (f s)) -> preserves full (modify f).
Proof. intros Hf s H. by apply (full_sameCells s), H. Qed.

Lemma wf_onTile (l : loc) (f : Tile -> Tile) :
  keepsPosition f -> preserves wellFormed (onTile l f).
Proof. intros Hf s. by apply wellFormed_onTile. Qed.

Lemma wf_clear (r c : Z) : preserves wellFormed (setGrid r c None).
Proof. intros s. apply wellFormed_clear. Qed.

Lemma wf_randomInt (n : Z) : preserves wellFormed (randomInt n).
Proof. intros s H. by apply (wellFormed_sameCells s). Qed.

Lemma wf_setTimeout (cb : Callback) (ms : Z) : preserves wellFormed (setTimeout cb ms).
Proof. apply preserves_sameCells_modify. done. Qed.

Lemma wf_emit (e : Event) : preserves wellFormed (emit e).
Proof. apply preserves_sameCells_modify. done. Qed.

Lemma wf_set_selectedTile (x : option loc) :
  preserves wellFormed (modify (set_selectedTile x)).
Proof. apply preserves_sameCells_modify. done. Qed.

Lemma wf_set_isProcessing (x : bool) : preserves wellFormed (modify (set_isProcessing x)).
Proof. apply preserves_sameCells_modify. done. Qed.

Lemma wf_set_comboCount (x : Z) : preserves wellFormed (modify (set_comboCount x)).
Proof. apply preserves_sameCells_modify. done. Qed.

Lemma wf_bump_comboCount :
  preserves wellFormed (modify (fun s => set_comboCount (comboCount s + 1) s)).
Proof. apply preserves_sameCells_modify. done. Qed.

Lemma full_onTile' (l : loc) (f : Tile -> Tile) : preserves full (onTile l f).
Proof. intros s H. exact H. Qed.

Lemma full_randomInt (n : Z) : preserves full (randomInt n).
Proof. intros s H. exact H. Qed.

Lemma full_setTimeout (cb : Callback) (ms : Z) : preserves full (setTimeout cb ms).
Proof. intros s H. exact H. Qed.

Lemma full_emit (e : Event) : preserves full (emit e).
Proof. intros s H. exact H. Qed.

Lemma full_set_selectedTile (x : option loc) :
  preserves full (modify (set_selectedTile x)).
Proof. intros s H. exact H. Qed.

Lemma full_set_isProcessing (x : bool) : preserves full (modify (set_isProcessing x)).
Proof. intros s H. exact H. Qed.

Lemma full_set_comboCount (x : Z) : preserves full (modify (set_comboCount x)).
Proof. intros s H. exact H. Qed.

Lemma full_bump_comboCount :
  preserves full (modify (fun s => set_comboCount (comboCount s + 1) s)).
Proof. intros s H. exact H. Qed.

Create HintDb keeps.
#[export] Hint Resolve wf_onTile wf_clear wf_randomInt wf_setTimeout wf_emit
  wf_set_selectedTile wf_set_isProcessing wf_set_comboCount wf_bump_comboCount
  full_onTile' full_randomInt full_setTimeout full_emit full_set_selectedTile
  full_set_isProcessing full_set_comboCount full_bump_comboCount
  keepsPosition_set_state keepsPosition_set_type keepsPosition_set_target
  keepsPosition_set_animation keepsPosition_Tile_update : keeps.

Ltac keeps_tac :=
  repeat first [ solve [unfold emit, startMoveAnimation, startFallAnimation,
                         startSpawnAnimation, startDestroyAnimation;
                        auto with keeps]
               | preserves_step ].

Lemma wf_selectTile (r c : Z) : preserves wellFormed (selectTile r c).
Proof. unfold selectTile. keeps_tac. Qed.

Lemma full_selectTile (r c : Z) : preserves full (selectTile r c).
Proof. unfold selectTile. keeps_tac. Qed.

Lemma wf_deselectTile : preserves wellFormed deselectTile.
Proof. unfold deselectTile. keeps_tac. Qed.

Lemma full_deselectTile : preserves full deselectTile.
Proof. unfold deselectTile. keeps_tac. Qed.

Lemma wf_update (dt : Q) : preserves wellFormed (update dt).
Proof. unfold update. keeps_tac. Qed.

Lemma full_update (dt : Q) : preserves full (update dt).
Proof. unfold update. keeps_tac. Qed.

Lemma wf_shuffle : preserves wellFormed shuffle.
Proof. unfold shuffle. keeps_tac. Qed.

Lemma full_shuffle : preserves full shuffle.
Proof. unfold shuffle. keeps_tac. Qed.

Lemma wf_swapBack (tile1 tile2 : loc) : preserves wellFormed (swapBack tile1 tile2).
Proof. unfold swapBack. keeps_tac. Qed.

Lemma full_swapBack (tile1 tile2 : loc) : preserves full (swapBack tile1 tile2).
Proof. unfold swapBack. keeps_tac. Qed.

Lemma wf_processMatches (matches : list Match) :
  preserves wellFormed (processMatches matches).
Proof. unfold processMatches. keeps_tac. Qed.

Lemma full_processMatches (matches : list Match) :
  preserves full (processMatches matches).
Proof. unfold processMatches. keeps_tac. Qed.

Lemma wf_removeDestroyedTiles : preserves wellFormed removeDestroyedTiles.
Proof. unfold removeDestroyedTiles. keeps_tac. Qed.

Lemma wf_checkCascade : preserves wellFormed checkCascade.
Proof.
  unfold checkCascade.
  repeat first [ apply wf_processMatches | keeps_tac ].
Qed.

Lemma full_checkCascade : preserves full checkCascade.
Proof.
  unfold checkCascade.
  repeat first [ apply full_processMatches | keeps_tac ].
Qed.

(** ** Swapping *)

Lemma tileAt_setGrid (s : Board) (r c : Z) (v : option loc) (l : loc) :
  tileAt l (snd (setGrid r c v s)) = tileAt l s.
Proof. reflexivity. Qed.

Lemma swapTilesLogical_run (a b : loc) (s : Board) :
  snd (swapTilesLogical a b s)
  = let row1 := row (tileAt a s) in
    let col1 := col (tileAt a s) in
    let row2 := row (tileAt b s) in
    let col2 := col (tileAt b s) in
    snd (onTile b (set_target (calculateScreenPosition row1 col1))
        (snd (onTile a (set_target (calculateScreenPosition row2 col2))
        (snd (onTile b (set_rowcol row1 col1)
        (snd (onTile a (set_rowcol row2 col2)
        (snd (setGrid row2 col2 (Some a)
        (snd (setGrid row1 col1 (Some b) s))))))))))).
Proof. reflexivity. Qed.

(** Swapping two tiles that sit in two different cells of a well-formed
    board exchanges the two cells and the positions the tiles record, and
    touches nothing else. *)
Lemma swapTilesLogical_spec (a b : loc) (ra ca rb cb : Z) (s : Board) :
  wellFormed s ->
  gridAt ra ca s = Some a -> gridAt rb cb s = Some b -> a <> b ->
  let s' := snd (swapTilesLogical a b s) in
  wellFormed s'
  /\ (forall r c,
        gridAt r c s'
        = if decide (r = rb /\ c = cb) then Some a
          else if decide (r = ra /\ c = ca) then Some b
          else gridAt r c s)
  /\ (forall l, type (tileAt l s') = type (tileAt l s)
                /\ state (tileAt l s') = state (tileAt l s)
                /\ animationProgress (tileAt l s') = animationProgress (tileAt l s)
                /\ animationDuration (tileAt l s') = animationDuration (tileAt l s))
  /\ (forall l, l <> a -> l <> b -> tileAt l s' = tileAt l s)
  /\ nextLoc s' = nextLoc s.
Proof.
  intros (W1 & W2 & W3) Ha Hb Hab s'.
  destruct (W2 _ _ _ Ha) as [Hra Hca]. destruct (W2 _ _ _ Hb) as [Hrb Hcb].
  destruct (gridAt_in_grid _ _ _ _ Ha) as (Ha1 & Ha2 & Ha3).
  destruct (gridAt_in_grid _ _ _ _ Hb) as (Hb1 & Hb2 & Hb3).
  assert (forall r c,
        gridAt r c s'
        = if decide (r = rb /\ c = cb) then Some a
          else if decide (r = ra /\ c = ca) then Some b
          else gridAt r c s) as Hcells.
  { intros r c. unfold s'. rewrite swapTilesLogical_run. cbv zeta.
    rewrite Hra, Hca, Hrb, Hcb.
    change (gridAt r c (snd (setGrid rb cb (Some a) (snd (setGrid ra ca (Some b) s))))
            = if decide (r = rb /\ c = cb) then Some a
              else if decide (r = ra /\ c = ca) then Some b
              else gridAt r c s).
    rewrite gridAt_setGrid by (rewrite ?setGrid_length; done).
    destruct (decide (r = rb /\ c = cb)); [done|].
    by rewrite gridAt_setGrid by done. }
  assert (forall l, tileAt l s'
                    = if decide (l = b)
                      then set_target (calculateScreenPosition ra ca)
                             (set_rowcol ra ca (tileAt b s))
                      else if decide (l = a)
                      then set_target (calculateScreenPosition rb cb)
                             (set_rowcol rb cb (tileAt a s))
                      else tileAt l s) as Htiles.
  { intros l. unfold s'. rewrite swapTilesLogical_run. cbv zeta.
    rewrite Hra, Hca, Hrb, Hcb.
    rewrite !tileAt_onTile, !tileAt_setGrid.
    repeat case_decide; subst; done. }
  split; [|split; [exact Hcells|split; [|split]]].
  - split; [|split].
    + unfold s'. rewrite swapTilesLogical_run. cbv zeta.
      change (length (grid (snd (setGrid (row (tileAt b s)) (col (tileAt b s)) (Some a)
                (snd (setGrid (row (tileAt a s)) (col (tileAt a s)) (Some b) s)))))
              = Z.to_nat BOARD_ROWS).
      by rewrite !setGrid_length.
    + intros r c l. rewrite Hcells, Htiles.
      destruct (decide (r = rb /\ c = cb)) as [[-> ->]|Hn1].
      * intros [= <-]. rewrite decide_False by done. by rewrite decide_True.
      * destruct (decide (r = ra /\ c = ca)) as [[-> ->]|Hn2].
        -- intros [= <-]. by rewrite decide_True.
        -- intros Hl.
           rewrite decide_False
             by (intros ->; apply Hn1; destruct (W2 _ _ _ Hl); split; congruence).
           rewrite decide_False
             by (intros ->; apply Hn2; destruct (W2 _ _ _ Hl); split; congruence).
           by apply W2.
    + intros r c l. rewrite Hcells.
      assert (nextLoc s' = nextLoc s) as -> by done.
      destruct (decide (r = rb /\ c = cb)); [intros [= <-]; by apply (W3 ra ca)|].
      destruct (decide (r = ra /\ c = ca)); [intros [= <-]; by apply (W3 rb cb)|].
      apply W3.
  - intros l. rewrite Htiles.
    destruct (decide (l = b)) as [->|]; [done|].
    destruct (decide (l = a)) as [->|]; done.
  - intros l Hla Hlb. rewrite Htiles. by rewrite !decide_False.
  - done.
Qed.

(** An attempted swap: both cells hold a tile, one step apart. *)
Lemma trySwap_attempt (s : Board) (pos1 pos2 : BoardPosition) (a b : loc) :
  isProcessing s = false ->
  negb (((Z.abs (pos_col pos1 - pos_col pos2) =? 1)
         && (Z.abs (pos_row pos1 - pos_row pos2) =? 0))
        || ((Z.abs (pos_col pos1 - pos_col pos2) =? 0)
            && (Z.abs (pos_row pos1 - pos_row pos2) =? 1))) = false ->
  getTile (pos_row pos1) (pos_col pos1) s = Some a ->
  getTile (pos_row pos2) (pos_col pos2) s = Some b ->
  trySwap pos1 pos2 s
  = let s1 := snd (swapTilesLogical a b s) in
    if 0 <? Z.of_nat (length (matchesOf s1)) then
      (modify (set_isProcessing true) >>
       modify (set_comboCount 0) >>
       deselectTile >>
       onTile a (startMoveAnimation SWAP_DURATION) >>
       onTile b (startMoveAnimation SWAP_DURATION) >>
       setTimeout (CbProcessMatches (matchesOf s1)) SWAP_DURATION >>
       ret true) s1
    else
      (swapTilesLogical a b >>
       onTile a (startMoveAnimation SWAP_DURATION) >>
       onTile b (startMoveAnimation SWAP_DURATION) >>
       setTimeout (CbSwapBack a b) SWAP_DURATION >>
       ret false) s1.
Proof.
  intros Hidle Hadj Ha Hb. unfold trySwap.
  rewrite bind_gets, Hidle. cbv zeta. rewrite Hadj.
  rewrite bind_gets, Ha, bind_gets, Hb.
  rewrite bind_run, bind_run, findMatches_spec. cbn [fst snd].
  by destruct (0 <? Z.of_nat (length (matchesOf (snd (swapTilesLogical a b s))))).
Qed.

(** Every call of [trySwap] is a refusal or an attempt. *)
Lemma trySwap_cases (s : Board) (pos1 pos2 : BoardPosition) :
  trySwap pos1 pos2 s = (false, s)
  \/ exists a b,
      isProcessing s = false
      /\ negb (((Z.abs (pos_col pos1 - pos_col pos2) =? 1)
                && (Z.abs (pos_row pos1 - pos_row pos2) =? 0))
               || ((Z.abs (pos_col pos1 - pos_col pos2) =? 0)
                   && (Z.abs (pos_row pos1 - pos_row pos2) =? 1))) = false
      /\ getTile (pos_row pos1) (pos_col pos1) s = Some a
      /\ getTile (pos_row pos2) (pos_col pos2) s = Some b.
Proof.
  destruct (isProcessing s) eqn:Hbusy;
    [left; apply trySwap_refused; by left|].
  destruct (negb _) eqn:Hadj at 1.
  { left. unfold trySwap. rewrite bind_gets, Hbusy. cbv zeta. by rewrite Hadj. }
  destruct (getTile (pos_row pos1) (pos_col pos1) s) as [a|] eqn:Ha.
  2:{ left. unfold trySwap. rewrite bind_gets, Hbusy. cbv zeta.
      by rewrite Hadj, bind_gets, Ha, bind_gets. }
  destruct (getTile (pos_row pos2) (pos_col pos2) s) as [b|] eqn:Hb.
  2:{ left. unfold trySwap. rewrite bind_gets, Hbusy. cbv zeta.
      by rewrite Hadj, bind_gets, Ha, bind_gets, Hb. }
  right. exists a, b. done.
Qed.

Lemma attempt_distinct (s : Board) (pos1 pos2 : BoardPosition) (a b : loc) :
  wellFormed s ->
  negb (((Z.abs (pos_col pos1 - pos_col pos2) =? 1)
         && (Z.abs (pos_row pos1 - pos_row pos2) =? 0))
        || ((Z.abs (pos_col pos1 - pos_col pos2) =? 0)
            && (Z.abs (pos_row pos1 - pos_row pos2) =? 1))) = false ->
  getTile (pos_row pos1) (pos_col pos1) s = Some a ->
  getTile (pos_row pos2) (pos_col pos2) s = Some b ->
  a <> b
  /\ gridAt (pos_row pos1) (pos_col pos1) s = Some a
  /\ gridAt (pos_row pos2) (pos_col pos2) s = Some b.
Proof.
  intros (_ & W2 & _) Hadj Ha Hb.
  apply getTile_Some in Ha as (_ & _ & Ha). apply getTile_Some in Hb as (_ & _ & Hb).
  split; [|done]. intros ->.
  destruct (W2 _ _ _ Ha) as [H1 H2]. destruct (W2 _ _ _ Hb) as [H3 H4].
  apply negb_false_iff, orb_true_iff in Hadj.
  destruct Hadj as [H|H]; apply andb_true_iff in H as [H5 H6];
    apply Z.eqb_eq in H5, H6; lia.
Qed.

Lemma wf_trySwap (pos1 pos2 : BoardPosition) : preserves wellFormed (trySwap pos1 pos2).
Proof.
  intros s Hwf.
  destruct (trySwap_cases s pos1 pos2) as [-> | (a & b & Hidle & Hadj & Ha & Hb)];
    [done|].
  rewrite (trySwap_attempt s pos1 pos2 a b) by done. cbv zeta.
  destruct (attempt_distinct s pos1 pos2 a b Hwf Hadj Ha Hb) as (Hab & Ha' & Hb').
  destruct (swapTilesLogical_spec a b _ _ _ _ s Hwf Ha' Hb' Hab)
    as (Hwf1 & Hcells & _ & _ & _).
  set (s1 := snd (swapTilesLogical a b s)) in *.
  destruct (0 <? Z.of_nat (length (matchesOf s1))).
  - match goal with
    | |- wellFormed (snd (?m ?t)) => assert (preserves wellFormed m) as Hp
    end.
    { repeat first [ apply wf_deselectTile | keeps_tac ]. }
    by apply Hp.
  - rewrite bind_run.
    assert (wellFormed (snd (swapTilesLogical a b s1))) as Hwf2.
    { refine (proj1 (swapTilesLogical_spec a b _ _ _ _ s1 Hwf1 _ _ Hab)).
      - rewrite Hcells. by rewrite decide_True.
      - rewrite Hcells. destruct (decide _) as [[H1 H2]|]; [|by rewrite decide_True].
        exfalso. apply Hab.
        destruct Hwf as (_ & W2 & _).
        destruct (W2 _ _ _ Ha'), (W2 _ _ _ Hb'). rewrite H1, H2 in *.
        assert (Some a = Some b) as [= ->] by congruence. done. }
    match goal with
    | |- wellFormed (snd (?m ?t)) => assert (preserves wellFormed m) as Hp
    end.
    { keeps_tac. }
    by apply Hp.
Qed.

(** Swapping twice puts every tile back. *)
Lemma swapTilesLogical_twice (a b : loc) (ra ca rb cb : Z) (s : Board) :
  wellFormed s ->
  gridAt ra ca s = Some a -> gridAt rb cb s = Some b -> a <> b ->
  let s2 := snd (swapTilesLogical a b (snd (swapTilesLogical a b s))) in
  wellFormed s2
  /\ (forall r c, gridAt r c s2 = gridAt r c s)
  /\ (forall l, type (tileAt l s2) = type (tileAt l s)
                /\ state (tileAt l s2) = state (tileAt l s)
                /\ row (tileAt l s2) = row (tileAt l s)
                /\ col (tileAt l s2) = col (tileAt l s))
  /\ nextLoc s2 = nextLoc s.
Proof.
  intros Hwf Ha Hb Hab s2.
  destruct (swapTilesLogical_spec a b _ _ _ _ s Hwf Ha Hb Hab)
    as (Hwf1 & Hcells1 & Hsame1 & Hother1 & Hnext1).
  set (s1 := snd (swapTilesLogical a b s)) in *.
  assert ((ra, ca) <> (rb, cb)) as Hpos.
  { intros [= -> ->]. apply Hab. congruence. }
  assert (gridAt rb cb s1 = Some a) as Ha1 by (rewrite Hcells1; by rewrite decide_True).
  assert (gridAt ra ca s1 = Some b) as Hb1.
  { rewrite Hcells1. rewrite decide_False by (intros [-> ->]; done).
    by rewrite decide_True. }
  destruct (swapTilesLogical_spec a b _ _ _ _ s1 Hwf1 Ha1 Hb1 Hab)
    as (Hwf2 & Hcells2 & Hsame2 & Hother2 & Hnext2).
  fold s2 in Hwf2, Hcells2, Hsame2, Hother2, Hnext2.
  assert (forall r c, gridAt r c s2 = gridAt r c s) as Hcells.
  { intros r c. rewrite Hcells2, Hcells1.
    destruct (decide (r = ra /\ c = ca)) as [[-> ->]|]; [done|].
    destruct (decide (r = rb /\ c = cb)) as [[-> ->]|]; done. }
  split; [done|]. split; [done|]. split; [|congruence].
  intros l.
  destruct (Hsame2 l) as (T1 & T2 & _). destruct (Hsame1 l) as (T3 & T4 & _).
  split; [congruence|]. split; [congruence|].
  destruct Hwf as (_ & W2 & _). destruct Hwf2 as (_ & W2' & _).
  destruct (decide (l = a)) as [->|Hla].
  { destruct (W2 _ _ _ Ha) as [-> ->].
    rewrite <- Hcells in Ha. by destruct (W2' _ _ _ Ha) as [-> ->]. }
  destruct (decide (l = b)) as [->|Hlb].
  { destruct (W2 _ _ _ Hb) as [-> ->].
    rewrite <- Hcells in Hb. by destruct (W2' _ _ _ Hb) as [-> ->]. }
  by rewrite Hother2, Hother1.
Qed.

Lemma fst_then_ret {A : Type} (m : M unit) (v : A) (s : Board) :
  fst ((m >> ret v) s) = v.
Proof. by rewrite bind_run. Qed.

Lemma snd_then_ret {A : Type} (m : M unit) (v : A) (s : Board) :
  snd ((m >> ret v) s) = snd (m s).
Proof. by rewrite bind_run. Qed.

Lemma swapTilesLogical_fields (a b : loc) (s : Board) :
  let s' := snd (swapTilesLogical a b s) in
  isProcessing s' = isProcessing s /\ comboCount s' = comboCount s
  /\ selectedTile s' = selectedTile s /\ timers s' = timers s
  /\ emitted s' = emitted s.
Proof. done. Qed.

Lemma deselectTile_fields (s : Board) :
  let s' := snd (deselectTile s) in
  selectedTile s' = None /\ grid s' = grid s /\ isProcessing s' = isProcessing s
  /\ comboCount s' = comboCount s /\ timers s' = timers s.
Proof.
  unfold deselectTile. rewrite bind_gets.
  destruct (selectedTile s) eqn:Hsel; [|done].
  rewrite bind_run. done.
Qed.

(** The outcome of an attempt on a well-formed board: the swap is undone
    when it makes no match. *)
Lemma attempt_rejected (s : Board) (a b : loc) (ra ca rb cb : Z) :
  wellFormed s ->
  gridAt ra ca s = Some a -> gridAt rb cb s = Some b -> a <> b ->
  let s' := snd ((swapTilesLogical a b >>
                  onTile a (startMoveAnimation SWAP_DURATION) >>
                  onTile b (startMoveAnimation SWAP_DURATION) >>
                  setTimeout (CbSwapBack a b) SWAP_DURATION >>
                  ret false) (snd (swapTilesLogical a b s))) in
  wellFormed s'
  /\ (forall r c, gridAt r c s' = gridAt r c s)
  /\ (forall l, type (tileAt l s') = type (tileAt l s)
                /\ row (tileAt l s') = row (tileAt l s)
                /\ col (tileAt l s') = col (tileAt l s))
  /\ isProcessing s' = isProcessing s /\ comboCount s' = comboCount s
  /\ selectedTile s' = selectedTile s
  /\ timers s' = timers s ++ [mkTimer (CbSwapBack a b) SWAP_DURATION].
Proof.
  intros Hwf Ha Hb Hab.
  destruct (swapTilesLogical_twice a b _ _ _ _ s Hwf Ha Hb Hab)
    as (Hwf2 & Hcells & Htiles & Hnext).
  destruct (swapTilesLogical_fields a b s) as (F1 & F2 & F3 & F4 & _).
  destruct (swapTilesLogical_fields a b (snd (swapTilesLogical a b s)))
    as (G1 & G2 & G3 & G4 & _).
  rewrite bind_run.
  generalize dependent (snd (swapTilesLogical a b (snd (swapTilesLogical a b s)))).
  intros s2 Hwf2 Hcells Htiles Hnext G1 G2 G3 G4.
  generalize dependent (snd (swapTilesLogical a b s)).
  intros s1 F1 F2 F3 F4 G1 G2 G3 G4.
  rewrite !bind_run. unfold ret. cbn [fst snd]. cbv zeta.
  split.
  { assert (preserves wellFormed
              (onTile a (startMoveAnimation SWAP_DURATION) >>
               onTile b (startMoveAnimation SWAP_DURATION) >>
               setTimeout (CbSwapBack a b) SWAP_DURATION)) as Hp by keeps_tac.
    specialize (Hp s2 Hwf2). by rewrite !bind_run in Hp. }
  split; [exact Hcells|]. split.
  { intros l. destruct (Htiles l) as (T1 & T2 & T3 & T4).
    rewrite <- T1, <- T3, <- T4.
    change (tileAt l (snd (setTimeout (CbSwapBack a b) SWAP_DURATION ?t)))
      with (tileAt l t).
    rewrite !tileAt_onTile. unfold startMoveAnimation.
    repeat case_decide; subst; done. }
  unfold setTimeout, onTile, modify. cbn [fst snd]. simpl.
  repeat split; congruence.
Qed.

(** ... and committed when it makes one. *)
Lemma attempt_accepted (s1 : Board) (a b : loc) (matches : list Match) :
  let s' := snd ((modify (set_isProcessing true) >>
                  modify (set_comboCount 0) >>
                  deselectTile >>
                  onTile a (startMoveAnimation SWAP_DURATION) >>
                  onTile b (startMoveAnimation SWAP_DURATION) >>
                  setTimeout (CbProcessMatches matches) SWAP_DURATION >>
                  ret true) s1) in
  (forall r c, gridAt r c s' = gridAt r c s1)
  /\ isProcessing s' = true /\ comboCount s' = 0 /\ selectedTile s' = None
  /\ timers s' = timers s1 ++ [mkTimer (CbProcessMatches matches) SWAP_DURATION].
Proof.
  rewrite !bind_modify, bind_run.
  destruct (deselectTile_fields (set_comboCount 0 (set_isProcessing true s1)))
    as (D1 & D2 & D3 & D4 & D5).
  generalize dependent (snd (deselectTile (set_comboCount 0 (set_isProcessing true s1)))).
  intros s3 D1 D2 D3 D4 D5.
  rewrite !bind_run. unfold ret, onTile, setTimeout, modify. cbn [fst snd]. cbv zeta.
  split.
  { intros r c. unfold gridAt. simpl. by rewrite D2. }
  simpl. rewrite D1, D3, D4, D5. done.
Qed.

Lemma trySwap_outcome (s : Board) (pos1 pos2 : BoardPosition) (a b : loc) :
  wellFormed s ->
  isProcessing s = false ->
  negb (((Z.abs (pos_col pos1 - pos_col pos2) =? 1)
         && (Z.abs (pos_row pos1 - pos_row pos2) =? 0))
        || ((Z.abs (pos_col pos1 - pos_col pos2) =? 0)
            && (Z.abs (pos_row pos1 - pos_row pos2) =? 1))) = false ->
  getTile (pos_row pos1) (pos_col pos1) s = Some a ->
  getTile (pos_row pos2) (pos_col pos2) s = Some b ->
  let s1 := snd (swapTilesLogical a b s) in
  let s' := snd (trySwap pos1 pos2 s) in
  (matchesOf s1 <> []
   /\ fst (trySwap pos1 pos2 s) = true
   /\ (forall r c, gridAt r c s' = gridAt r c s1)
   /\ isProcessing s' = true /\ comboCount s' = 0 /\ selectedTile s' = None
   /\ timers s' = timers s ++ [mkTimer (CbProcessMatches (matchesOf s1)) SWAP_DURATION])
  \/ (matchesOf s1 = []
      /\ fst (trySwap pos1 pos2 s) = false
      /\ (forall r c, gridAt r c s' = gridAt r c s)
      /\ (forall l, type (tileAt l s') = type (tileAt l s)
                    /\ row (tileAt l s') = row (tileAt l s)
                    /\ col (tileAt l s') = col (tileAt l s))
      /\ isProcessing s' = false /\ comboCount s' = comboCount s
      /\ selectedTile s' = selectedTile s
      /\ timers s' = timers s ++ [mkTimer (CbSwapBack a b) SWAP_DURATION]).
Proof.
  intros Hwf Hidle Hadj Ha Hb. cbv zeta.
  rewrite (trySwap_attempt s pos1 pos2 a b) by done. cbv zeta.
  destruct (attempt_distinct s pos1 pos2 a b Hwf Hadj Ha Hb) as (Hab & Ha' & Hb').
  destruct (attempt_rejected s a b _ _ _ _ Hwf Ha' Hb' Hab)
    as (_ & R1 & R2 & R3 & R4 & R5 & R6).
  destruct (swapTilesLogical_fields a b s) as (_ & _ & _ & F4 & _).
  pose proof (fun ms => attempt_accepted (snd (swapTilesLogical a b s)) a b ms) as Hacc.
  generalize dependent (snd (swapTilesLogical a b s)). intros s1 R1 R2 R3 R4 R5 R6 F4 Hacc.
  destruct (matchesOf s1) as [|m ms] eqn:Hms.
  - right. split; [done|].
    change (0 <? Z.of_nat (length (@nil Match))) with false. cbv iota.
    split; [by rewrite !bind_run|].
    repeat split; try done; try apply R2. congruence.
  - left. split; [done|].
    change (0 <? Z.of_nat (length (m :: ms))) with true. cbv iota.
    split; [by rewrite !bind_run|].
    destruct (Hacc (m :: ms)) as (A1 & A2 & A3 & A4 & A5).
    repeat split; try done. by rewrite A5, F4.
Qed.

Lemma full_cells (s s' : Board) :
  (forall r c, gridAt r c s' = gridAt r c s) -> full s -> full s'.
Proof. intros Hcells Hfull r c Hr Hc. rewrite Hcells. by apply Hfull. Qed.

Lemma full_trySwap (pos1 pos2 : BoardPosition) (s : Board) :
  wellFormed s -> full s -> full (snd (trySwap pos1 pos2 s)).
Proof.
  intros Hwf Hfull.
  destruct (trySwap_cases s pos1 pos2) as [-> | (a & b & Hidle & Hadj & Ha & Hb)];
    [done|].
  destruct (attempt_distinct s pos1 pos2 a b Hwf Hadj Ha Hb) as (Hab & Ha' & Hb').
  destruct (swapTilesLogical_spec a b _ _ _ _ s Hwf Ha' Hb' Hab)
    as (_ & Hcells & _).
  destruct (trySwap_outcome s pos1 pos2 a b Hwf Hidle Hadj Ha Hb)
    as [(_ & _ & A & _) | (_ & _ & R & _)].
  - intros r c Hr Hc. rewrite A, Hcells.
    repeat case_decide; try done. by apply Hfull.
  - by apply (full_cells s).
Qed.

(** ** The valid-move check restores the grid *)

Lemma arraySet_in_range {A : Type} (d : A) (l : list A) (i : nat) (x : A) :
  (i < length l)%nat -> arraySet d l i x = <[i := x]> l.
Proof. intros H. unfold arraySet. by rewrite decide_True. Qed.

Lemma update2_lookup_row {A : Type} (d : A) (g : list (list A)) (r c : Z) (v : A)
      (i : nat) :
  0 <= r -> 0 <= c ->
  update2 d g r c v !! i
  = (fun cells => if decide (i = Z.to_nat r) then arraySet d cells (Z.to_nat c) v
                  else cells) <$> (g !! i).
Proof.
  intros Hr Hc. unfold update2.
  replace ((r <? 0) || (c <? 0)) with false
    by (symmetry; apply orb_false_iff; split; apply Z.ltb_ge; lia).
  destruct (g !! Z.to_nat r) as [cells|] eqn:Hrow.
  - destruct (decide (i = Z.to_nat r)) as [->|Hne].
    + rewrite list_lookup_insert_eq by (by apply lookup_lt_Some in Hrow).
      by rewrite Hrow.
    + rewrite list_lookup_insert_ne by done.
      by destruct (g !! i).
  - destruct (g !! i) eqn:Hi; cbn [fmap option_fmap option_map]; [|done].
    rewrite decide_False; [done|]. intros ->. congruence.
Qed.

(** Writing [b] over [a] in one cell and [a] over [b] in another, and then
    writing both back, leaves a list of rows as it was. *)
Lemma update2_restore {A : Type} (d : A) (g : list (list A)) (r1 c1 r2 c2 : Z)
      (a b : A) (cells1 cells2 : list A) :
  0 <= r1 -> 0 <= c1 -> 0 <= r2 -> 0 <= c2 ->
  g !! Z.to_nat r1 = Some cells1 -> cells1 !! Z.to_nat c1 = Some a ->
  g !! Z.to_nat r2 = Some cells2 -> cells2 !! Z.to_nat c2 = Some b ->
  update2 d (update2 d (update2 d (update2 d g r1 c1 b) r2 c2 a) r1 c1 a) r2 c2 b = g.
Proof.
  intros Hr1 Hc1 Hr2 Hc2 Hrow1 Hcell1 Hrow2 Hcell2.
  pose proof (lookup_lt_Some _ _ _ Hcell1) as Hlen1.
  pose proof (lookup_lt_Some _ _ _ Hcell2) as Hlen2.
  apply list_eq. intros i. rewrite !update2_lookup_row by done.
  destruct (g !! i) as [cells|] eqn:Hi; [|done].
  cbn [fmap option_fmap option_map]. f_equal.
  destruct (decide (i = Z.to_nat r1)) as [Heq1|Hn1];
    destruct (decide (i = Z.to_nat r2)) as [Heq|Hn2].
  - assert (cells = cells1) as -> by congruence.
    assert (cells1 = cells2) as <- by congruence.
    rewrite (arraySet_in_range d cells1) by done.
    rewrite (arraySet_in_range d (<[_ := _]> cells1)) by (by rewrite length_insert).
    rewrite (arraySet_in_range d (<[_ := _]> (<[_ := _]> cells1)))
      by (by rewrite !length_insert).
    rewrite (arraySet_in_range d (<[_ := _]> (<[_ := _]> (<[_ := _]> cells1))))
      by (by rewrite !length_insert).
    destruct (decide (Z.to_nat c1 = Z.to_nat c2)) as [Hc|Hc].
    + rewrite Hc in *. assert (a = b) as -> by congruence.
      rewrite !list_insert_insert_eq. by apply list_insert_id.
    + rewrite (list_insert_insert_ne _ (Z.to_nat c1) (Z.to_nat c2) a a) by done.
      rewrite !list_insert_insert_eq.
      rewrite (list_insert_id cells1 (Z.to_nat c1) a) by done.
      by apply list_insert_id.
  - assert (cells = cells1) as -> by congruence.
    rewrite (arraySet_in_range d cells1) by done.
    rewrite (arraySet_in_range d (<[_ := _]> cells1)) by (by rewrite length_insert).
    rewrite list_insert_insert_eq. by apply list_insert_id.
  - rewrite Heq in Hi. assert (cells = cells2) as -> by congruence.
    rewrite (arraySet_in_range d cells2) by done.
    rewrite (arraySet_in_range d (<[_ := _]> cells2)) by (by rewrite length_insert).
    rewrite list_insert_insert_eq. by apply list_insert_id.
  - done.
Qed.

Lemma gridAt_raw (s : Board) (r c : Z) (l : loc) :
  gridAt r c s = Some l ->
  0 <= r /\ 0 <= c
  /\ exists cells, grid s !! Z.to_nat r = Some cells
                   /\ cells !! Z.to_nat c = Some (Some l).
Proof.
  unfold gridAt, lookup2. intros H.
  destruct ((r <? 0) || (c <? 0)) eqn:Hneg; [done|].
  apply orb_false_iff in Hneg as [Hr Hc]. apply Z.ltb_ge in Hr, Hc.
  destruct (grid s !! Z.to_nat r) as [cells|] eqn:Hcells; [|done].
  destruct (cells !! Z.to_nat c) as [v|] eqn:Hv; [|done]. simpl in H. subst v.
  split; [done|]. split; [done|]. by exists cells.
Qed.

(** [wouldMatchAfterSwap] leaves the board exactly as it found it. *)
Lemma wouldMatchAfterSwap_restores (pos1 pos2 : BoardPosition) (s : Board) :
  snd (wouldMatchAfterSwap pos1 pos2 s) = s.
Proof.
  unfold wouldMatchAfterSwap. rewrite !bind_gets.
  destruct (getTile (pos_row pos1) (pos_col pos1) s) as [a|] eqn:Ha; [|done].
  destruct (getTile (pos_row pos2) (pos_col pos2) s) as [b|] eqn:Hb; [|done].
  apply getTile_Some in Ha as (_ & _ & Ha). apply getTile_Some in Hb as (_ & _ & Hb).
  apply gridAt_raw in Ha as (Hr1 & Hc1 & cells1 & Hrow1 & Hcell1).
  apply gridAt_raw in Hb as (Hr2 & Hc2 & cells2 & Hrow2 & Hcell2).
  pose proof (update2_restore None (grid s) _ _ _ _ _ _ _ _
                Hr1 Hc1 Hr2 Hc2 Hrow1 Hcell1 Hrow2 Hcell2) as Hrestore.
  unfold setGrid. rewrite !bind_modify, !bind_gets.
  match goal with
  | |- snd (bind (if ?x then _ else _) _ _) = _ => destruct x
  end.
  - rewrite bind_ret, !bind_modify. unfold ret. cbn [snd]. simpl grid.
    rewrite Hrestore. by destruct s.
  - rewrite bind_gets, !bind_modify. unfold ret. cbn [snd]. simpl grid.
    rewrite Hrestore. by destruct s.
Qed.

(** So does [hasValidMoves]. *)
Lemma hasValidMoves_restores (s : Board) : snd (hasValidMoves s) = s.
Proof.
  assert (preserves (fun t => t = s) hasValidMoves) as H.
  { unfold hasValidMoves.
    repeat first [ preserves_step
                 | intros t ->; apply wouldMatchAfterSwap_restores ]. }
  by apply H.
Qed.

(** ** Gravity *)

(** A loop invariant that knows how many iterations have run. *)
Lemma forM_invariant_nth {I A : Type} (body : I -> A -> M A) (l : list I) :
  forall (P : nat -> A -> Board -> Prop),
    (forall k i a s, l !! k = Some i -> P k a s ->
                     P (S k) (fst (body i a s)) (snd (body i a s))) ->
    forall a s, P 0%nat a s ->
                P (length l) (fst (forM l body a s)) (snd (forM l body a s)).
Proof.
  induction l as [|i l IH]; intros P Hbody a s H0; simpl.
  - exact H0.
  - rewrite bind_run. apply (IH (fun k => P (S k))).
    + intros k j b t Hj. by apply (Hbody (S k)).
    + by apply (Hbody 0%nat).
Qed.

Lemma rows_bottom_up (k : nat) (i : Z) :
  reverse (seqZ 0 BOARD_ROWS) !! k = Some i -> i = 7 - Z.of_nat k /\ (k < 8)%nat.
Proof.
  change (reverse (seqZ 0 BOARD_ROWS)) with [7; 6; 5; 4; 3; 2; 1; 0].
  do 8 (destruct k as [|k]; [intros [= <-]; split; [reflexivity | lia]|]).
  done.
Qed.

Lemma omap_id_none {A B : Type} (f : A -> option B) (l : list A) :
  (forall x, x ∈ l -> f x = None) -> omap id (map f l) = [].
Proof.
  induction l as [|a l IH]; intros Hnone; [done|]. simpl.
  rewrite (Hnone a (list_elem_of_here _ _)). apply IH.
  intros x Hx. apply Hnone. by apply list_elem_of_further.
Qed.

Lemma omap_id_cons_None {A : Type} (l : list (option A)) :
  omap id (None :: l) = omap id l.
Proof. reflexivity. Qed.

Lemma omap_id_cons_Some {A : Type} (x : A) (l : list (option A)) :
  omap id (Some x :: l) = x :: omap id l.
Proof. reflexivity. Qed.

Lemma columnCells_ext (c : Z) (s s' : Board) (lo n : Z) :
  (forall r, lo <= r < lo + n -> gridAt r c s' = gridAt r c s) ->
  columnCells c s' lo n = columnCells c s lo n.
Proof.
  intros Hext. unfold columnCells. apply map_ext_in.
  intros r Hr%list_elem_of_In%elem_of_seqZ. by apply Hext.
Qed.

Lemma columnCells_cons (c : Z) (s : Board) (lo : Z) (n : nat) :
  columnCells c s lo (Z.of_nat (S n))
  = gridAt lo c s :: columnCells c s (lo + 1) (Z.of_nat n).
Proof. unfold columnCells. by rewrite seqZ_succ. Qed.

Lemma columnCells_app (c : Z) (s : Board) (lo n1 n2 : Z) :
  0 <= n1 -> 0 <= n2 ->
  columnCells c s lo (n1 + n2) = columnCells c s lo n1 ++ columnCells c s (lo + n1) n2.
Proof. intros. unfold columnCells. rewrite seqZ_app by done. apply map_app. Qed.

Lemma columnCells_split (c : Z) (s : Board) (lo n m : Z) :
  0 <= m < n ->
  columnCells c s lo n
  = columnCells c s lo m ++ gridAt (lo + m) c s :: columnCells c s (lo + m + 1) (n - m - 1).
Proof.
  intros Hm. replace n with (m + (1 + (n - m - 1))) at 1 by lia.
  rewrite !columnCells_app by lia. done.
Qed.

Lemma columnCells_none (c : Z) (s : Board) (lo n : Z) :
  (forall r, lo <= r < lo + n -> gridAt r c s = None) ->
  omap id (columnCells c s lo n) = [].
Proof.
  intros Hnone. apply omap_id_none. intros r Hr%elem_of_seqZ. by apply Hnone.
Qed.

(** Moving the tile of cell [(r, c)] down by [e] rows. *)
Lemma move_down (s : Board) (r c e : Z) (t : loc) (x : Z * Z) :
  wellFormed s -> gridAt r c s = Some t -> 0 < e -> r + e < BOARD_ROWS ->
  let s' := snd ((setGrid (r + e) c (Some t) >>
                  setGrid r c None >>
                  onTile t (setBoardPosition (r + e) c) >>
                  onTile t (startFallAnimation (FALL_DURATION_PER_CELL * e)) >>
                  ret x) s) in
  wellFormed s'
  /\ (forall r' c',
        gridAt r' c' s'
        = if decide (r' = r /\ c' = c) then None
          else if decide (r' = r + e /\ c' = c) then Some t
          else gridAt r' c' s)
  /\ (forall l, type (tileAt l s') = type (tileAt l s))
  /\ nextLoc s' = nextLoc s.
Proof.
  intros (W1 & W2 & W3) Ht He Hlow s'.
  destruct (gridAt_in_grid _ _ _ _ Ht) as (Hr & Hc & Hlen).
  assert (forall r' c',
        gridAt r' c' s'
        = if decide (r' = r /\ c' = c) then None
          else if decide (r' = r + e /\ c' = c) then Some t
          else gridAt r' c' s) as Hcells.
  { intros r' c'. unfold s'. rewrite !bind_run. unfold ret. cbn [fst snd].
    change (gridAt r' c' (snd (setGrid r c None (snd (setGrid (r + e) c (Some t) s))))
            = if decide (r' = r /\ c' = c) then None
              else if decide (r' = r + e /\ c' = c) then Some t
              else gridAt r' c' s).
    rewrite gridAt_setGrid by (rewrite ?setGrid_length; done).
    destruct (decide (r' = r /\ c' = c)); [done|].
    rewrite gridAt_setGrid; [done | lia | done |].
    rewrite W1. unfold BOARD_ROWS in *. lia. }
  assert (forall l, tileAt l s'
                    = if decide (l = t)
                      then startFallAnimation (FALL_DURATION_PER_CELL * e)
                             (setBoardPosition (r + e) c (tileAt t s))
                      else tileAt l s) as Htiles.
  { intros l. unfold s'. rewrite !bind_run. unfold ret. cbn [fst snd].
    rewrite !tileAt_onTile, !tileAt_setGrid. repeat case_decide; subst; done. }
  split; [|split; [exact Hcells|split]].
  - split; [|split].
    + unfold s'. rewrite !bind_run. unfold ret. cbn [fst snd].
      change (length (grid (snd (setGrid r c None (snd (setGrid (r + e) c (Some t) s)))))
              = Z.to_nat BOARD_ROWS).
      by rewrite !setGrid_length.
    + intros r' c' l. rewrite Hcells, Htiles.
      destruct (decide (r' = r /\ c' = c)); [done|].
      destruct (decide (r' = r + e /\ c' = c)) as [[-> ->]|].
      * intros [= <-]. by rewrite decide_True.
      * intros Hl. rewrite decide_False; [by apply W2|].
        intros ->. destruct (W2 _ _ _ Hl) as [<- <-].
        destruct (W2 _ _ _ Ht) as [? ?]. tauto.
    + intros r' c' l. rewrite Hcells.
      assert (nextLoc s' = nextLoc s) as -> by done.
      destruct (decide (r' = r /\ c' = c)); [done|].
      destruct (decide (r' = r + e /\ c' = c)); [intros [= <-]; by apply (W3 r c)|].
      apply W3.
  - intros l. rewrite Htiles. by destruct (decide (l = t)) as [->|].
  - done.
Qed.

Lemma compactInv_step (c : Z) (s0 : Board) (k : nat) (i : Z) (a : Z * Z) (s : Board) :
  reverse (seqZ 0 BOARD_ROWS) !! k = Some i ->
  compactInv c s0 k a s ->
  let body := fun (r : Z) '(emptySpaces, maxFallDistance) =>
    let* tile := gets (gridAt r c) in
    match tile with
    | None => ret (emptySpaces + 1, maxFallDistance)
    | Some tile =>
        if 0 <? emptySpaces then
          let newRow := r + emptySpaces in
          setGrid newRow c (Some tile) >>
          setGrid r c None >>
          onTile tile (setBoardPosition newRow c) >>
          onTile tile (startFallAnimation (FALL_DURATION_PER_CELL * emptySpaces)) >>
          ret (emptySpaces, Z.max maxFallDistance emptySpaces)
        else ret (emptySpaces, maxFallDistance)
    end in
  compactInv c s0 (S k) (fst (body i a s)) (snd (body i a s)).
Proof.
  intros Hi (I1 & I2 & I3 & I4 & I5 & I6 & I7 & I8) body.
  apply rows_bottom_up in Hi as [-> Hk].
  destruct a as [e mf]. cbn [fst] in *. unfold body, compactInv. rewrite bind_gets.
  replace (8 - Z.of_nat (S k)) with (7 - Z.of_nat k) by lia.
  assert (gridAt (7 - Z.of_nat k) c s = gridAt (7 - Z.of_nat k) c s0) as Hsame
    by (apply I3; lia).
  destruct (gridAt (7 - Z.of_nat k) c s) as [t|] eqn:Ht.
  - destruct (0 <? e) eqn:He.
    + apply Z.ltb_lt in He.
      destruct (move_down s (7 - Z.of_nat k) c e t (e, Z.max mf e) I2 Ht He)
        as (M1 & M2 & M3 & M4); [unfold BOARD_ROWS; lia|].
      cbv zeta. set (s' := snd _) in *.
      assert (fst ((setGrid (7 - Z.of_nat k + e) c (Some t) >>
                    setGrid (7 - Z.of_nat k) c None >>
                    onTile t (setBoardPosition (7 - Z.of_nat k + e) c) >>
                    onTile t (startFallAnimation (FALL_DURATION_PER_CELL * e)) >>
                    ret (e, Z.max mf e)) s) = (e, Z.max mf e)) as ->
        by (by rewrite !bind_run).
      clearbody s'. cbn [fst].
      split; [lia|]. split; [done|]. split; [|split; [|split; [|split; [|split]]]].
      * intros r c' Hcase. rewrite M2.
        rewrite decide_False by lia. rewrite decide_False by lia.
        apply I3. lia.
      * intros r Hr. rewrite M2.
        destruct (decide (r = 7 - Z.of_nat k /\ c = c)); [done|].
        rewrite decide_False by lia. apply I4. lia.
      * intros r Hr. rewrite M2. rewrite decide_False by lia.
        destruct (decide (r = 7 - Z.of_nat k + e /\ c = c)); [done|].
        apply I5. lia.
      * rewrite !columnCells_cons.
        replace (7 - Z.of_nat k + 1) with (8 - Z.of_nat k) by lia.
        rewrite <- Hsame, M2. rewrite decide_True by done.
        rewrite omap_id_cons_None, omap_id_cons_Some. rewrite <- I6.
        rewrite (columnCells_split c s' _ _ (e - 1)) by lia.
        rewrite (columnCells_split c s _ _ (e - 1)) by lia.
        rewrite !omap_app.
        rewrite (columnCells_none c s') by
          (intros r Hr; rewrite M2, !decide_False by lia; apply I4; lia).
        rewrite (columnCells_none c s) by (intros r Hr; apply I4; lia).
        rewrite M2, decide_False, decide_True by lia.
        rewrite (I4 (8 - Z.of_nat k + (e - 1))) by lia.
        rewrite omap_id_cons_None, omap_id_cons_Some. cbn [app]. f_equal.
        f_equal. apply columnCells_ext. intros r Hr.
        rewrite M2. by rewrite !decide_False by lia.
      * intros l. by rewrite M3.
      * congruence.
    + apply Z.ltb_ge in He. assert (e = 0) as -> by lia.
      unfold ret. cbn [fst snd].
      split; [lia|]. split; [done|]. split; [|split; [|split; [|split; [|split]]]].
      * intros r c' Hcase. apply I3. lia.
      * intros r Hr. lia.
      * intros r Hr. destruct (decide (r = 7 - Z.of_nat k)) as [->|]; [congruence|].
        apply I5. lia.
      * rewrite !columnCells_cons.
        replace (7 - Z.of_nat k + 1) with (8 - Z.of_nat k) by lia.
        rewrite <- Hsame, Ht, ?omap_id_cons_None, ?omap_id_cons_Some. by rewrite I6.
      * done.
      * done.
  - unfold ret. cbn [fst snd].
    split; [lia|]. split; [done|]. split; [|split; [|split; [|split; [|split]]]].
    + intros r c' Hcase. apply I3. lia.
    + intros r Hr. destruct (decide (r = 7 - Z.of_nat k)) as [->|]; [done|].
      apply I4. lia.
    + intros r Hr. apply I5. lia.
    + rewrite !columnCells_cons.
      replace (7 - Z.of_nat k + 1) with (8 - Z.of_nat k) by lia.
      rewrite <- Hsame, Ht, ?omap_id_cons_None, ?omap_id_cons_Some. by rewrite I6.
    + done.
    + done.
Qed.

(** The compaction loop of a column: the tiles of the column are moved to
    its bottom rows, in the same order; nothing else changes. *)
Lemma compactColumn_spec (c mf : Z) (s : Board) :
  wellFormed s ->
  let e := fst (fst (compactColumn c mf s)) in
  let s' := snd (compactColumn c mf s) in
  0 <= e <= BOARD_ROWS
  /\ wellFormed s'
  /\ (forall r c', c' <> c -> gridAt r c' s' = gridAt r c' s)
  /\ (forall r, 0 <= r < e -> gridAt r c s' = None)
  /\ (forall r, e <= r < BOARD_ROWS -> gridAt r c s' <> None)
  /\ columnTiles c s' = columnTiles c s
  /\ (forall l, type (tileAt l s') = type (tileAt l s))
  /\ nextLoc s' = nextLoc s.
Proof.
  intros Hwf e s'.
  assert (compactInv c s 8 (fst (compactColumn c mf s)) s') as Hinv.
  { unfold s', compactColumn.
    apply (forM_invariant_nth _ (reverse (seqZ 0 BOARD_ROWS)) (compactInv c s)).
    - intros k i a t Hi Ha. by apply (compactInv_step c s k i a t).
    - unfold compactInv. cbn [fst].
      split; [lia|]. split; [done|]. split; [done|]. split; [intros; lia|].
      split; [intros; lia|]. done. }
  destruct Hinv as (I1 & I2 & I3 & I4 & I5 & I6 & I7 & I8).
  fold e in I1, I4, I5. unfold BOARD_ROWS.
  split; [lia|]. split; [done|]. split; [intros; apply I3; by left|].
  split; [intros; apply I4; lia|]. split; [intros; apply I5; lia|]. done.
Qed.

(** Creating a tile for the cell [(r, c)]. *)
Lemma spawn_one (s : Board) (r c : Z) (d : Z) (startRow : Z) (x : Z) :
  wellFormed s -> 0 <= r < BOARD_ROWS -> 0 <= c ->
  let s' := snd ((let* ty := randomInt TILE_TYPE_COUNT in
                  let* tile := newTile ty r c in
                  setGrid r c (Some tile) >>
                  onTile tile (startSpawnAnimation d startRow) >>
                  ret x) s) in
  wellFormed s'
  /\ (forall r' c',
        gridAt r' c' s'
        = if decide (r' = r /\ c' = c) then Some (nextLoc s) else gridAt r' c' s)
  /\ (forall l, (l < nextLoc s)%nat -> tileAt l s' = tileAt l s)
  /\ nextLoc s' = S (nextLoc s).
Proof.
  intros (W1 & W2 & W3) Hr Hc s'.
  assert (forall r' c',
        gridAt r' c' s'
        = if decide (r' = r /\ c' = c) then Some (nextLoc s) else gridAt r' c' s)
    as Hcells.
  { intros r' c'. unfold s'. rewrite !bind_run. unfold ret. cbn [fst snd].
    set (ty := fst (randomInt TILE_TYPE_COUNT s)).
    change (gridAt r' c'
              (snd (setGrid r c (Some (nextLoc s))
                      (snd (newTile ty r c (snd (randomInt TILE_TYPE_COUNT s))))))
            = if decide (r' = r /\ c' = c) then Some (nextLoc s) else gridAt r' c' s).
    rewrite gridAt_setGrid; [done | lia | done |].
    change (Z.to_nat r < length (grid s))%nat. rewrite W1. unfold BOARD_ROWS in *. lia. }
  assert (forall l, tileAt l s'
                    = if decide (l = nextLoc s)
                      then startSpawnAnimation d startRow
                             (Tile_new (fst (randomInt TILE_TYPE_COUNT s)) r c)
                      else tileAt l s) as Htiles.
  { intros l. unfold s'. rewrite !bind_run. unfold ret. cbn [fst snd].
    set (ty := fst (randomInt TILE_TYPE_COUNT s)).
    change (fst (newTile ty r c (snd (randomInt TILE_TYPE_COUNT s)))) with (nextLoc s).
    rewrite !tileAt_onTile, !tileAt_setGrid, !tileAt_newTile.
    change (nextLoc (snd (randomInt TILE_TYPE_COUNT s))) with (nextLoc s).
    destruct (decide (l = nextLoc s)) as [->|Hl].
    - by rewrite ?decide_True.
    - reflexivity. }
  assert (nextLoc s' = S (nextLoc s)) as Hnext
    by (unfold s'; rewrite !bind_run; reflexivity).
  split; [|split; [exact Hcells|split; [|exact Hnext]]].
  - split; [|split].
    + rewrite <- W1. unfold s'. rewrite !bind_run. unfold ret. cbn [fst snd].
      set (ty := fst (randomInt TILE_TYPE_COUNT s)).
      change (length (grid (snd (setGrid r c (Some (nextLoc s))
                (snd (newTile ty r c (snd (randomInt TILE_TYPE_COUNT s)))))))
              = length (grid s)).
      by rewrite setGrid_length.
    + intros r' c' l. rewrite Hcells, Htiles.
      destruct (decide (r' = r /\ c' = c)) as [[-> ->]|].
      * intros [= <-]. by rewrite decide_True.
      * intros Hl. rewrite decide_False; [by apply W2|].
        apply W3 in Hl. lia.
    + intros r' c' l. rewrite Hcells, Hnext.
      destruct (decide (r' = r /\ c' = c)); [intros [= <-]; lia|].
      intros Hl%W3. lia.
  - intros l Hl. rewrite Htiles. rewrite decide_False by lia. done.
Qed.

Lemma spawnInv_step (c e : Z) (s0 : Board) (k : nat) (i : Z) (a : Z) (s : Board) :
  0 <= c -> e <= BOARD_ROWS ->
  seqZ 0 e !! k = Some i ->
  spawnInv c e s0 k s ->
  let body := fun (i : Z) (maxFallDistance : Z) =>
    let r := e - 1 - i in
    let* ty := randomInt TILE_TYPE_COUNT in
    let* tile := newTile ty r c in
    setGrid r c (Some tile) >>
    onTile tile (startSpawnAnimation (SPAWN_DURATION + i * 50) (-1 - i)) >>
    ret (Z.max maxFallDistance e) in
  spawnInv c e s0 (S k) (snd (body i a s)).
Proof.
  intros Hc He Hi (I1 & I2 & I3 & I4 & I5) body.
  apply lookup_seqZ in Hi as [-> Hk].
  destruct (spawn_one s (e - 1 - (0 + Z.of_nat k)) c (SPAWN_DURATION + (0 + Z.of_nat k) * 50)
              (-1 - (0 + Z.of_nat k)) (Z.max a e) I1) as (M1 & M2 & M3 & M4);
    [lia | done |].
  unfold body. cbv zeta. set (s' := snd _) in *. clearbody s'.
  split; [done|]. split; [|split; [|split]].
  - intros r c' Hcase. rewrite M2, decide_False by lia. apply I2. lia.
  - intros r Hr. rewrite M2.
    destruct (decide (r = e - 1 - (0 + Z.of_nat k) /\ c = c)).
    + exists (nextLoc s). split; [done | lia].
    + apply I3. lia.
  - intros l Hl. rewrite M3 by lia. by apply I4.
  - lia.
Qed.

(** The spawn loop of a column fills its [e] top cells with new tiles and
    touches nothing else. *)
Lemma spawnColumn_spec (c e mf : Z) (s : Board) :
  wellFormed s -> 0 <= c -> e <= BOARD_ROWS ->
  let s' := snd (spawnColumn c e mf s) in
  wellFormed s'
  /\ (forall r c', c' <> c \/ e <= r -> gridAt r c' s' = gridAt r c' s)
  /\ (forall r, 0 <= r < e -> exists l, gridAt r c s' = Some l /\ (nextLoc s <= l)%nat)
  /\ (forall l, (l < nextLoc s)%nat -> tileAt l s' = tileAt l s)
  /\ nextLoc s' = (nextLoc s + Z.to_nat e)%nat.
Proof.
  intros Hwf Hc He s'.
  assert (spawnInv c e s (length (seqZ 0 e)) s') as Hinv.
  { unfold s', spawnColumn.
    apply (forM_invariant_nth _ (seqZ 0 e) (fun k _ => spawnInv c e s k)).
    - intros k i a t Hi Ha. by apply (spawnInv_step c e s k i a t).
    - split; [done|]. split; [done|]. split; [intros; lia|]. split; [done | lia]. }
  rewrite length_seqZ in Hinv. destruct Hinv as (I1 & I2 & I3 & I4 & I5).
  split; [done|]. split; [intros; apply I2; lia|].
  split; [intros; apply I3; lia|]. done.
Qed.

(** One column of [applyGravity]: afterwards the column is full, and the
    other columns are as they were. *)
Lemma gravityColumn_spec (c mf : Z) (s : Board) :
  wellFormed s -> 0 <= c ->
  let s' := snd (gravityColumn c mf s) in
  wellFormed s'
  /\ (forall r c', c' <> c -> gridAt r c' s' = gridAt r c' s)
  /\ (forall r, 0 <= r < BOARD_ROWS -> gridAt r c s' <> None)
  /\ (forall l, (l < nextLoc s)%nat -> type (tileAt l s') = type (tileAt l s))
  /\ (nextLoc s <= nextLoc s')%nat.
Proof.
  intros Hwf Hc s'.
  destruct (compactColumn_spec c mf s Hwf) as (C1 & C2 & C3 & C4 & C5 & C6 & C7 & C8).
  unfold s', gravityColumn. rewrite bind_run.
  destruct (compactColumn c mf s) as [[e mf'] s1]. cbn [fst snd] in *.
  destruct (spawnColumn_spec c e mf' s1 C2 Hc) as (S1 & S2 & S3 & S4 & S5); [lia|].
  set (s2 := snd _) in *. clearbody s2.
  split; [done|]. split; [|split; [|split]].
  - intros r c' Hc'. rewrite S2 by (by left). by apply C3.
  - intros r Hr. destruct (decide (r < e)) as [Hlt|Hge].
    + destruct (S3 r) as (l & -> & _); [lia | done].
    + rewrite S2 by lia. apply C5. lia.
  - intros l Hl. rewrite S4 by lia. apply C7.
  - lia.
Qed.

Ltac frame_tac :=
  repeat first [ preserves_step | (intros ? ?; assumption) ].

Lemma timers_gravityColumn (v : list Timer) (c mf : Z) :
  preserves (fun s => timers s = v) (gravityColumn c mf).
Proof. unfold gravityColumn, compactColumn, spawnColumn. frame_tac. Qed.

(** [applyGravity] leaves a well-formed board with every cell occupied;
    the tiles that were there keep their types, and one timer is added,
    for [checkCascade], of at least 650 ms. *)
Lemma applyGravity_spec (s : Board) :
  wellFormed s ->
  let s' := snd (applyGravity s) in
  wellFormed s' /\ full s'
  /\ (forall l, (l < nextLoc s)%nat -> type (tileAt l s') = type (tileAt l s))
  /\ exists waitTime,
       timers s' = timers s ++ [mkTimer CbCheckCascade waitTime] /\ 650 <= waitTime.
Proof.
  intros Hwf s'.
  set (P := fun (k : nat) (_ : Z) (t : Board) =>
              wellFormed t
              /\ (forall r c, 0 <= r < BOARD_ROWS -> 0 <= c < Z.of_nat k ->
                              gridAt r c t <> None)
              /\ (forall l, (l < nextLoc s)%nat -> type (tileAt l t) = type (tileAt l s))
              /\ (nextLoc s <= nextLoc t)%nat
              /\ timers t = timers s).
  assert (forall a, P (length (seqZ 0 BOARD_COLS))
                      (fst (forM (seqZ 0 BOARD_COLS) gravityColumn a s))
                      (snd (forM (seqZ 0 BOARD_COLS) gravityColumn a s))) as Hloop.
  { intros a. apply (forM_invariant_nth gravityColumn (seqZ 0 BOARD_COLS) P).
    - intros k c mf t Hc (I1 & I2 & I3 & I4 & I5).
      apply lookup_seqZ in Hc as [-> Hk].
      destruct (gravityColumn_spec (0 + Z.of_nat k) mf t I1) as (G1 & G2 & G3 & G4 & G5);
        [lia|].
      assert (timers (snd (gravityColumn (0 + Z.of_nat k) mf t)) = timers s) as G6
        by (by apply timers_gravityColumn).
      set (t' := snd _) in *. clearbody t'.
      split; [done|]. split; [|split; [|split]].
      + intros r c Hr Hc. destruct (decide (c = 0 + Z.of_nat k)) as [->|Hne].
        * by apply G3.
        * rewrite G2 by done. apply I2; [done | lia].
      + intros l Hl. rewrite G4 by lia. by apply I3.
      + lia.
      + done.
    - split; [done|]. split; [intros; lia|]. done. }
  specialize (Hloop 0). rewrite length_seqZ in Hloop.
  unfold s', applyGravity. rewrite bind_run.
  change (forM (seqZ 0 BOARD_COLS)
            (fun c maxFallDistance =>
               let* (emptySpaces, maxFallDistance) := compactColumn c maxFallDistance in
               spawnColumn c emptySpaces maxFallDistance) 0 s)
    with (forM (seqZ 0 BOARD_COLS) gravityColumn 0 s).
  destruct (forM (seqZ 0 BOARD_COLS) gravityColumn 0 s) as [mf s1].
  cbn [fst snd] in *. destruct Hloop as (I1 & I2 & I3 & I4 & I5).
  split; [|split; [|split]].
  - revert I1. apply wellFormed_sameCells. done.
  - intros r c Hr Hc. apply (I2 r c); [done | unfold BOARD_COLS in *; lia].
  - exact I3.
  - eexists. split.
    + unfold setTimeout, modify. cbn [snd timers set_timers]. by rewrite I5.
    + unfold SPAWN_DURATION, BOARD_ROWS. lia.
Qed.
(** ** Removing the destroyed tiles *)

Lemma removeInv_cell (s0 : Board) (k j : Z) (s : Board) :
  0 <= j < BOARD_COLS ->
  removeInv s0 k j s ->
  let body :=
    let* tile := gets (gridAt k j) in
    match tile with
    | Some tile =>
        let* destroying := gets (fun s => isDestroying (tileAt tile s)) in
        if destroying then setGrid k j None else ret tt
    | None => ret tt
    end in
  removeInv s0 k (j + 1) (snd (body s)).
Proof.
  intros Hj (I1 & I2 & I3 & I4) body. unfold body. rewrite bind_gets.
  assert (gridAt k j s = gridAt k j s0) as Hcell
    by (rewrite I4; apply decide_False; lia).
  assert (forall l, tileAt l s = tileAt l s0) as Htile
    by (intros l; unfold tileAt; by rewrite I2).
  assert (forall r c,
            (if decide ((r < k \/ (r = k /\ c < j + 1)) /\ 0 <= c < BOARD_COLS)
             then cleared s0 r c else gridAt r c s0)
            = if decide (r = k /\ c = j) then cleared s0 k j
              else if decide ((r < k \/ (r = k /\ c < j)) /\ 0 <= c < BOARD_COLS)
                   then cleared s0 r c else gridAt r c s0) as Hsplit.
  { intros r c. destruct (decide (r = k /\ c = j)) as [[-> ->]|Hne].
    - apply decide_True. lia.
    - repeat case_decide; try done; lia. }
  destruct (gridAt k j s) as [l|] eqn:Hl.
  - rewrite bind_gets. rewrite Htile.
    destruct (gridAt_in_grid _ _ _ _ Hl) as (Hk0 & Hj0 & Hlen).
    destruct (isDestroying (tileAt l s0)) eqn:Hd.
    + split; [by rewrite setGrid_length|]. split; [done|]. split; [done|].
      intros r c. rewrite gridAt_setGrid by done. rewrite Hsplit.
      destruct (decide (r = k /\ c = j)); [|apply I4].
      unfold cleared. by rewrite <- Hcell, Hd.
    + split; [done|]. split; [done|]. split; [done|].
      intros r c. unfold ret. cbn [snd]. rewrite Hsplit.
      destruct (decide (r = k /\ c = j)) as [[-> ->]|]; [|apply I4].
      unfold cleared. rewrite <- Hcell, Hd. done.
  - split; [done|]. split; [done|]. split; [done|].
    intros r c. unfold ret. cbn [snd]. rewrite Hsplit.
    destruct (decide (r = k /\ c = j)) as [[-> ->]|]; [|apply I4].
    unfold cleared. rewrite <- Hcell. done.
Qed.

Lemma removeInv_row (s0 : Board) (k : Z) (s : Board) :
  removeInv s0 k 0 s ->
  let body :=
    forM_ (seqZ 0 BOARD_COLS) (fun c =>
      let* tile := gets (gridAt k c) in
      match tile with
      | Some tile =>
          let* destroying := gets (fun s => isDestroying (tileAt tile s)) in
          if destroying then setGrid k c None else ret tt
      | None => ret tt
      end) in
  removeInv s0 (k + 1) 0 (snd (body s)).
Proof.
  intros Hinv body.
  assert (removeInv s0 k (Z.of_nat (length (seqZ 0 BOARD_COLS))) (snd (body s))) as Hrow.
  { unfold body, forM_.
    apply (forM_invariant_nth _ (seqZ 0 BOARD_COLS)
             (fun j _ t => removeInv s0 k (Z.of_nat j) t)); [|done].
    intros j c [] t Hc Ht. apply lookup_seqZ in Hc as [-> Hj].
    replace (Z.of_nat (S j)) with (Z.of_nat j + 1) by lia.
    replace (0 + Z.of_nat j) with (Z.of_nat j) by lia.
    apply (removeInv_cell s0 k (Z.of_nat j) t); [lia | done]. }
  rewrite length_seqZ in Hrow. destruct Hrow as (I1 & I2 & I3 & I4).
  split; [done|]. split; [done|]. split; [done|].
  intros r c. rewrite I4.
  repeat case_decide; try done; unfold BOARD_COLS in *; lia.
Qed.

(** [removeDestroyedTiles] empties the cells of the 8 x 8 board that hold a
    tile being destroyed, and does nothing else. *)
Lemma removeDestroyedTiles_spec (s : Board) :
  let s' := snd (removeDestroyedTiles s) in
  length (grid s') = length (grid s)
  /\ heap s' = heap s /\ nextLoc s' = nextLoc s
  /\ forall r c,
       gridAt r c s'
       = if decide (r < BOARD_ROWS /\ 0 <= c < BOARD_COLS) then cleared s r c
         else gridAt r c s.
Proof.
  intros s'.
  assert (removeInv s (Z.of_nat (length (seqZ 0 BOARD_ROWS))) 0 s') as Hinv.
  { unfold s', removeDestroyedTiles, forM_ at 1.
    apply (forM_invariant_nth _ (seqZ 0 BOARD_ROWS)
             (fun k _ t => removeInv s (Z.of_nat k) 0 t)).
    - intros k r [] t Hr Ht. apply lookup_seqZ in Hr as [-> Hk].
      replace (Z.of_nat (S k)) with (Z.of_nat k + 1) by lia.
      replace (0 + Z.of_nat k) with (Z.of_nat k) by lia.
      by apply (removeInv_row s (Z.of_nat k) t).
    - split; [done|]. split; [done|]. split; [done|].
      intros r c. unfold cleared.
      case_decide as Hcase; [|done].
      destruct (gridAt r c s) as [l|] eqn:Hl; [|done].
      apply gridAt_in_grid in Hl. lia. }
  rewrite length_seqZ in Hinv. destruct Hinv as (I1 & I2 & I3 & I4).
  split; [done|]. split; [done|]. split; [done|].
  intros r c. rewrite I4.
  repeat case_decide; try done; unfold BOARD_ROWS in *; lia.
Qed.

Lemma columnTiles_cleared (s s' : Board) (c : Z) (rows : list Z) :
  (forall r, r ∈ rows -> gridAt r c s' = cleared s r c) ->
  omap id (map (fun r => gridAt r c s') rows)
  = filter (fun l => isDestroying (tileAt l s) = false)
           (omap id (map (fun r => gridAt r c s) rows)).
Proof.
  intros Hcells. induction rows as [|r rows IH]; [done|].
  assert (forall r', r' ∈ rows -> gridAt r' c s' = cleared s r' c) as Hrest
    by (intros r' Hr'; apply Hcells; by apply list_elem_of_further).
  specialize (IH Hrest).
  rewrite !map_cons, Hcells by apply list_elem_of_here. unfold cleared.
  destruct (gridAt r c s) as [l|]; [|by rewrite !omap_id_cons_None].
  rewrite omap_id_cons_Some, filter_cons.
  destruct (isDestroying (tileAt l s)) eqn:Hd.
  - rewrite omap_id_cons_None, IH. by rewrite decide_False.
  - rewrite omap_id_cons_Some, IH. by rewrite decide_True.
Qed.

(** After the removal, a column holds its tiles that are not being
    destroyed, in the same order. *)
Lemma columnTiles_removeDestroyedTiles (s : Board) (c : Z) :
  0 <= c < BOARD_COLS ->
  columnTiles c (snd (removeDestroyedTiles s))
  = filter (fun l => isDestroying (tileAt l s) = false) (columnTiles c s).
Proof.
  intros Hc. destruct (removeDestroyedTiles_spec s) as (_ & _ & _ & Hcells).
  unfold columnTiles, columnCells.
  apply columnTiles_cleared. intros r Hr%elem_of_seqZ.
  rewrite Hcells. by rewrite decide_True by lia.
Qed.

Lemma forM_app {I A : Type} (body : I -> A -> M A) (l1 l2 : list I) (a : A) (s : Board) :
  forM (l1 ++ l2) body a s = (let* a' := forM l1 body a in forM l2 body a') s.
Proof.
  revert a s. induction l1 as [|i l1 IH]; intros a s.
  - reflexivity.
  - cbn [app forM]. rewrite (bind_run (body i a)), IH, !bind_run.
    reflexivity.
Qed.

(** The columns of [applyGravity] before column [n]. *)
Lemma gravity_prefix (n : Z) (a : Z) (s : Board) :
  wellFormed s -> 0 <= n ->
  let s' := snd (forM (seqZ 0 n) gravityColumn a s) in
  wellFormed s'
  /\ (forall r c, n <= c -> gridAt r c s' = gridAt r c s)
  /\ (forall l, (l < nextLoc s)%nat -> type (tileAt l s') = type (tileAt l s))
  /\ (nextLoc s <= nextLoc s')%nat.
Proof.
  intros Hwf Hn s'.
  set (P := fun (k : nat) (_ : Z) (t : Board) =>
              wellFormed t
              /\ (forall r c, Z.of_nat k <= c -> gridAt r c t = gridAt r c s)
              /\ (forall l, (l < nextLoc s)%nat -> type (tileAt l t) = type (tileAt l s))
              /\ (nextLoc s <= nextLoc t)%nat).
  assert (P (length (seqZ 0 n)) (fst (forM (seqZ 0 n) gravityColumn a s)) s') as Hloop.
  { apply (forM_invariant_nth gravityColumn (seqZ 0 n) P).
    - intros k c mf t Hc (I1 & I2 & I3 & I4).
      apply lookup_seqZ in Hc as [-> Hk].
      destruct (gravityColumn_spec (0 + Z.of_nat k) mf t I1) as (G1 & G2 & G3 & G4 & G5);
        [lia|].
      set (t' := snd _) in *. clearbody t'.
      split; [done|]. split; [|split].
      + intros r c Hc. rewrite G2 by lia. apply I2. lia.
      + intros l Hl. rewrite G4 by lia. by apply I3.
      + lia.
    - done. }
  rewrite length_seqZ in Hloop. destruct Hloop as (I1 & I2 & I3 & I4).
  split; [done|]. split; [|done].
  intros r c Hc. apply I2. lia.
Qed.

Lemma gravityColumn_run (c mf : Z) (s : Board) :
  gravityColumn c mf s
  = spawnColumn c (fst (fst (compactColumn c mf s))) (snd (fst (compactColumn c mf s)))
      (snd (compactColumn c mf s)).
Proof.
  unfold gravityColumn. rewrite bind_run. by destruct (compactColumn c mf s) as [[e mf'] s'].
Qed.

(** [applyGravity] is [gravityUpTo c] followed by [gravityFrom c]. *)
Lemma applyGravity_through (c : Z) (s : Board) :
  0 <= c < BOARD_COLS ->
  applyGravity s = (let* (e, mf) := gravityUpTo c in gravityFrom c e mf) s.
Proof.
  intros Hc. unfold applyGravity.
  change (forM (seqZ 0 BOARD_COLS)
            (fun c maxFallDistance =>
               let* (emptySpaces, maxFallDistance) := compactColumn c maxFallDistance in
               spawnColumn c emptySpaces maxFallDistance) 0)
    with (forM (seqZ 0 BOARD_COLS) gravityColumn 0).
  rewrite bind_run.
  replace BOARD_COLS with (c + (BOARD_COLS - c)) at 1 2 by lia.
  rewrite seqZ_app by (unfold BOARD_COLS in *; lia).
  rewrite forM_app, bind_run.
  rewrite (seqZ_cons (0 + c)) by (unfold BOARD_COLS in *; lia).
  replace (0 + c) with c by lia.
  replace (Z.pred (BOARD_COLS - c)) with (BOARD_COLS - c - 1) by lia.
  replace (Z.succ c) with (c + 1) by lia.
  cbn [forM]. rewrite bind_run, !gravityColumn_run.
  unfold gravityUpTo, gravityFrom. rewrite !bind_run.
  destruct (compactColumn c _ _) as [[e mf1] s1]. cbn [fst snd].
  rewrite !bind_run. reflexivity.
Qed.

(** The types of a column when its compaction is over. *)
Lemma gravity_conserves (s : Board) (c : Z) :
  wellFormed s -> 0 <= c < BOARD_COLS ->
  columnTypes c (snd (gravityUpTo c (snd (removeDestroyedTiles s)))) = survivorTypes c s
  /\ (forall l, (l < nextLoc s)%nat ->
                type (tileAt l (snd (gravityUpTo c (snd (removeDestroyedTiles s)))))
                = type (tileAt l s)).
Proof.
  intros Hwf Hc.
  pose proof (wf_removeDestroyedTiles s Hwf) as Hwf1.
  pose proof (columnTiles_removeDestroyedTiles s c Hc) as Htiles1.
  destruct (removeDestroyedTiles_spec s) as (_ & Hheap & Hnext & _).
  assert (forall l, tileAt l (snd (removeDestroyedTiles s)) = tileAt l s) as Htile1
    by (intros l; unfold tileAt; by rewrite Hheap).
  set (s1 := snd (removeDestroyedTiles s)) in *. clearbody s1.
  unfold gravityUpTo. rewrite bind_run.
  destruct (gravity_prefix c 0 s1 Hwf1) as (P1 & P2 & P3 & P4); [lia|].
  destruct (forM (seqZ 0 c) gravityColumn 0 s1) as [mf sc]. cbn [fst snd] in *.
  destruct (compactColumn_spec c mf sc P1) as (_ & _ & _ & _ & _ & C6 & C7 & _).
  set (s2 := snd _) in *. clearbody s2.
  assert (forall l, (l < nextLoc s)%nat -> type (tileAt l s2) = type (tileAt l s))
    as Hkept.
  { intros l Hl. rewrite C7, <- Htile1. apply P3. by rewrite Hnext. }
  split; [|exact Hkept].
  unfold columnTypes, survivorTypes. rewrite C6.
  assert (columnTiles c sc = columnTiles c s1) as ->.
  { unfold columnTiles. f_equal. apply columnCells_ext. intros r _. apply P2. lia. }
  rewrite <- Htiles1.
  apply map_ext_in. intros l Hl%list_elem_of_In.
  apply Hkept. rewrite <- Hnext.
  unfold columnTiles in Hl. apply list_elem_of_omap in Hl as (x & Hx & Hsome).
  destruct x as [l'|]; [|done]. injection Hsome as ->.
  apply list_elem_of_fmap in Hx as (r & Hr & _).
  destruct Hwf1 as (_ & _ & Halloc). by apply (Halloc r c).
Qed.
(** ** Construction *)

(** A type is refused at a cell only if it is the type of the left
    neighbour or of the upper neighbour. *)
Lemma wouldCreateMatch_two (r c : Z) (s : Board) :
  exists a b, forall ty, wouldCreateMatch r c ty s = true -> ty = a \/ ty = b.
Proof.
  exists (match gridAt r (c - 1) s with Some l => type (tileAt l s) | None => 0 end),
         (match gridAt (r - 1) c s with Some l => type (tileAt l s) | None => 0 end).
  intros ty. unfold wouldCreateMatch. intros [H|H]%orb_true_iff.
  - left. destruct (2 <=? c); [|done].
    destruct (gridAt r (c - 1) s); [|done]. destruct (gridAt r (c - 2) s); [|done].
    apply andb_true_iff in H as [H%Z.eqb_eq _]. done.
  - right. destruct (2 <=? r); [|done].
    destruct (gridAt (r - 1) c s); [|done]. destruct (gridAt (r - 2) c s); [|done].
    apply andb_true_iff in H as [H%Z.eqb_eq _]. done.
Qed.

(** With three types or more, some type is always available. *)
Lemma availableTypes_nonempty (typeCount r c : Z) (s : Board) :
  3 <= typeCount -> availableTypes typeCount r c s <> [].
Proof.
  intros Htc. destruct (wouldCreateMatch_two r c s) as (a & b & Hab).
  assert (exists ty, 0 <= ty < 3 /\ ty <> a /\ ty <> b) as (ty & Hty & Ha & Hb).
  { destruct (decide (0 <> a /\ 0 <> b)); [exists 0; lia|].
    destruct (decide (1 <> a /\ 1 <> b)); [exists 1; lia|].
    exists 2. lia. }
  assert (ty ∈ availableTypes typeCount r c s) as Hin.
  { unfold availableTypes. apply list_elem_of_filter. split.
    - destruct (wouldCreateMatch r c ty s) eqn:Hw; [|done].
      destruct (Hab ty Hw); done.
    - apply elem_of_seqZ. lia. }
  intros Hnil. rewrite Hnil in Hin. by apply elem_of_nil in Hin.
Qed.

(** [getRandomTileType] takes one random number; when some type is
    available, it returns an available one. *)
Lemma getRandomTileType_draws (typeCount r c : Z) (s : Board) :
  snd (getRandomTileType typeCount r c s) = set_draws (S (draws s)) s.
Proof.
  unfold getRandomTileType. rewrite bind_gets.
  case_bool_decide; [done|]. by rewrite bind_run.
Qed.

Lemma getRandomTileType_available (typeCount r c : Z) (s : Board) :
  availableTypes typeCount r c s <> [] ->
  fst (getRandomTileType typeCount r c s) ∈ availableTypes typeCount r c s.
Proof.
  intros Hne. unfold getRandomTileType. rewrite bind_gets.
  destruct (availableTypes typeCount r c s) as [|ty0 rest] eqn:Hav; [done|].
  rewrite bool_decide_false by done. rewrite bind_run. unfold ret. cbn [fst].
  set (n := Z.of_nat (length (ty0 :: rest))).
  assert (0 < n) as Hn by (unfold n; cbn [length]; lia).
  pose proof (Z.mod_pos_bound (entropy s (draws s)) n Hn) as Hk.
  change (fst (randomInt n s)) with (entropy s (draws s) mod n).
  destruct (_ !! _) as [ty|] eqn:Hty.
  - cbn [default]. by apply list_elem_of_lookup_2 in Hty.
  - apply lookup_ge_None in Hty. unfold n, TileType in *. lia.
Qed.

(** When no type is available, it returns an unconstrained random type. *)
Lemma getRandomTileType_fallback (typeCount r c : Z) (s : Board) :
  availableTypes typeCount r c s = [] ->
  getRandomTileType typeCount r c s = randomInt typeCount s.
Proof.
  intros Hnil. unfold getRandomTileType. rewrite bind_gets, Hnil.
  by rewrite bool_decide_true.
Qed.

(** One cell of the construction loop. *)
Lemma init_cell (typeCount k j : Z) (s : Board) :
  3 <= typeCount -> 0 <= k -> 0 <= j < BOARD_COLS ->
  initInv typeCount (Z.to_nat (k + 1)) k j s ->
  let body :=
    let* ty := getRandomTileType typeCount k j in
    let* tile := newTile ty k j in
    setGrid k j (Some tile) in
  initInv typeCount (Z.to_nat (k + 1)) k (j + 1) (snd (body s)).
Proof.
  intros Htc Hk Hj (I1 & I2 & I3 & I4 & I5 & I6 & I7) body.
  set (ty := fst (getRandomTileType typeCount k j s)).
  assert (wouldCreateMatch k j ty s = false /\ 0 <= ty < typeCount) as [Hw Hty].
  { pose proof (getRandomTileType_available typeCount k j s
                  (availableTypes_nonempty typeCount k j s Htc)) as Hin.
    apply list_elem_of_filter in Hin as [Hin1 Hin2%elem_of_seqZ]. split; [done | lia]. }
  assert (snd (body s)
          = snd (setGrid k j (Some (nextLoc s))
                   (snd (newTile ty k j (set_draws (S (draws s)) s))))) as Hrun.
  { unfold body. rewrite !bind_run, getRandomTileType_draws. reflexivity. }
  assert (forall r c, gridAt r c (snd (body s))
                      = if decide (r = k /\ c = j) then Some (nextLoc s)
                        else gridAt r c s) as Hcells.
  { intros r c. rewrite Hrun. rewrite gridAt_setGrid; [done | done | lia |].
    change (Z.to_nat k < length (grid s))%nat. lia. }
  assert (forall l, tileAt l (snd (body s))
                    = if decide (l = nextLoc s) then Tile_new ty k j else tileAt l s)
    as Htiles.
  { intros l. rewrite Hrun, tileAt_setGrid, tileAt_newTile. reflexivity. }
  assert (nextLoc (snd (body s)) = S (nextLoc s)) as Hnext by (by rewrite Hrun).
  assert (length (grid (snd (body s))) = Z.to_nat (k + 1)) as Hlen
    by (by rewrite Hrun, setGrid_length).
  set (s' := snd (body s)) in *. clearbody s'. clear Hrun body.
  assert (forall r c l, gridAt r c s' = Some l ->
            (r = k /\ c = j /\ l = nextLoc s /\ type (tileAt l s') = ty)
            \/ (gridAt r c s = Some l /\ placed k j r c /\ tileAt l s' = tileAt l s))
    as Hcase.
  { intros r c l. rewrite Hcells, Htiles.
    destruct (decide (r = k /\ c = j)) as [[-> ->]|Hne].
    - intros [= <-]. left. by rewrite decide_True.
    - intros Hl. right. split; [done|]. split; [by apply I3 in Hl|].
      apply I5 in Hl. rewrite decide_False by lia. done. }
  split; [done|]. split; [|split; [|split; [|split; [|split]]]].
  - intros r c (Hc & Hr). rewrite Hcells.
    destruct (decide (r = k /\ c = j)); [done|]. apply I2. split; [done | lia].
  - intros r c l [(-> & -> & _)|(_ & (Hc & Hr) & _)]%Hcase.
    + split; [done | lia].
    + split; [done | lia].
  - intros r c l [(-> & -> & -> & _)|(Hl & _ & ->)]%Hcase.
    + by rewrite Htiles, decide_True.
    + by apply I4.
  - intros r c l [(_ & _ & -> & _)|(Hl%I5 & _)]%Hcase; lia.
  - intros r c l l1 l2 Hl. unfold wouldCreateMatch in Hw.
    apply orb_false_iff in Hw as [Hwh Hwv].
    apply Hcase in Hl as [(-> & -> & -> & Hl)|(Hl & (_ & Hp) & Htl)]; split; intros H1 H2.
    + apply Hcase in H1 as [(_ & ? & _)|(H1 & _ & E1)]; [lia|].
      apply Hcase in H2 as [(_ & ? & _)|(H2 & (? & ?) & E2)]; [lia|].
      rewrite Hl, E1, E2. rewrite H1, H2 in Hwh.
      replace (2 <=? j) with true in Hwh by (symmetry; apply Z.leb_le; lia).
      apply andb_false_iff in Hwh as [Hf%Z.eqb_neq|Hf%Z.eqb_neq]; tauto.
    + apply Hcase in H1 as [(? & _)|(H1 & _ & E1)]; [lia|].
      apply Hcase in H2 as [(? & _)|(H2 & (? & ?) & E2)]; [lia|].
      rewrite Hl, E1, E2. rewrite H1, H2 in Hwv.
      replace (2 <=? k) with true in Hwv by (symmetry; apply Z.leb_le; lia).
      apply andb_false_iff in Hwv as [Hf%Z.eqb_neq|Hf%Z.eqb_neq]; tauto.
    + apply Hcase in H1 as [(? & ? & _)|(H1 & _ & E1)]; [lia|].
      apply Hcase in H2 as [(? & ? & _)|(H2 & _ & E2)]; [lia|].
      rewrite Htl, E1, E2. by apply (proj1 (I6 r c l l1 l2 Hl)).
    + apply Hcase in H1 as [(? & ? & _)|(H1 & _ & E1)]; [lia|].
      apply Hcase in H2 as [(? & ? & _)|(H2 & _ & E2)]; [lia|].
      rewrite Htl, E1, E2. by apply (proj2 (I6 r c l l1 l2 Hl)).
  - intros r c l [(_ & _ & _ & ->)|(Hl & _ & ->)]%Hcase; [done|]. by apply (I7 r c).
Qed.

(** [this.grid[row] = []], for the row after the last one. *)
Lemma row_created (g : list (list (option loc))) (r c : Z) :
  lookup2 None (arraySet [] g (length g) []) r c = lookup2 None g r c.
Proof.
  unfold lookup2, arraySet. destruct ((r <? 0) || (c <? 0)); [done|].
  rewrite decide_False by lia. rewrite Nat.sub_diag. cbn [replicate app].
  destruct (decide (Z.to_nat r < length g)%nat) as [Hlt|Hge].
  - by rewrite lookup_app_l.
  - rewrite (lookup_ge_None_2 g) by lia.
    destruct (decide (Z.to_nat r = length g)) as [->|Hne].
    + rewrite list_lookup_middle by done. done.
    + rewrite lookup_ge_None_2; [done|]. rewrite length_app. cbn [length]. lia.
Qed.

(** One row of the construction loop. *)
Lemma init_row (typeCount k : Z) (s : Board) :
  3 <= typeCount -> 0 <= k ->
  initInv typeCount (Z.to_nat k) k 0 s ->
  let body :=
    modify (fun s => set_grid (arraySet [] (grid s) (Z.to_nat k) []) s) >>
    forM_ (seqZ 0 BOARD_COLS) (fun c =>
      let* ty := getRandomTileType typeCount k c in
      let* tile := newTile ty k c in
      setGrid k c (Some tile)) in
  initInv typeCount (Z.to_nat (k + 1)) (k + 1) 0 (snd (body s)).
Proof.
  intros Htc Hk (I1 & I2 & I3 & I4 & I5 & I6 & I7) body.
  unfold body. rewrite bind_modify.
  set (s1 := set_grid (arraySet [] (grid s) (Z.to_nat k) []) s).
  assert (forall r c, gridAt r c s1 = gridAt r c s) as Hcells.
  { intros r c. unfold gridAt, s1. cbn [grid set_grid]. rewrite <- I1. apply row_created. }
  assert (initInv typeCount (Z.to_nat (k + 1)) k 0 s1) as Hinv1.
  { split; [|split; [|split; [|split; [|split; [|split]]]]].
    - unfold s1. cbn [grid set_grid]. unfold arraySet.
      rewrite decide_False by lia. rewrite !length_app, length_replicate.
      cbn [length]. lia.
    - intros r c Hp. rewrite Hcells. by apply I2.
    - intros r c l. rewrite Hcells. apply I3.
    - intros r c l. rewrite Hcells. apply I4.
    - intros r c l. rewrite Hcells. apply I5.
    - intros r c l l1 l2. rewrite !Hcells. apply I6.
    - intros r c l. rewrite Hcells. apply I7. }
  clearbody s1. clear I1 I2 I3 I4 I5 I6 I7 Hcells.
  assert (initInv typeCount (Z.to_nat (k + 1)) k
            (Z.of_nat (length (seqZ 0 BOARD_COLS)))
            (snd (forM_ (seqZ 0 BOARD_COLS) (fun c =>
                    let* ty := getRandomTileType typeCount k c in
                    let* tile := newTile ty k c in
                    setGrid k c (Some tile)) s1))) as Hrow.
  { unfold forM_.
    apply (forM_invariant_nth _ (seqZ 0 BOARD_COLS)
             (fun j _ t => initInv typeCount (Z.to_nat (k + 1)) k (Z.of_nat j) t));
      [|done].
    intros j c [] t Hc Ht. apply lookup_seqZ in Hc as [-> Hj].
    replace (Z.of_nat (S j)) with (Z.of_nat j + 1) by lia.
    replace (0 + Z.of_nat j) with (Z.of_nat j) by lia.
    apply (init_cell typeCount k (Z.of_nat j) t); [done | done | lia | done]. }
  rewrite length_seqZ in Hrow. destruct Hrow as (I1 & I2 & I3 & I4 & I5 & I6 & I7).
  split; [done|]. split; [|split; [|done]].
  - intros r c (Hc & Hr). apply I2. unfold placed, BOARD_COLS in *. lia.
  - intros r c l (Hc & Hr)%I3. unfold placed, BOARD_COLS in *. lia.
Qed.

(** The construction loop, from any state. *)
Lemma initializeBoardWith_spec (typeCount : Z) (s : Board) :
  3 <= typeCount ->
  initInv typeCount (Z.to_nat BOARD_ROWS) BOARD_ROWS 0
    (snd (initializeBoardWith typeCount s)).
Proof.
  intros Htc. unfold initializeBoardWith. rewrite bind_modify.
  assert (initInv typeCount 0 0 0 (set_grid [] s)) as Hinv0.
  { assert (forall r c, gridAt r c (set_grid [] s) = None) as Hnone.
    { intros r c. unfold gridAt, lookup2. cbn [grid set_grid].
      by destruct ((r <? 0) || (c <? 0)). }
    split; [done|]. split; [intros r c (? & ?); lia|].
    split; [intros r c l; by rewrite Hnone|].
    split; [intros r c l; by rewrite Hnone|].
    split; [intros r c l; by rewrite Hnone|].
    split; [intros r c l l1 l2; by rewrite Hnone|].
    intros r c l; by rewrite Hnone. }
  generalize dependent (set_grid [] s). clear s. intros s Hinv0.
  unfold forM_.
  pose proof (forM_invariant_nth
    (fun (r : Z) (_ : unit) =>
       modify (fun s => set_grid (arraySet [] (grid s) (Z.to_nat r) []) s) >>
       forM_ (seqZ 0 BOARD_COLS) (fun c =>
         let* ty := getRandomTileType typeCount r c in
         let* tile := newTile ty r c in
         setGrid r c (Some tile)))
    (seqZ 0 BOARD_ROWS)
    (fun k _ t => initInv typeCount k (Z.of_nat k) 0 t)) as Hloop.
  rewrite length_seqZ in Hloop. apply Hloop; [|done].
  intros k r [] t Hr Ht. apply lookup_seqZ in Hr as [-> Hk].
  replace (Z.of_nat (S k)) with (Z.of_nat k + 1) by lia.
  replace (S k) with (Z.to_nat (Z.of_nat k + 1)) by lia.
  replace (0 + Z.of_nat k) with (Z.of_nat k) by lia.
  apply (init_row typeCount (Z.of_nat k) t); [done | lia |].
  by rewrite Nat2Z.id.
Qed.

Lemma noRunBehind_noRun3 (s : Board) : noRunBehind s -> noRun3 s.
Proof.
  intros Hno r c ty Hc. unfold typeAt in *.
  destruct (getTile r c s) as [l|] eqn:Hl; [|done].
  apply getTile_Some in Hl as (_ & _ & Hl). injection Hc as Hty.
  split.
  - intros [H1 H2].
    destruct (getTile r (c + 1) s) as [l1|] eqn:Hl1; [|done].
    destruct (getTile r (c + 2) s) as [l2|] eqn:Hl2; [|done].
    apply getTile_Some in Hl1 as (_ & _ & Hl1). apply getTile_Some in Hl2 as (_ & _ & Hl2).
    injection H1 as H1. injection H2 as H2.
    destruct (Hno r (c + 2) l2 l1 l Hl2) as [Hh _]. apply Hh.
    + by replace (c + 2 - 1) with (c + 1) by lia.
    + by replace (c + 2 - 2) with c by lia.
    + split; congruence.
  - intros [H1 H2].
    destruct (getTile (r + 1) c s) as [l1|] eqn:Hl1; [|done].
    destruct (getTile (r + 2) c s) as [l2|] eqn:Hl2; [|done].
    apply getTile_Some in Hl1 as (_ & _ & Hl1). apply getTile_Some in Hl2 as (_ & _ & Hl2).
    injection H1 as H1. injection H2 as H2.
    destruct (Hno (r + 2) c l2 l1 l Hl2) as [_ Hv]. apply Hv.
    + by replace (r + 2 - 1) with (r + 1) by lia.
    + by replace (r + 2 - 2) with r by lia.
    + split; congruence.
Qed.

(** The board that the construction loop leaves, with three tile types or
    more: every cell of the 8 x 8 board holds a tile that knows its cell, and
    no three tiles in a line have the same type. *)
Lemma initializeBoardWith_board (typeCount : Z) (s : Board) :
  3 <= typeCount ->
  let s' := snd (initializeBoardWith typeCount s) in
  wellFormed s' /\ full s' /\ noRun3 s' /\ typesBelow typeCount s'.
Proof.
  intros Htc s'.
  destruct (initializeBoardWith_spec typeCount s Htc) as (I1 & I2 & I3 & I4 & I5 & I6 & I7).
  fold s' in I1, I2, I3, I4, I5, I6, I7. clearbody s'.
  split; [done|]. split; [|split; [by apply noRunBehind_noRun3 | done]].
  intros r c Hr Hc. apply I2. split; [done | lia].
Qed.

Lemma Board_new_board (rand : nat -> Z) :
  wellFormed (Board_new rand) /\ full (Board_new rand) /\ noRun3 (Board_new rand)
  /\ typesBelow TILE_TYPE_COUNT (Board_new rand).
Proof.
  apply (initializeBoardWith_board TILE_TYPE_COUNT (emptyBoard rand)).
  unfold TILE_TYPE_COUNT. lia.
Qed.
(** ** Invariants of the board *)

Lemma wf_applyGravity : preserves wellFormed applyGravity.
Proof. intros s Hwf. by destruct (applyGravity_spec s Hwf) as (? & _). Qed.

Lemma wf_onMatch : preserves wellFormed onMatch.
Proof. apply preserves_sameCells_modify. done. Qed.

Lemma wf_onBoardSettled : preserves wellFormed onBoardSettled.
Proof. apply preserves_sameCells_modify. done. Qed.

Lemma wf_runCallback (cb : Callback) : preserves wellFormed (runCallback cb).
Proof.
  destruct cb; cbn [runCallback].
  - apply wf_processMatches.
  - apply wf_swapBack.
  - apply preserves_bind; [apply wf_removeDestroyedTiles | intros _; apply wf_applyGravity].
  - apply wf_checkCascade.
Qed.

Lemma wf_fireTimer (n : nat) : preserves wellFormed (fireTimer n).
Proof.
  unfold fireTimer. apply preserves_bind; [apply preserves_gets|]. intros pending.
  destruct (pending !! n) as [t|]; [|apply preserves_ret].
  apply preserves_bind; [|intros _; apply wf_runCallback].
  apply preserves_sameCells_modify. done.
Qed.

Lemma wf_step (i : Input) : preserves wellFormed (step i).
Proof.
  destruct i; cbn [step].
  - apply preserves_bind; [apply wf_trySwap | intros; apply preserves_ret].
  - apply wf_selectTile.
  - apply wf_deselectTile.
  - apply wf_update.
  - apply preserves_bind; [apply preserves_findMatches | intros; apply preserves_ret].
  - intros s Hwf. rewrite bind_run. unfold ret. cbn [snd].
    by rewrite hasValidMoves_restores.
  - apply wf_shuffle.
  - apply wf_onMatch.
  - apply wf_onBoardSettled.
  - apply wf_fireTimer.
Qed.

(** A full, well-formed board stays so. *)
Lemma board_runCallback (cb : Callback) (s : Board) :
  wellFormed s -> full s -> full (snd (runCallback cb s)).
Proof.
  intros Hwf Hfull. destruct cb; cbn [runCallback].
  - by apply full_processMatches.
  - by apply full_swapBack.
  - rewrite bind_run.
    by destruct (applyGravity_spec _ (wf_removeDestroyedTiles s Hwf)) as (_ & ? & _).
  - by apply full_checkCascade.
Qed.

Lemma board_step (i : Input) (s : Board) :
  wellFormed s -> full s -> full (snd (step i s)).
Proof.
  intros Hwf Hfull. destruct i; cbn [step].
  - rewrite bind_run. unfold ret. cbn [snd]. by apply full_trySwap.
  - by apply full_selectTile.
  - by apply full_deselectTile.
  - by apply full_update.
  - rewrite bind_run. unfold ret. cbn [snd]. by rewrite findMatches_snd.
  - rewrite bind_run. unfold ret. cbn [snd]. by rewrite hasValidMoves_restores.
  - by apply full_shuffle.
  - done.
  - done.
  - unfold fireTimer. rewrite bind_gets.
    destruct (timers s !! n) as [t|]; [|done].
    rewrite bind_modify. apply board_runCallback.
    + revert Hwf. apply wellFormed_sameCells. done.
    + done.
Qed.

Lemma board_run (inputs : list Input) :
  forall s, wellFormed s -> full s ->
            wellFormed (snd (run inputs s)) /\ full (snd (run inputs s)).
Proof.
  induction inputs as [|i inputs IH]; intros s Hwf Hfull; [done|].
  rewrite run_cons. apply IH; [by apply wf_step | by apply board_step].
Qed.

(** Every board that can arise is well formed and full. *)
Lemma reachable_board (s : Board) : reachable s -> wellFormed s /\ full s.
Proof.
  intros (rand & inputs & ->).
  destruct (Board_new_board rand) as (Hwf & Hfull & _).
  by apply board_run.
Qed.

(** *** A board without matches *)

Lemma flat_map_nil {A B : Type} (f : A -> list B) (l : list A) (x : A) :
  flat_map f l = [] -> x ∈ l -> f x = [].
Proof.
  induction l as [|a l IH]; intros Hnil Hx; [by apply elem_of_nil in Hx|].
  cbn [flat_map] in Hnil. apply app_eq_nil in Hnil as [Ha Hl].
  apply elem_of_cons in Hx as [->|Hx]; [done | by apply IH].
Qed.

Lemma hMatches_nil (s : Board) (r : Z) :
  hMatches s = [] -> 0 <= r < BOARD_ROWS -> hRunsOf s r = [].
Proof.
  intros Hnil Hr. apply (flat_map_nil _ _ r) in Hnil; [|apply elem_of_seqZ; lia].
  by apply fmap_nil_inv in Hnil.
Qed.

Lemma vMatches_nil (s : Board) (c : Z) :
  hMatches s = [] -> vMatches s = [] -> 0 <= c < BOARD_COLS -> vRunsOf s c = [].
Proof.
  intros Hh Hnil Hc. apply (flat_map_nil _ _ c) in Hnil; [|apply elem_of_seqZ; lia].
  cbv beta in Hnil.
  destruct (vRunsOf s c) as [|[r0 n] segs] eqn:Hruns; [done|]. exfalso.
  set (seg := (r0, n)) in *.
  assert (seg ∈ vRunsOf s c) as Hseg by (rewrite Hruns; apply list_elem_of_here).
  apply (scanned_vRun s c r0 n) in Hseg as [Hlen _].
  assert (vMatchOf s c seg = None) as Hnone.
  { destruct (vMatchOf s c seg) as [m|] eqn:Hm; [|done].
    assert (m ∈ omap (vMatchOf s c) (seg :: segs)) as Hin
      by (apply list_elem_of_omap; exists seg; split; [apply list_elem_of_here | done]).
    rewrite Hnil in Hin. by apply elem_of_nil in Hin. }
  unfold vMatchOf in Hnone. case_bool_decide as Hfresh; [|done].
  unfold vFresh in Hfresh. apply fmap_nil_inv in Hfresh.
  assert (fst seg ∈ filter (fun i => inHorizontal s (mkPos i c) = false)
                           (seqZ (fst seg) (snd seg))) as Hin.
  { apply list_elem_of_filter. split.
    - unfold inHorizontal. rewrite Hh. apply bool_decide_eq_false. by intros H%Exists_nil.
    - apply elem_of_seqZ. unfold MIN_MATCH_LENGTH in *. cbn [seg fst snd]. lia. }
  rewrite Hfresh in Hin. by apply elem_of_nil in Hin.
Qed.

(** When [findMatches] finds nothing, no three tiles in a line rest with
    the same type. *)
Lemma quiet_noRestingRun3 (s : Board) : matchesOf s = [] -> noRestingRun3 s.
Proof.
  unfold matchesOf. intros [Hh Hv]%app_eq_nil r c ty Hcell.
  destruct (restingType_bounds _ _ _ _ Hcell) as [Hr Hc]. split.
  - intros [H1 H2].
    apply (scanned_nil_no_triple (restingType s r) (hlink s r)) with (i := c) (ty := ty);
      [apply hlink_resting | | by apply hMatches_nil | done | done | done].
    intros i ty' H. by apply restingType_bounds in H as [_ ?].
  - intros [H1 H2].
    apply (scanned_nil_no_triple (fun r => restingType s r c) (vlink s c))
      with (i := r) (ty := ty);
      [apply vlink_resting | | by apply vMatches_nil | done | done | done].
    intros i ty' H. by apply restingType_bounds in H as [? _].
Qed.

(** *** Settle points *)

Lemma processMatches_emitted (matches : list Match) (s : Board) :
  emitted (snd (processMatches matches s))
  = emitted s ++ (if onMatchCallback s then [EvMatch matches (1 <? comboCount s + 1)]
                  else [])
  /\ isProcessing (snd (processMatches matches s)) = isProcessing s.
Proof.
  unfold processMatches.
  rewrite bind_modify, bind_gets. cbn [onMatchCallback set_comboCount].
  rewrite bind_gets. cbn [comboCount set_comboCount].
  set (s1 := set_comboCount (comboCount s + 1) s).
  set (es := emitted s ++ (if onMatchCallback s
                           then [EvMatch matches (1 <? comboCount s + 1)] else [])).
  rewrite bind_run.
  set (s2 := snd ((if onMatchCallback s
                   then emit (EvMatch matches (1 <? comboCount s + 1)) else ret tt) s1)).
  assert (emitted s2 = es /\ isProcessing s2 = isProcessing s) as Hs2.
  { unfold s2, es. destruct (onMatchCallback s); [done|]. by rewrite app_nil_r. }
  clearbody s2 es.
  match goal with
  | |- emitted (snd (?m ?t)) = _ /\ _ =>
      assert (preserves (fun t => emitted t = es /\ isProcessing t = isProcessing s) m)
        as Hrest
  end.
  { frame_tac. }
  by apply Hrest.
Qed.

Lemma quiet_trySwap (pos1 pos2 : BoardPosition) (s : Board) :
  emitted (snd (trySwap pos1 pos2 s)) = emitted s
  /\ (isProcessing s = true -> isProcessing (snd (trySwap pos1 pos2 s)) = true).
Proof.
  split.
  - assert (preserves (fun t => emitted t = emitted s) (trySwap pos1 pos2)) as H.
    { unfold trySwap, swapTilesLogical, deselectTile. frame_tac. }
    by apply H.
  - intros Hbusy. rewrite trySwap_refused by (by left). done.
Qed.

(** An input that does not settle the board keeps it processing, and
    reports at most one match event. *)
Lemma step_quiet (i : Input) (s : Board) :
  settles i s = false ->
  (isProcessing s = true -> isProcessing (snd (step i s)) = true)
  /\ (emitted (snd (step i s)) = emitted s
      \/ exists ms b, emitted (snd (step i s)) = emitted s ++ [EvMatch ms b]).
Proof.
  assert (forall (m : M unit),
             preserves (fun t => emitted t = emitted s
                                 /\ isProcessing t = isProcessing s) m ->
             (isProcessing s = true -> isProcessing (snd (m s)) = true)
             /\ (emitted (snd (m s)) = emitted s
                 \/ exists ms b, emitted (snd (m s)) = emitted s ++ [EvMatch ms b]))
    as Hsame.
  { intros m Hm. destruct (Hm s) as [He Hp]; [done|]. split; [congruence | by left]. }
  assert (forall ms t,
             emitted t = emitted s -> isProcessing t = isProcessing s ->
             (isProcessing s = true -> isProcessing (snd (processMatches ms t)) = true)
             /\ (emitted (snd (processMatches ms t)) = emitted s
                 \/ exists ms' b,
                      emitted (snd (processMatches ms t)) = emitted s ++ [EvMatch ms' b]))
    as Hpass.
  { intros ms t He Hp. destruct (processMatches_emitted ms t) as [-> ->].
    split; [congruence|]. rewrite He.
    destruct (onMatchCallback t);
      [right; eexists _, _; reflexivity | left; by rewrite app_nil_r]. }
  intros Hquiet. destruct i; cbn [step].
  - rewrite bind_run. unfold ret. cbn [snd].
    destruct (quiet_trySwap pos1 pos2 s) as [He Hp]. split; [done | by left].
  - apply Hsame. unfold selectTile. frame_tac.
  - apply Hsame. unfold deselectTile. frame_tac.
  - apply Hsame. unfold update. frame_tac.
  - apply Hsame. frame_tac.
  - rewrite bind_run. unfold ret. cbn [snd]. rewrite hasValidMoves_restores.
    split; [done | by left].
  - apply Hsame. unfold shuffle. frame_tac.
  - apply Hsame. unfold onMatch. frame_tac.
  - apply Hsame. unfold onBoardSettled. frame_tac.
  - unfold fireTimer. rewrite bind_gets. cbn [settles] in Hquiet.
    destruct (timers s !! n) as [t|]; [|split; [done | by left]].
    rewrite bind_modify. set (s1 := set_timers (delete n (timers s)) s).
    destruct (callback t) as [ms|tile1 tile2| |]; cbn [runCallback].
    + by apply Hpass.
    + assert (preserves (fun t => emitted t = emitted s
                                  /\ isProcessing t = isProcessing s)
                        (swapBack tile1 tile2)) as H
        by (unfold swapBack; frame_tac).
      destruct (H s1) as [He Hp]; [done|]. split; [congruence | by left].
    + assert (preserves (fun t => emitted t = emitted s
                                  /\ isProcessing t = isProcessing s)
                        (removeDestroyedTiles >> applyGravity)) as H
        by (unfold removeDestroyedTiles, applyGravity, compactColumn, spawnColumn;
            frame_tac).
      destruct (H s1) as [He Hp]; [done|]. split; [congruence | by left].
    + apply bool_decide_eq_false in Hquiet.
      assert (fst (findMatches s1) <> []) as Hsome.
      { rewrite findMatches_fst in *.
        by rewrite (matchesOf_sameCells s s1) by apply sameCells_set_timers. }
      rewrite checkCascade_continues by done. by apply Hpass.
Qed.

(** An input that settles the board: the processing is over, the combo
    counter is back to 0, the settled callback, if there is one, has been
    called, and [findMatches] finds nothing. *)
Lemma step_settles (i : Input) (s : Board) :
  settles i s = true ->
  let s' := snd (step i s) in
  isProcessing s' = false /\ comboCount s' = 0
  /\ emitted s' = emitted s ++ (if onBoardSettledCallback s then [EvSettled] else [])
  /\ sameCells s s' /\ matchesOf s' = [].
Proof.
  intros Hsettles s'. unfold s'. clear s'.
  destruct i; try done. cbn [settles step] in *. unfold fireTimer. rewrite bind_gets.
  destruct (timers s !! n) as [t|]; [|done]. rewrite bind_modify.
  set (s1 := set_timers (delete n (timers s)) s).
  destruct (callback t); try done. cbn [runCallback].
  apply bool_decide_eq_true in Hsettles.
  assert (matchesOf s1 = []) as Hnone.
  { rewrite findMatches_fst in Hsettles.
    by rewrite (matchesOf_sameCells s s1) by apply sameCells_set_timers. }
  destruct (checkCascade_settles s1) as (H1 & H2 & H3 & H4);
    [by rewrite findMatches_fst|].
  split; [done|]. split; [done|]. split; [done|]. split.
  - apply (sameCells_trans s s1); [apply sameCells_set_timers | done].
  - by rewrite (matchesOf_sameCells s1).
Qed.

(** The settled callback is called, and the processing ends, at settle
    points only. *)
Lemma settle_point (i : Input) (s : Board) :
  emitted (snd (step i s)) = emitted s ++ [EvSettled]
  \/ (isProcessing s = true /\ isProcessing (snd (step i s)) = false) ->
  settles i s = true.
Proof.
  intros Hcase. destruct (settles i s) eqn:Hs; [done|]. exfalso.
  destruct (step_quiet i s Hs) as [Hbusy Hev].
  destruct Hcase as [He|[Hp1 Hp2]].
  - destruct Hev as [Hev|(ms & b & Hev)]; rewrite Hev in He.
    + apply (f_equal length) in He. rewrite length_app in He. cbn [length] in He. lia.
    + by apply app_inv_head in He.
  - rewrite Hbusy in Hp2 by done. done.
Qed.
(** ** Shuffle *)

Lemma forM_map {I J A : Type} (f : I -> J) (body : J -> A -> M A) (l : list I)
      (a : A) (s : Board) :
  forM (map f l) body a s = forM l (fun i => body (f i)) a s.
Proof.
  revert a s. induction l as [|i l IH]; intros a s; [done|].
  cbn [map forM]. rewrite !bind_run. apply IH.
Qed.

(** Two nested loops over rows and columns are one loop over the cells. *)
Lemma forM_nested {A : Type} (body : Z -> Z -> A -> M A) (rows cols : list Z)
      (a : A) (s : Board) :
  forM rows (fun r a => forM cols (fun c a => body r c a) a) a s
  = forM (flat_map (fun r => map (fun c => (r, c)) cols) rows)
         (fun p a => body (fst p) (snd p) a) a s.
Proof.
  revert a s. induction rows as [|r rows IH]; intros a s; [done|].
  cbn [flat_map forM]. rewrite forM_app, !bind_run, forM_map. cbn [fst snd].
  apply IH.
Qed.

Lemma boardCells_NoDup : NoDup boardCells.
Proof. apply (bool_decide_unpack _). by vm_compute. Qed.

Lemma NoDup_omap {A B : Type} (f : A -> option B) (l : list A) :
  NoDup l ->
  (forall x y b, x ∈ l -> y ∈ l -> f x = Some b -> f y = Some b -> x = y) ->
  NoDup (omap f l).
Proof.
  induction 1 as [|x l Hx Hl IH]; intros Hinj; [constructor|].
  assert (NoDup (omap f l)) as Hrest.
  { apply IH. intros y z b Hy Hz. apply Hinj; by apply list_elem_of_further. }
  cbn [omap list_omap]. change (list_omap A B f l) with (omap f l).
  destruct (f x) as [b|] eqn:Hb; [|done].
  constructor; [|done].
  intros (y & Hy & Hfy)%list_elem_of_omap.
  assert (y = x) as ->; [|done].
  apply (Hinj y x b); [by apply list_elem_of_further | apply list_elem_of_here | done | done].
Qed.

(** On a well-formed board no tile is listed twice. *)
Lemma boardTiles_NoDup (s : Board) : wellFormed s -> NoDup (boardTiles s).
Proof.
  intros (_ & Hco & _). apply NoDup_omap; [apply boardCells_NoDup|].
  intros [r c] [r' c'] l _ _ H1 H2. cbn [fst snd] in *.
  apply getTile_Some in H1 as (_ & _ & H1). apply getTile_Some in H2 as (_ & _ & H2).
  destruct (positionCoherent_unshared s Hco _ _ _ _ _ H1 H2) as [-> ->]. done.
Qed.

Lemma omap_cons_Some {A B : Type} (f : A -> option B) (x : A) (l : list A) (b : B) :
  f x = Some b -> omap f (x :: l) = b :: omap f l.
Proof. intros H. cbn [omap list_omap]. by rewrite H. Qed.

Lemma omap_cons_None {A B : Type} (f : A -> option B) (x : A) (l : list A) :
  f x = None -> omap f (x :: l) = omap f l.
Proof. intros H. cbn [omap list_omap]. by rewrite H. Qed.

Lemma shuffle_phases (s : Board) :
  shuffle s
  = (let* types := collectTypes in
     let* types := shuffleTypes types in
     let* _ := assignTypes types in
     ret tt) s.
Proof. reflexivity. Qed.

(** The first loop reads the types of the tiles, row by row. *)
Lemma collectTypes_spec (s : Board) : collectTypes s = (boardTypes s, s).
Proof.
  unfold collectTypes.
  rewrite (forM_nested
             (fun r c types =>
                let* tile := gets (getTile r c) in
                match tile with
                | Some tile =>
                    let* ty := gets (fun s => type (tileAt tile s)) in
                    ret (types ++ [ty])
                | None => ret types
                end)).
  fold boardCells.
  rewrite (forM_reads
             (fun s p types =>
                match getTile (fst p) (snd p) s with
                | Some tile => types ++ [type (tileAt tile s)]
                | None => types
                end)).
  - f_equal. unfold boardTypes, boardTiles.
    assert (forall cells acc,
               fold_left (fun a i =>
                            match getTile (fst i) (snd i) s with
                            | Some tile => a ++ [type (tileAt tile s)]
                            | None => a
                            end) cells acc
               = acc ++ map (fun l => type (tileAt l s))
                            (omap (fun p => getTile (fst p) (snd p) s) cells)) as Hfold.
    { induction cells as [|p cells IH]; intros acc; [by rewrite app_nil_r|].
      cbn [fold_left]. rewrite IH.
      destruct (getTile (fst p) (snd p) s) as [l|] eqn:Hl.
      - rewrite (omap_cons_Some _ _ _ l) by done. cbn [map]. by rewrite <- app_assoc.
      - by rewrite omap_cons_None by done. }
    apply (Hfold boardCells []).
  - intros [r c] types t. rewrite bind_gets. cbn [fst snd].
    by destruct (getTile r c t).
Qed.

Lemma swapEntries_Permutation (types : list TileType) (i j : Z) :
  0 <= i < Z.of_nat (length types) -> 0 <= j < Z.of_nat (length types) ->
  swapEntries types i j ≡ₚ types.
Proof.
  intros Hi Hj. unfold swapEntries, TileType in *.
  destruct (lookup_lt_is_Some_2 types (Z.to_nat i)) as [ti Hti]; [lia|].
  destruct (lookup_lt_is_Some_2 types (Z.to_nat j)) as [tj Htj]; [lia|].
  rewrite Hti, Htj. cbn [default]. by apply Permutation_insert_swap.
Qed.

(** The second loop permutes the list, and takes one random number for
    each position but the first. *)
Lemma shuffleTypes_spec (types : list TileType) (s : Board) :
  fst (shuffleTypes types s) ≡ₚ types
  /\ snd (shuffleTypes types s)
     = set_draws (draws s + (length types - 1))%nat s.
Proof.
  unfold shuffleTypes.
  set (idx := reverse (seqZ 1 (Z.of_nat (length types) - 1))).
  assert (length idx = (length types - 1)%nat) as Hlen
    by (unfold idx; rewrite length_reverse, length_seqZ; lia).
  rewrite <- Hlen.
  apply (forM_invariant_nth _ idx
           (fun k a t => a ≡ₚ types /\ t = set_draws (draws s + k)%nat s)).
  - intros k i a t Hi [Ha ->].
    apply list_elem_of_lookup_2, elem_of_reverse, elem_of_seqZ in Hi.
    rewrite bind_run. unfold ret. cbn [fst snd]. split.
    + pose proof (Permutation_length Ha) as Hla.
      etrans; [|exact Ha]. apply swapEntries_Permutation.
      * lia.
      * change (fst (randomInt (i + 1) (set_draws (draws s + k)%nat s)))
          with (entropy s (draws s + k)%nat mod (i + 1)).
        pose proof (Z.mod_pos_bound (entropy s (draws s + k)%nat) (i + 1)).
        lia.
    + unfold randomInt, set_draws. cbn [snd draws]. f_equal. lia.
  - split; [done|]. destruct s. unfold set_draws. cbn. f_equal. lia.
Qed.

Lemma getTile_grid (s t : Board) (r c : Z) : grid t = grid s -> getTile r c t = getTile r c s.
Proof. intros H. unfold getTile, gridAt. by rewrite H. Qed.

Lemma sameButType_set_type (v : TileType) (x y : Tile) :
  sameButType y x -> sameButType y (set_type v x).
Proof.
  unfold sameButType. destruct x, y. cbn. intros [= -> -> -> -> -> -> ->]. done.
Qed.

Lemma assignInv_step (types : list TileType) (s : Board) (k : nat) (p : Z * Z)
      (index : Z) (t : Board) :
  wellFormed s -> length types = length (boardTiles s) ->
  boardCells !! k = Some p ->
  assignInv types s k index t ->
  let body :=
    let* tile := gets (getTile (fst p) (snd p)) in
    match tile with
    | Some tile =>
        onTile tile (set_type (default 0 (types !! Z.to_nat index))) >>
        ret (index + 1)
    | None => ret index
    end in
  assignInv types s (S k) (fst (body t)) (snd (body t)).
Proof.
  intros Hwf Hlen Hp (I1 & I2 & I3 & I4 & I5) body. unfold assignInv in *.
  rewrite (take_S_r _ _ _ Hp), omap_app.
  set (f := fun p => getTile (fst p) (snd p) s) in *.
  set (visited := omap f (take k boardCells)) in *.
  assert (grid t = grid s) as Hgrid by exact (f_equal grid I1).
  unfold body. rewrite bind_gets, (getTile_grid s t) by done.
  pose proof (boardTiles_NoDup s Hwf) as Hnodup. unfold boardTiles in Hnodup.
  fold f in Hnodup.
  rewrite <- (take_drop (S k) boardCells), (take_S_r _ _ _ Hp), !omap_app in Hnodup.
  fold visited in Hnodup.
  assert (length (visited ++ omap f [p]) <= length types)%nat as Hshort.
  { rewrite Hlen. unfold boardTiles. fold f.
    rewrite <- (take_drop (S k) boardCells).
    rewrite (take_S_r _ _ _ Hp), !omap_app, !length_app. fold visited. lia. }
  change (getTile (fst p) (snd p) s) with (f p).
  change (omap f [p]) with (match f p with Some l => [l] | None => [] end) in *.
  destruct (f p) as [l|] eqn:Hl.
  - rewrite bind_run. unfold ret. cbn [fst snd].
    apply NoDup_app in Hnodup as [Hnodup _].
    apply NoDup_app in Hnodup as (_ & Hfresh & _).
    assert (l ∉ visited) as Hnew
      by (intros Hin; apply (Hfresh l Hin), list_elem_of_here).
    rewrite length_app in Hshort. cbn [length] in Hshort.
    destruct (lookup_lt_is_Some_2 types (length visited)) as [v Hv]; [lia|].
    rewrite I2, Nat2Z.id. unfold TileType in *. rewrite Hv. cbn [default].
    split; [|split; [|split; [|split]]].
    + exact I1.
    + rewrite length_app. cbn [length]. lia.
    + rewrite map_app, length_app. cbn [length map].
      replace (length visited + 1)%nat with (S (length visited)) by lia.
      rewrite (take_S_r _ _ _ Hv), <- I3. f_equal.
      * apply map_ext_in. intros l' Hl'%list_elem_of_In.
        rewrite tileAt_onTile, decide_False; [done|]. by intros ->.
      * by rewrite tileAt_onTile, decide_True.
    + intros l' Hl'. rewrite tileAt_onTile.
      apply not_elem_of_app in Hl' as [Hl1 Hl2%not_elem_of_cons].
      rewrite decide_False by tauto. by apply I4.
    + intros l'. rewrite tileAt_onTile.
      destruct (decide (l' = l)) as [->|]; [|done].
      by apply sameButType_set_type.
  - unfold ret. cbn [fst snd]. rewrite app_nil_r. done.
Qed.

(** The third loop gives the tiles, row by row, the types of the list. *)
Lemma assignTypes_spec (types : list TileType) (s : Board) :
  wellFormed s -> length types = length (boardTiles s) ->
  let s' := snd (assignTypes types s) in
  set_heap (heap s) s' = s
  /\ boardTypes s' = types
  /\ (forall l, l ∉ boardTiles s -> tileAt l s' = tileAt l s)
  /\ (forall l, sameButType (tileAt l s) (tileAt l s')).
Proof.
  intros Hwf Hlen s'.
  assert (assignInv types s (length boardCells) (fst (assignTypes types s)) s') as Hinv.
  { unfold s', assignTypes.
    rewrite (forM_nested
               (fun r c index =>
                  let* tile := gets (getTile r c) in
                  match tile with
                  | Some tile =>
                      onTile tile (set_type (default 0 (types !! Z.to_nat index))) >>
                      ret (index + 1)
                  | None => ret index
                  end)).
    fold boardCells.
    apply (forM_invariant_nth _ boardCells (assignInv types s)).
    - intros k p index t Hp Ht. by apply (assignInv_step types s k p index t).
    - unfold assignInv. cbn [take omap list_omap length map].
      split; [by destruct s|]. split; [done|]. split; [done|]. split; [done|].
      intros l. unfold sameButType. by destruct (tileAt l s). }
  unfold assignInv in Hinv. rewrite firstn_all in Hinv.
  fold (boardTiles s) in Hinv. destruct Hinv as (I1 & _ & I3 & I4 & I5).
  split; [done|]. split; [|done].
  assert (boardTiles s' = boardTiles s) as Htiles.
  { unfold boardTiles. apply omap_ext_elem. intros p _.
    apply getTile_grid. exact (f_equal grid I1). }
  unfold boardTypes. rewrite Htiles, I3. apply take_ge. lia.
Qed.

(** [shuffle] on a well-formed board: the grid is as it was, each tile is
    as it was but for its type, and the types of the board, read row by row,
    are a permutation of what they were. *)
Lemma shuffle_spec (s : Board) :
  wellFormed s ->
  let s' := snd (shuffle s) in
  grid s' = grid s
  /\ boardTiles s' = boardTiles s
  /\ boardTypes s' ≡ₚ boardTypes s
  /\ (forall l, sameButType (tileAt l s) (tileAt l s'))
  /\ (forall l, l ∉ boardTiles s -> tileAt l s' = tileAt l s)
  /\ set_heap (heap s) s' = set_draws (draws s + (length (boardTiles s) - 1))%nat s.
Proof.
  intros Hwf s'. unfold s'. rewrite shuffle_phases.
  rewrite bind_run, collectTypes_spec. cbn [fst snd].
  rewrite bind_run.
  destruct (shuffleTypes_spec (boardTypes s) s) as [Hperm Hstate].
  set (types := fst (shuffleTypes (boardTypes s) s)) in *.
  rewrite Hstate.
  assert (length (boardTypes s) = length (boardTiles s)) as Hlen0
    by (unfold boardTypes; apply length_map).
  rewrite Hlen0.
  assert (exists s2, s2 = set_draws (draws s + (length (boardTiles s) - 1))%nat s
                     /\ grid s2 = grid s /\ heap s2 = heap s /\ sameCells s s2)
    as (s2 & Hs2 & Hg2 & Hh2 & Hsame2) by (eexists; split; [reflexivity | done]).
  rewrite <- Hs2.
  assert (forall l, tileAt l s2 = tileAt l s) as Ht2
    by (intros l; unfold tileAt; by rewrite Hh2).
  assert (boardTiles s2 = boardTiles s) as Htiles2.
  { unfold boardTiles. apply omap_ext_elem. intros p _. by apply getTile_grid. }
  assert (wellFormed s2) as Hwf2 by (by apply (wellFormed_sameCells s)).
  destruct (assignTypes_spec types s2 Hwf2) as (A1 & A2 & A3 & A4).
  { rewrite (Permutation_length Hperm). by rewrite Htiles2. }
  rewrite bind_run. unfold ret. cbn [snd].
  set (s3 := snd (assignTypes types s2)) in *. clearbody s3 types.
  assert (grid s3 = grid s) as Hg3
    by (rewrite <- Hg2; exact (f_equal grid A1)).
  split; [exact Hg3|].
  split; [|split; [|split; [|split]]].
  - unfold boardTiles. apply omap_ext_elem. intros p _. by apply getTile_grid.
  - rewrite A2. exact Hperm.
  - intros l. rewrite <- Ht2. apply A4.
  - intros l Hl. rewrite <- Ht2. apply A3. by rewrite Htiles2.
  - rewrite <- Hh2. exact A1.
Qed.
(** ** The board between and after its operations *)

Lemma wellFormed_coherent (s : Board) : wellFormed s -> coherent s.
Proof. intros (_ & Hco & _). split; [done | by apply positionCoherent_unshared]. Qed.

Lemma wf_gravityUpTo (c : Z) (s : Board) :
  wellFormed s -> 0 <= c -> wellFormed (snd (gravityUpTo c s)).
Proof.
  intros Hwf Hc. unfold gravityUpTo. rewrite bind_run.
  destruct (gravity_prefix c 0 s Hwf Hc) as (P1 & _).
  by destruct (compactColumn_spec c (fst (forM (seqZ 0 c) gravityColumn 0 s)) _ P1)
    as (_ & ? & _).
Qed.




(** C5: [initializeBoard] leaves every cell of the 8 x 8 board occupied and
    no three adjacent cells of a row or column with the same type; with the 6
    tile types of the game some type is always available; the type chosen for
    a cell is an available one, which does not complete a run with the two
    cells to the left or the two cells above; and when no type is available
    the generator returns one random type, [Math.floor(Math.random() *
    typeCount)], without looping. *)
Theorem C5_initializeBoard_no_matches :
  (forall s, full (snd (initializeBoard s)) /\ noRun3 (snd (initializeBoard s)))
  /\ (forall r c s, availableTypes TILE_TYPE_COUNT r c s <> [])
  /\ (forall typeCount r c s,
        availableTypes typeCount r c s <> [] ->
        fst (getRandomTileType typeCount r c s) ∈ availableTypes typeCount r c s
        /\ wouldCreateMatch r c (fst (getRandomTileType typeCount r c s)) s = false)
  /\ (forall typeCount r c s,
        availableTypes typeCount r c s = [] ->
        getRandomTileType typeCount r c s = randomInt typeCount s).
Proof.
  split; [|split; [|split]].
  - intros s.
    destruct (initializeBoardWith_board TILE_TYPE_COUNT s) as (_ & ? & ? & _);
      [unfold TILE_TYPE_COUNT; lia | done].
  - intros r c s. apply availableTypes_nonempty. unfold TILE_TYPE_COUNT. lia.
  - intros typeCount r c s Hsome.
    pose proof (getRandomTileType_available typeCount r c s Hsome) as Hin.
    split; [done|]. by apply list_elem_of_filter in Hin as [? _].
  - apply getRandomTileType_fallback.
Qed.

Lemma C5_initializeBoard_no_matches_witness :
  (availableTypes TILE_TYPE_COUNT 0 2 (Board_new (drawsFrom [])) <> []
   /\ wouldCreateMatch 0 2
        (fst (getRandomTileType TILE_TYPE_COUNT 0 2 (Board_new (drawsFrom []))))
        (Board_new (drawsFrom [])) = false)
  /\ (availableTypes 1 0 2 (Board_new (drawsFrom [])) = []
      /\ getRandomTileType 1 0 2 (Board_new (drawsFrom []))
         = randomInt 1 (Board_new (drawsFrom []))).
Proof.
  destruct C5_initializeBoard_no_matches as (_ & _ & Hchosen & Hfallback).
  assert (availableTypes TILE_TYPE_COUNT 0 2 (Board_new (drawsFrom [])) <> []) as Hsome
    by (by vm_compute).
  assert (availableTypes 1 0 2 (Board_new (drawsFrom [])) = []) as Hnone
    by (by vm_compute).
  split; split; [exact Hsome | | exact Hnone | by apply Hfallback].
  by apply Hchosen.
Defined.

(** C7: on a board whose grid is well formed (as every grid of a board
    is), [shuffle] leaves the grid as it is and every tile as it is but for
    its type, so that every tile keeps its cell, its row and its col; and the
    types of the tiles of the board are, as a multiset, what they were. *)
Theorem C7_shuffle_permutes_types (s : Board) :
  wellFormed s ->
  boardTypes (snd (shuffle s)) ≡ₚ boardTypes s
  /\ grid (snd (shuffle s)) = grid s
  /\ boardTiles (snd (shuffle s)) = boardTiles s
  /\ (forall l, row (tileAt l (snd (shuffle s))) = row (tileAt l s)
                /\ col (tileAt l (snd (shuffle s))) = col (tileAt l s)
                /\ sameButType (tileAt l s) (tileAt l (snd (shuffle s)))).
Proof.
  intros Hwf. destruct (shuffle_spec s Hwf) as (H1 & H2 & H3 & H4 & _).
  split; [done|]. split; [done|]. split; [done|].
  intros l. pose proof (H4 l) as Hl. split; [|split; [|done]].
  - unfold sameButType in Hl. by rewrite Hl.
  - unfold sameButType in Hl. by rewrite Hl.
Qed.

Lemma C7_shuffle_permutes_types_witness :
  wellFormed (Board_new (drawsFrom crossDraws))
  /\ boardTypes (snd (shuffle (Board_new (drawsFrom crossDraws))))
     ≡ₚ boardTypes (Board_new (drawsFrom crossDraws)).
Proof.
  assert (wellFormed (Board_new (drawsFrom crossDraws))) as Hwf
    by apply Board_new_board.
  split; [exact Hwf|].
  by destruct (C7_shuffle_permutes_types _ Hwf) as [? _].
Defined.

(** C9: take a well-formed board and a column [c].  When the destroyed
    tiles have been removed and [applyGravity] has compacted column [c]
    (the columns before it being done) and has not yet spawned its new tiles,
    the types of the tiles of the column, top to bottom, are the types of its
    tiles that were not being destroyed, in the same order: the same
    multiset.  The tiles that existed all keep their types. *)
Theorem C9_compaction_conserves_types (s : Board) (c : Z) :
  wellFormed s -> 0 <= c < BOARD_COLS ->
  columnTypes c (snd (gravityUpTo c (snd (removeDestroyedTiles s)))) = survivorTypes c s
  /\ columnTypes c (snd (gravityUpTo c (snd (removeDestroyedTiles s))))
     ≡ₚ survivorTypes c s
  /\ (forall l, (l < nextLoc s)%nat ->
                type (tileAt l (snd (gravityUpTo c (snd (removeDestroyedTiles s)))))
                = type (tileAt l s)).
Proof.
  intros Hwf Hc. destruct (gravity_conserves s c Hwf Hc) as [Htypes Hkept].
  split; [done|]. split; [by rewrite Htypes | done].
Qed.

Lemma C9_compaction_conserves_types_witness :
  wellFormed passBoard
  /\ columnTypes 2 (snd (gravityUpTo 2 (snd (removeDestroyedTiles passBoard))))
     = survivorTypes 2 passBoard.
Proof.
  assert (wellFormed passBoard) as Hwf
    by (apply reachable_board; by eexists _, _).
  split; [exact Hwf|].
  apply (C9_compaction_conserves_types passBoard 2 Hwf). unfold BOARD_COLS. lia.
Defined.

(** C10: on every board that can arise (constructed, then driven by any
    calls of the public operations and any firing of its timers), each tile
    of the grid has the row and col of its cell, and no tile is in two cells.
    The same holds inside the gravity phase: when the destroyed tiles have
    been removed, when a column has been compacted, when a column has been
    refilled, and when [applyGravity] returns. *)
Theorem C10_position_coherence (s : Board) :
  reachable s ->
  coherent s
  /\ (forall i, coherent (snd (step i s)))
  /\ coherent (snd (removeDestroyedTiles s))
  /\ (forall c, 0 <= c < BOARD_COLS ->
                coherent (snd (gravityUpTo c (snd (removeDestroyedTiles s))))
                /\ coherent (snd (forM (seqZ 0 (c + 1)) gravityColumn 0
                                       (snd (removeDestroyedTiles s)))))
  /\ coherent (snd (applyGravity (snd (removeDestroyedTiles s)))).
Proof.
  intros [Hwf _]%reachable_board.
  pose proof (wf_removeDestroyedTiles s Hwf) as Hwf1.
  split; [by apply wellFormed_coherent|].
  split; [intros i; by apply wellFormed_coherent, wf_step|].
  split; [by apply wellFormed_coherent|]. split.
  - intros c Hc. split; apply wellFormed_coherent.
    + apply wf_gravityUpTo; [done | lia].
    + by destruct (gravity_prefix (c + 1) 0 _ Hwf1) as (? & _); [lia|].
  - by apply wellFormed_coherent, wf_applyGravity.
Qed.

Lemma C10_position_coherence_witness :
  reachable stalledBoard /\ coherent stalledBoard.
Proof.
  assert (reachable stalledBoard) as Hreach by (by eexists _, _).
  split; [exact Hreach|].
  by destruct (C10_position_coherence stalledBoard Hreach) as [? _].
Defined.
(** ** Further properties of the detection pass *)

(** The cells that the matches list are the cells that lie in a run. *)
Lemma listed_inRun (s : Board) (p : BoardPosition) :
  listedBy (matchesOf s) p <-> inRun s p.
Proof.
  unfold listedBy, matchesOf. rewrite Exists_app, !Exists_exists. split.
  - intros [(m & Hm & Hp)|(m & Hm & Hp)].
    + apply elem_of_hMatches in Hm as (r & [c0 n] & Hr & Hseg & ->).
      destruct p as [i j]. apply elem_of_hMatchOf in Hp as [-> Hj].
      apply scanned_hRun in Hseg as [Hn Hrun]. left. by exists c0, n.
    + apply elem_of_vMatches in Hm as (c & [r0 n] & Hc & Hseg & Hm).
      apply vMatchOf_Some in Hm as [-> _]. cbn [tiles] in Hp.
      apply elem_of_vFresh in Hp as [[<- Hr]%elem_of_vCells _].
      apply scanned_vRun in Hseg as [Hn Hrun]. right. by exists r0, n.
  - intros [(c0 & n & Hn & Hrun & Hc)|(r0 & n & Hn & Hrun & Hr)].
    + left. exists (hMatchOf (pos_row p) (c0, n)). split.
      * apply elem_of_hMatches. exists (pos_row p), (c0, n).
        split; [|split; [by apply hRun_scanned | done]].
        apply (hRun_row_bounds s _ c0 n); [unfold MIN_MATCH_LENGTH in *; lia | done].
      * destruct p as [i j]. by apply elem_of_hMatchOf.
    + destruct (inHorizontal s p) eqn:Hin.
      * left. unfold inHorizontal in Hin. apply bool_decide_eq_true in Hin.
        by apply Exists_exists in Hin.
      * right. assert (p ∈ vFresh s (pos_col p) (r0, n)) as Hfresh
          by (apply elem_of_vFresh; split; [by apply elem_of_vCells | done]).
        exists (mkMatch (vFresh s (pos_col p) (r0, n)) Vertical n). split; [|done].
        apply elem_of_vMatches. exists (pos_col p), (r0, n).
        split; [|split; [by apply vRun_scanned|]].
        -- apply (vRun_col_bounds s _ r0 n); [unfold MIN_MATCH_LENGTH in *; lia | done].
        -- unfold vMatchOf. rewrite bool_decide_false; [done|].
           intros Hnil. rewrite Hnil in Hfresh. by apply elem_of_nil in Hfresh.
Qed.

(** A match lists a cell. *)
Lemma match_nonempty (s : Board) (m : Match) :
  m ∈ matchesOf s -> exists p, p ∈ tiles m.
Proof.
  unfold matchesOf. intros [Hm|Hm]%elem_of_app.
  - apply elem_of_hMatches in Hm as (r & [c0 n] & Hr & Hseg & ->).
    apply scanned_hRun in Hseg as [Hn _]. exists (mkPos r c0).
    apply elem_of_hMatchOf. cbn [fst snd]. unfold MIN_MATCH_LENGTH in *. lia.
  - apply elem_of_vMatches in Hm as (c & seg & Hc & Hseg & Hm).
    apply vMatchOf_Some in Hm as [-> Hne]. cbn [tiles].
    destruct (vFresh s c seg) as [|p ps]; [done|]. exists p. apply list_elem_of_here.
Qed.

Lemma noRestingRun3_quiet (s : Board) : noRestingRun3 s -> matchesOf s = [].
Proof.
  intros Hno. destruct (matchesOf s) as [|m ms] eqn:Hms; [done|]. exfalso.
  destruct (match_nonempty s m) as [p Hp]; [rewrite Hms; apply list_elem_of_here|].
  assert (inRun s p) as Hrun.
  { apply listed_inRun. unfold listedBy. rewrite Hms. apply Exists_cons. by left. }
  destruct Hrun as [(c0 & n & Hn & (ty & Hcells & _) & _)|(r0 & n & Hn & (ty & Hcells & _) & _)];
    unfold MIN_MATCH_LENGTH in *.
  - destruct (Hno (pos_row p) c0 ty) as [Hh _]; [apply Hcells; lia|].
    apply Hh. split; apply Hcells; lia.
  - destruct (Hno r0 (pos_col p) ty) as [_ Hv]; [apply Hcells; lia|].
    apply Hv. split; apply Hcells; lia.
Qed.

(** X1: on a well-formed board, [findMatches] reports a horizontal match
    exactly for each maximal run of at least three resting tiles of one type
    in a row, with the cells of the run and its length. *)
Theorem findMatches_horizontal_runs (s : Board) (m : Match) :
  wellFormed s ->
  m ∈ fst (findMatches s) /\ direction m = Horizontal
  <-> exists r c0 n,
        MIN_MATCH_LENGTH <= n /\ hRun s r c0 n
        /\ m = mkMatch (hCells r (c0, n)) Horizontal n.
Proof.
  intros _. rewrite findMatches_fst. unfold matchesOf. rewrite elem_of_app. split.
  - intros [[Hm|Hm] Hd].
    + apply elem_of_hMatches in Hm as (r & [c0 n] & Hr & Hseg & ->).
      apply scanned_hRun in Hseg as [Hn Hrun]. by exists r, c0, n.
    + apply vMatches_direction in Hm. congruence.
  - intros (r & c0 & n & Hn & Hrun & ->). split; [|done]. left.
    apply elem_of_hMatches. exists r, (c0, n).
    split; [|split; [by apply hRun_scanned | done]].
    apply (hRun_row_bounds s r c0 n); [unfold MIN_MATCH_LENGTH in *; lia | done].
Qed.

Lemma findMatches_horizontal_runs_witness :
  wellFormed (Board_new (drawsFrom crossDraws))
  /\ (mkMatch (hCells 2 (0, 3)) Horizontal 3 ∈ fst (findMatches (Board_new (drawsFrom crossDraws)))
      /\ direction (mkMatch (hCells 2 (0, 3)) Horizontal 3) = Horizontal
      <-> exists r c0 n,
            MIN_MATCH_LENGTH <= n /\ hRun (Board_new (drawsFrom crossDraws)) r c0 n
            /\ mkMatch (hCells 2 (0, 3)) Horizontal 3
               = mkMatch (hCells r (c0, n)) Horizontal n).
Proof.
  assert (wellFormed (Board_new (drawsFrom crossDraws))) as Hwf by apply Board_new_board.
  split; [exact Hwf|]. exact (findMatches_horizontal_runs _ _ Hwf).
Defined.

(** X2: on a well-formed board, the cells listed by the matches of
    [findMatches] (the cells that [processMatches] will destroy) are exactly
    the cells that lie in a maximal run of at least three resting tiles of
    one type, in a row or in a column. *)
Theorem findMatches_lists_runs (s : Board) (p : BoardPosition) :
  wellFormed s -> listedBy (fst (findMatches s)) p <-> inRun s p.
Proof. intros _. rewrite findMatches_fst. apply listed_inRun. Qed.

Lemma findMatches_lists_runs_witness :
  wellFormed (Board_new (drawsFrom crossDraws))
  /\ (listedBy (fst (findMatches (Board_new (drawsFrom crossDraws)))) (mkPos 2 2) <-> inRun (Board_new (drawsFrom crossDraws)) (mkPos 2 2)).
Proof.
  assert (wellFormed (Board_new (drawsFrom crossDraws))) as Hwf by apply Board_new_board.
  split; [exact Hwf|]. exact (findMatches_lists_runs _ _ Hwf).
Defined.

(** X3: on a well-formed board, [findMatches] returns the empty list
    exactly when no three adjacent cells of a row or column hold resting
    tiles of one type. *)
Theorem findMatches_empty_iff (s : Board) :
  wellFormed s -> fst (findMatches s) = [] <-> noRestingRun3 s.
Proof.
  intros _. rewrite findMatches_fst.
  split; [apply quiet_noRestingRun3 | apply noRestingRun3_quiet].
Qed.

Lemma findMatches_empty_iff_witness :
  wellFormed (Board_new (drawsFrom crossDraws))
  /\ (fst (findMatches (Board_new (drawsFrom crossDraws))) = [] <-> noRestingRun3 (Board_new (drawsFrom crossDraws))).
Proof.
  assert (wellFormed (Board_new (drawsFrom crossDraws))) as Hwf by apply Board_new_board.
  split; [exact Hwf|]. exact (findMatches_empty_iff _ Hwf).
Defined.

(** X4: a board just constructed has no match. *)
Theorem Board_new_no_match (rand : nat -> Z) :
  fst (findMatches (Board_new rand)) = [] /\ isProcessing (Board_new rand) = false.
Proof.
  split.
  - rewrite findMatches_fst. apply noRestingRun3_quiet.
    destruct (Board_new_board rand) as (_ & _ & Hno & _).
    intros r c ty Hcell.
    assert (forall r c ty, restingType (Board_new rand) r c = Some ty ->
                           typeAt (Board_new rand) r c = Some ty) as Hrest.
    { intros r' c' ty'. unfold restingType, typeAt.
      destruct (getTile r' c' (Board_new rand)); [|done].
      by destruct (isAnimating _). }
    destruct (Hno r c ty (Hrest _ _ _ Hcell)) as [Hh Hv].
    split; intros [H1 H2]; [apply Hh | apply Hv]; split; by apply Hrest.
  - assert (preserves (fun t => isProcessing t = false) initializeBoard) as H
      by (unfold initializeBoard, initializeBoardWith, getRandomTileType; frame_tac).
    by apply H.
Qed.
(** ** Further properties of the search for a move *)

Lemma elem_of_boardCells (r c : Z) :
  (r, c) ∈ boardCells <-> 0 <= r < BOARD_ROWS /\ 0 <= c < BOARD_COLS.
Proof.
  unfold boardCells. rewrite list_elem_of_In, in_flat_map. split.
  - intros (r' & Hr'%list_elem_of_In%elem_of_seqZ
            & (c' & [= <- <-] & Hc'%elem_of_seqZ)%list_elem_of_In%list_elem_of_fmap).
    lia.
  - intros [Hr Hc]. exists r. split.
    + apply list_elem_of_In, elem_of_seqZ. lia.
    + apply list_elem_of_In, list_elem_of_fmap. exists c.
      split; [done | apply elem_of_seqZ; lia].
Qed.

Lemma wouldMatchAfterSwap_run (pos1 pos2 : BoardPosition) (s : Board) :
  wouldMatchAfterSwap pos1 pos2 s = (fst (wouldMatchAfterSwap pos1 pos2 s), s).
Proof.
  rewrite <- (wouldMatchAfterSwap_restores pos1 pos2 s) at 3.
  by destruct (wouldMatchAfterSwap pos1 pos2 s).
Qed.

(** [hasValidMoves] is a search over the cells, and leaves the board as it
    found it. *)
Lemma hasValidMoves_search (s : Board) :
  hasValidMoves s = (existsb (moveAt s) boardCells, s).
Proof.
  unfold hasValidMoves.
  rewrite (forM_nested
             (fun r c (returned : bool) =>
                if returned then ret true
                else
                  let* swapRight :=
                    (if c <? BOARD_COLS - 1
                     then wouldMatchAfterSwap (mkPos r c) (mkPos r (c + 1))
                     else ret false) in
                  if swapRight then ret true
                  else if r <? BOARD_ROWS - 1
                       then wouldMatchAfterSwap (mkPos r c) (mkPos (r + 1) c)
                       else ret false)).
  fold boardCells.
  rewrite (forM_reads (fun s p (returned : bool) => returned || moveAt s p)).
  - f_equal.
    assert (forall cells acc,
               fold_left (fun a i => a || moveAt s i) cells acc
               = acc || existsb (moveAt s) cells) as Hfold.
    { induction cells as [|p cells IH]; intros acc; cbn [fold_left existsb].
      - by rewrite orb_false_r.
      - by rewrite IH, orb_assoc. }
    apply (Hfold boardCells false).
  - intros [r c] returned t. cbn [fst snd]. unfold moveAt. cbn [fst snd].
    destruct returned; [done|]. rewrite bind_run. cbn [orb].
    destruct (c <? BOARD_COLS - 1).
    + rewrite (wouldMatchAfterSwap_run (mkPos r c) (mkPos r (c + 1)) t). cbn [fst snd andb].
      destruct (fst (wouldMatchAfterSwap (mkPos r c) (mkPos r (c + 1)) t)); [done|].
      cbn [orb]. destruct (r <? BOARD_ROWS - 1); cbn [andb];
        [apply wouldMatchAfterSwap_run | reflexivity].
    + unfold ret at 1. cbn [fst snd andb orb].
      destruct (r <? BOARD_ROWS - 1); cbn [andb];
        [apply wouldMatchAfterSwap_run | reflexivity].
Qed.

(** X5: [hasValidMoves] and [wouldMatchAfterSwap] leave a well-formed board,
    the grid with its temporary swap included, exactly as they found it. *)
Theorem valid_move_search_restores (s : Board) (pos1 pos2 : BoardPosition) :
  wellFormed s ->
  snd (hasValidMoves s) = s /\ snd (wouldMatchAfterSwap pos1 pos2 s) = s.
Proof.
  intros _. split; [apply hasValidMoves_restores | apply wouldMatchAfterSwap_restores].
Qed.

Lemma valid_move_search_restores_witness :
  wellFormed (Board_new (drawsFrom crossDraws))
  /\ snd (hasValidMoves (Board_new (drawsFrom crossDraws))) = (Board_new (drawsFrom crossDraws))
  /\ snd (wouldMatchAfterSwap (mkPos 2 2) (mkPos 2 3) (Board_new (drawsFrom crossDraws))) = (Board_new (drawsFrom crossDraws)).
Proof.
  assert (wellFormed (Board_new (drawsFrom crossDraws))) as Hwf by apply Board_new_board.
  split; [exact Hwf|].
  exact (valid_move_search_restores _ (mkPos 2 2) (mkPos 2 3) Hwf).
Defined.

(** X6: on a well-formed board, [hasValidMoves] returns true exactly when, for some cell of the
    board, the swap with the cell to its right or with the cell below it
    passes [wouldMatchAfterSwap]. *)
Theorem hasValidMoves_iff (s : Board) :
  wellFormed s ->
  fst (hasValidMoves s) = true
  <-> exists r c,
        0 <= r < BOARD_ROWS /\ 0 <= c < BOARD_COLS
        /\ ((c < BOARD_COLS - 1
             /\ fst (wouldMatchAfterSwap (mkPos r c) (mkPos r (c + 1)) s) = true)
            \/ (r < BOARD_ROWS - 1
                /\ fst (wouldMatchAfterSwap (mkPos r c) (mkPos (r + 1) c) s) = true)).
Proof.
  intros _. rewrite hasValidMoves_search. cbn [fst]. rewrite existsb_exists. split.
  - intros ([r c] & [Hr Hc]%list_elem_of_In%elem_of_boardCells & Hmove).
    exists r, c. split; [done|]. split; [done|].
    unfold moveAt in Hmove. cbn [fst snd] in Hmove.
    apply orb_true_iff in Hmove as [[H1%Z.ltb_lt H2]%andb_true_iff|[H1%Z.ltb_lt H2]%andb_true_iff];
      [by left | by right].
  - intros (r & c & Hr & Hc & Hcase). exists (r, c).
    split; [by apply list_elem_of_In, elem_of_boardCells|].
    unfold moveAt. cbn [fst snd]. apply orb_true_iff.
    destruct Hcase as [[H1%Z.ltb_lt H2]|[H1%Z.ltb_lt H2]];
      [left | right]; by apply andb_true_iff.
Qed.

Lemma hasValidMoves_iff_witness :
  wellFormed (Board_new (drawsFrom crossDraws))
  /\ (fst (hasValidMoves (Board_new (drawsFrom crossDraws))) = true
      <-> exists r c,
            0 <= r < BOARD_ROWS /\ 0 <= c < BOARD_COLS
            /\ ((c < BOARD_COLS - 1
                 /\ fst (wouldMatchAfterSwap (mkPos r c) (mkPos r (c + 1)) (Board_new (drawsFrom crossDraws))) = true)
                \/ (r < BOARD_ROWS - 1
                    /\ fst (wouldMatchAfterSwap (mkPos r c) (mkPos (r + 1) c) (Board_new (drawsFrom crossDraws))) = true))).
Proof.
  assert (wellFormed (Board_new (drawsFrom crossDraws))) as Hwf by apply Board_new_board.
  split; [exact Hwf|]. exact (hasValidMoves_iff _ Hwf).
Defined.
(** ** Further properties of swaps and of the selection *)

Lemma adjacent_test (pos1 pos2 : BoardPosition) :
  (Z.abs (pos_col pos1 - pos_col pos2) = 1 /\ pos_row pos1 = pos_row pos2)
  \/ (pos_col pos1 = pos_col pos2 /\ Z.abs (pos_row pos1 - pos_row pos2) = 1) ->
  negb (((Z.abs (pos_col pos1 - pos_col pos2) =? 1)
         && (Z.abs (pos_row pos1 - pos_row pos2) =? 0))
        || ((Z.abs (pos_col pos1 - pos_col pos2) =? 0)
            && (Z.abs (pos_row pos1 - pos_row pos2) =? 1))) = false.
Proof.
  intros Hadj. apply negb_false_iff, orb_true_iff.
  destruct Hadj as [[H1 H2]|[H1 H2]]; [left | right];
    apply andb_true_iff; split; apply Z.eqb_eq; lia.
Qed.

(** X7: on a well-formed board, [swapTilesLogical] on the tiles of two
    cells exchanges the two cells, leaves the other cells and the other tiles
    alone, and keeps the types and animation states of all tiles; the board
    stays well formed, so both tiles record their new cells.  Doing it twice
    puts every tile back in its cell. *)
Theorem swapTilesLogical_exchanges (a b : loc) (ra ca rb cb : Z) (s : Board) :
  wellFormed s ->
  gridAt ra ca s = Some a -> gridAt rb cb s = Some b -> a <> b ->
  let s1 := snd (swapTilesLogical a b s) in
  let s2 := snd (swapTilesLogical a b s1) in
  wellFormed s1
  /\ gridAt ra ca s1 = Some b /\ gridAt rb cb s1 = Some a
  /\ (forall r c, (r, c) <> (ra, ca) -> (r, c) <> (rb, cb) -> gridAt r c s1 = gridAt r c s)
  /\ (forall l, type (tileAt l s1) = type (tileAt l s)
                /\ state (tileAt l s1) = state (tileAt l s))
  /\ (forall l, l <> a -> l <> b -> tileAt l s1 = tileAt l s)
  /\ (forall r c, gridAt r c s2 = gridAt r c s)
  /\ (forall l, row (tileAt l s2) = row (tileAt l s) /\ col (tileAt l s2) = col (tileAt l s)).
Proof.
  intros Hwf Ha Hb Hab s1 s2.
  destruct (swapTilesLogical_spec a b ra ca rb cb s Hwf Ha Hb Hab)
    as (S1 & S2 & S3 & S4 & _).
  destruct (swapTilesLogical_twice a b ra ca rb cb s Hwf Ha Hb Hab)
    as (_ & T2 & T3 & _).
  fold s1 in S1, S2, S3, S4. fold s1 s2 in T2, T3. clearbody s2 s1.
  assert ((ra, ca) <> (rb, cb)) as Hcells.
  { intros [= -> ->]. rewrite Ha in Hb. by injection Hb. }
  split; [done|]. split; [|split; [|split; [|split; [|split; [done|split; [done|]]]]]].
  - rewrite S2. rewrite decide_False by (intros [-> ->]; done).
    by rewrite decide_True.
  - rewrite S2. by rewrite decide_True.
  - intros r c H1 H2. rewrite S2.
    rewrite decide_False by (intros [-> ->]; done).
    by rewrite decide_False by (intros [-> ->]; done).
  - intros l. destruct (S3 l) as (? & ? & _). done.
  - intros l. destruct (T3 l) as (_ & _ & ? & ?). done.
Qed.

Lemma swapTilesLogical_exchanges_witness :
  gridAt 2 2 (snd (swapTilesLogical 18%nat 19%nat (Board_new (drawsFrom crossDraws))))
  = Some 19%nat
  /\ gridAt 2 3 (snd (swapTilesLogical 18%nat 19%nat (Board_new (drawsFrom crossDraws))))
     = Some 18%nat.
Proof.
  assert (wellFormed (Board_new (drawsFrom crossDraws))) as Hwf
    by apply Board_new_board.
  assert (gridAt 2 2 (Board_new (drawsFrom crossDraws)) = Some 18%nat) as Ha
    by (vm_compute; reflexivity).
  assert (gridAt 2 3 (Board_new (drawsFrom crossDraws)) = Some 19%nat) as Hb
    by (vm_compute; reflexivity).
  assert (18%nat <> 19%nat) as Hab by lia.
  pose proof (swapTilesLogical_exchanges 18%nat 19%nat 2 2 2 3
                (Board_new (drawsFrom crossDraws)) Hwf Ha Hb Hab) as H.
  cbv zeta in H. destruct H as (_ & H1 & H2 & _). exact (conj H1 H2).
Defined.

(** X8: an adjacent swap of two tiles requested on a well-formed board
    that is not processing.  It is accepted exactly when [findMatches] finds a
    match on the grid with the two tiles exchanged; then the tiles stay
    exchanged, the board is processing with the combo counter at 0 and no
    selection, and one timer is added, for [processMatches] with these
    matches, of [SWAP_DURATION].  Otherwise every tile is put back in its cell
    with its type, nothing else changes but animations, and the timer added is
    the one of the swap-back animation. *)
Theorem trySwap_adjacent (s : Board) (pos1 pos2 : BoardPosition) (a b : loc) :
  wellFormed s ->
  isProcessing s = false ->
  (Z.abs (pos_col pos1 - pos_col pos2) = 1 /\ pos_row pos1 = pos_row pos2)
  \/ (pos_col pos1 = pos_col pos2 /\ Z.abs (pos_row pos1 - pos_row pos2) = 1) ->
  getTile (pos_row pos1) (pos_col pos1) s = Some a ->
  getTile (pos_row pos2) (pos_col pos2) s = Some b ->
  let s1 := snd (swapTilesLogical a b s) in
  let s' := snd (trySwap pos1 pos2 s) in
  (fst (findMatches s1) <> []
   /\ fst (trySwap pos1 pos2 s) = true
   /\ (forall r c, gridAt r c s' = gridAt r c s1)
   /\ isProcessing s' = true /\ comboCount s' = 0 /\ selectedTile s' = None
   /\ timers s'
      = timers s ++ [mkTimer (CbProcessMatches (fst (findMatches s1))) SWAP_DURATION])
  \/ (fst (findMatches s1) = []
      /\ fst (trySwap pos1 pos2 s) = false
      /\ (forall r c, gridAt r c s' = gridAt r c s)
      /\ (forall l, type (tileAt l s') = type (tileAt l s)
                    /\ row (tileAt l s') = row (tileAt l s)
                    /\ col (tileAt l s') = col (tileAt l s))
      /\ isProcessing s' = false /\ comboCount s' = comboCount s
      /\ selectedTile s' = selectedTile s
      /\ timers s' = timers s ++ [mkTimer (CbSwapBack a b) SWAP_DURATION]).
Proof.
  intros Hwf Hidle Hadj%adjacent_test Ha Hb s1 s'.
  rewrite !findMatches_fst.
  exact (trySwap_outcome s pos1 pos2 a b Hwf Hidle Hadj Ha Hb).
Qed.

Lemma trySwap_adjacent_witness :
  fst (trySwap (mkPos 2 2) (mkPos 2 3) (Board_new (drawsFrom crossDraws))) = true
  \/ fst (trySwap (mkPos 2 2) (mkPos 2 3) (Board_new (drawsFrom crossDraws))) = false.
Proof.
  assert (wellFormed (Board_new (drawsFrom crossDraws))) as Hwf
    by apply Board_new_board.
  assert (isProcessing (Board_new (drawsFrom crossDraws)) = false) as Hidle
    by (vm_compute; reflexivity).
  assert (getTile 2 2 (Board_new (drawsFrom crossDraws)) = Some 18%nat) as Ha
    by (vm_compute; reflexivity).
  assert (getTile 2 3 (Board_new (drawsFrom crossDraws)) = Some 19%nat) as Hb
    by (vm_compute; reflexivity).
  pose proof (trySwap_adjacent (Board_new (drawsFrom crossDraws)) (mkPos 2 2) (mkPos 2 3)
                18%nat 19%nat Hwf Hidle (or_introl (conj eq_refl eq_refl)) Ha Hb) as H.
  cbv zeta in H. destruct H as [(_ & H & _)|(_ & H & _)]; [left | right]; exact H.
Defined.

(** X9: on a well-formed board, [selectTile] does nothing when the cell holds no tile (or lies
    outside the board) or when the board is processing.  Otherwise the tile
    of the cell becomes the selected tile, in state [Selected]; the tile
    selected before, if it is another one, goes to state [Idle]; no other tile
    and no cell changes. *)
Theorem selectTile_selects (r c : Z) (s : Board) :
  wellFormed s ->
  (getTile r c s = None \/ isProcessing s = true -> selectTile r c s = (tt, s))
  /\ (forall l, getTile r c s = Some l -> isProcessing s = false ->
        let s' := snd (selectTile r c s) in
        selectedTile s' = Some l
        /\ tileAt l s' = set_state Selected (tileAt l s)
        /\ (forall old, selectedTile s = Some old -> old <> l ->
                        tileAt old s' = set_state Idle (tileAt old s))
        /\ (forall l', l' <> l -> selectedTile s <> Some l' -> tileAt l' s' = tileAt l' s)
        /\ grid s' = grid s /\ isProcessing s' = false /\ timers s' = timers s).
Proof.
  intros _. split.
  - intros Hcase. unfold selectTile. rewrite !bind_gets.
    destruct (getTile r c s) as [l|]; [|done].
    destruct Hcase as [? | ->]; done.
  - intros l Hl Hidle s'. unfold s', selectTile. rewrite !bind_gets, Hl, Hidle.
    rewrite bind_gets.
    destruct (selectedTile s) as [old|] eqn:Hsel.
    + rewrite !bind_run. cbn [fst snd].
      split; [done|]. split; [|split; [|split; [|done]]].
      * rewrite tileAt_onTile, decide_True by done.
        unfold modify. cbn [snd]. change (tileAt l (set_selectedTile (Some l) ?t))
          with (tileAt l t).
        rewrite tileAt_onTile. destruct (decide (l = old)) as [->|]; [|done].
        by destruct (tileAt old s).
      * intros old' [= <-] Hne. rewrite tileAt_onTile, decide_False by done.
        unfold modify. cbn [snd].
        change (tileAt old (set_selectedTile (Some l) ?t)) with (tileAt old t).
        by rewrite tileAt_onTile, decide_True.
      * intros l' Hl' Hold. rewrite tileAt_onTile, decide_False by done.
        unfold modify. cbn [snd].
        change (tileAt l' (set_selectedTile (Some l) ?t)) with (tileAt l' t).
        rewrite tileAt_onTile, decide_False; [done | congruence].
    + rewrite !bind_run. cbn [fst snd].
      split; [done|]. split; [|split; [done|split; [|done]]].
      * by rewrite tileAt_onTile, decide_True.
      * intros l' Hl' _. by rewrite tileAt_onTile, decide_False.
Qed.

Lemma selectTile_selects_witness :
  selectedTile (snd (selectTile 2 2 (Board_new (drawsFrom crossDraws)))) = Some 18%nat.
Proof.
  assert (getTile 2 2 (Board_new (drawsFrom crossDraws)) = Some 18%nat) as Hl
    by (vm_compute; reflexivity).
  assert (isProcessing (Board_new (drawsFrom crossDraws)) = false) as Hidle
    by (vm_compute; reflexivity).
  assert (wellFormed (Board_new (drawsFrom crossDraws))) as Hwf
    by apply Board_new_board.
  pose proof (proj2 (selectTile_selects 2 2 (Board_new (drawsFrom crossDraws)) Hwf)
                18%nat Hl Hidle) as H.
  cbv zeta in H. exact (proj1 H).
Defined.
(** ** Further properties of the cascade *)

Lemma elem_of_setAdd (k k' : Z * Z) (set : list (Z * Z)) :
  k' ∈ setAdd k set <-> k' = k \/ k' ∈ set.
Proof.
  unfold setAdd. case_bool_decide as Hin.
  - split; [by right | intros [->|?]; done].
  - rewrite elem_of_app, list_elem_of_singleton. tauto.
Qed.

Lemma elem_of_addTiles (ps : list BoardPosition) (set : list (Z * Z)) (k : Z * Z) :
  k ∈ fold_left (fun set pos => setAdd (pos_row pos, pos_col pos) set) ps set
  <-> k ∈ set \/ exists p, p ∈ ps /\ k = (pos_row p, pos_col p).
Proof.
  revert set. induction ps as [|p ps IH]; intros set; cbn [fold_left].
  - split; [by left | intros [?|(p & Hp & _)]; [done | by apply elem_of_nil in Hp]].
  - rewrite IH, elem_of_setAdd. split.
    + intros [[->|?]|(q & Hq & ->)].
      * right. exists p. split; [apply list_elem_of_here | done].
      * by left.
      * right. exists q. split; [by apply list_elem_of_further | done].
    + intros [?|(q & [->|Hq]%elem_of_cons & ->)].
      * left. by right.
      * left. by left.
      * right. by exists q.
Qed.

Lemma elem_of_destroyKeys (matches : list Match) (k : Z * Z) :
  k ∈ destroyKeys matches
  <-> exists m p, m ∈ matches /\ p ∈ tiles m /\ k = (pos_row p, pos_col p).
Proof.
  unfold destroyKeys.
  assert (forall set,
             k ∈ fold_left (fun set m =>
                              fold_left (fun set pos => setAdd (pos_row pos, pos_col pos) set)
                                        (tiles m) set) matches set
             <-> k ∈ set
                 \/ exists m p, m ∈ matches /\ p ∈ tiles m /\ k = (pos_row p, pos_col p))
    as Hgen.
  { induction matches as [|m ms IH]; intros set; cbn [fold_left].
    - split; [by left | intros [?|(m & _ & Hm & _)]; [done | by apply elem_of_nil in Hm]].
    - rewrite IH, elem_of_addTiles. split.
      + intros [[?|(p & Hp & ->)]|(m' & p & Hm' & Hp & ->)].
        * by left.
        * right. exists m, p. split; [apply list_elem_of_here | done].
        * right. exists m', p. split; [by apply list_elem_of_further | done].
      + intros [?|(m' & p & [->|Hm']%elem_of_cons & Hp & ->)].
        * left. by left.
        * left. right. by exists p.
        * right. by exists m', p. }
  rewrite Hgen. split; [intros [Hnil|?]; [by apply elem_of_nil in Hnil | done] | by right].
Qed.

Lemma startDestroyAnimation_twice (d : Z) (t : Tile) :
  startDestroyAnimation d (startDestroyAnimation d t) = startDestroyAnimation d t.
Proof. reflexivity. Qed.

(** The loop of [processMatches] over the keys. *)
Lemma destroy_loop (keys : list (Z * Z)) (s : Board) :
  let s' := snd (forM_ keys (fun '(r, c) =>
                   let* tile := gets (getTile r c) in
                   match tile with
                   | Some tile => onTile tile (startDestroyAnimation DESTROY_DURATION)
                   | None => ret tt
                   end) s) in
  set_heap (heap s) s' = s
  /\ forall l,
       ((exists k, k ∈ keys /\ getTile (fst k) (snd k) s = Some l) ->
        tileAt l s' = startDestroyAnimation DESTROY_DURATION (tileAt l s))
       /\ (~ (exists k, k ∈ keys /\ getTile (fst k) (snd k) s = Some l) ->
           tileAt l s' = tileAt l s).
Proof.
  intros s'.
  set (P := fun (n : nat) (_ : unit) (t : Board) =>
              set_heap (heap s) t = s
              /\ forall l,
                   ((exists k, k ∈ take n keys /\ getTile (fst k) (snd k) s = Some l) ->
                    tileAt l t = startDestroyAnimation DESTROY_DURATION (tileAt l s))
                   /\ (~ (exists k, k ∈ take n keys /\ getTile (fst k) (snd k) s = Some l) ->
                       tileAt l t = tileAt l s)).
  assert (P (length keys) tt s') as Hinv.
  { unfold s', forM_.
    match goal with
    | |- P _ _ (snd (forM _ ?body ?a ?s0)) =>
        change (P (length keys) (fst (forM keys body a s0)) (snd (forM keys body a s0)));
        apply (forM_invariant_nth body keys P)
    end.
    - intros n [r c] [] t Hk (I1 & I2). unfold P.
      rewrite (take_S_r _ _ _ Hk).
      assert (grid t = grid s) as Hgrid by exact (f_equal grid I1).
      rewrite bind_gets, (getTile_grid s t) by done.
      destruct (getTile r c s) as [l0|] eqn:Hl0.
      + split; [exact I1|]. intros l. rewrite tileAt_onTile.
        destruct (decide (l = l0)) as [->|Hne].
        * split.
          -- intros _. destruct (I2 l0) as [Hyes Hno].
             destruct (decide (Exists (fun k => getTile (fst k) (snd k) s = Some l0)
                                      (take n keys)))
               as [Hin|Hout]; rewrite Exists_exists in *.
             ++ by rewrite (Hyes Hin).
             ++ by rewrite (Hno Hout).
          -- intros Hout. exfalso. apply Hout. exists (r, c).
             split; [apply elem_of_app; right; apply list_elem_of_here | done].
        * destruct (I2 l) as [Hyes Hno]. split.
          -- intros (k & [Hk1|Hk1%list_elem_of_singleton]%elem_of_app & Hk2).
             ++ apply Hyes. by exists k.
             ++ subst k. cbn [fst snd] in Hk2. congruence.
          -- intros Hout. apply Hno. intros (k & Hk1 & Hk2). apply Hout.
             exists k. split; [apply elem_of_app; by left | done].
      + split; [exact I1|]. intros l. unfold ret. cbn [snd].
        destruct (I2 l) as [Hyes Hno]. split.
        * intros (k & [Hk1|Hk1%list_elem_of_singleton]%elem_of_app & Hk2).
          -- apply Hyes. by exists k.
          -- subst k. cbn [fst snd] in Hk2. congruence.
        * intros Hout. apply Hno. intros (k & Hk1 & Hk2). apply Hout.
          exists k. split; [apply elem_of_app; by left | done].
    - split; [by destruct s|]. intros l. split; [|done].
      intros (k & Hk & _). by apply elem_of_nil in Hk. }
  unfold P in Hinv. rewrite firstn_all in Hinv. exact Hinv.
Qed.

Lemma doomed_keys (matches : list Match) (s : Board) (l : loc) :
  doomed matches s l
  <-> exists k, k ∈ destroyKeys matches /\ getTile (fst k) (snd k) s = Some l.
Proof.
  unfold doomed. split.
  - intros (m & p & Hm & Hp & Hl). exists (pos_row p, pos_col p).
    split; [|done]. apply elem_of_destroyKeys. by exists m, p.
  - intros (k & (m & p & Hm & Hp & ->)%elem_of_destroyKeys & Hl). by exists m, p.
Qed.

Lemma processMatches_spec (matches : list Match) (s : Board) :
  let s' := snd (processMatches matches s) in
  grid s' = grid s
  /\ comboCount s' = comboCount s + 1
  /\ emitted s'
     = emitted s ++ (if onMatchCallback s
                     then [EvMatch matches (1 <? comboCount s + 1)] else [])
  /\ timers s' = timers s ++ [mkTimer CbGravity DESTROY_DURATION]
  /\ isProcessing s' = isProcessing s
  /\ selectedTile s' = selectedTile s
  /\ forall l,
       (doomed matches s l ->
        tileAt l s' = startDestroyAnimation DESTROY_DURATION (tileAt l s))
       /\ (~ doomed matches s l -> tileAt l s' = tileAt l s).
Proof.
  intros s'. unfold s', processMatches. clear s'.
  rewrite bind_modify, bind_gets. cbn [onMatchCallback set_comboCount].
  rewrite bind_gets. cbn [comboCount set_comboCount].
  rewrite bind_run. fold (destroyKeys matches).
  set (s2 := snd ((if onMatchCallback s
                   then emit (EvMatch matches (1 <? comboCount s + 1)) else ret tt)
                    (set_comboCount (comboCount s + 1) s))).
  assert (grid s2 = grid s /\ heap s2 = heap s /\ comboCount s2 = comboCount s + 1
          /\ emitted s2
             = emitted s ++ (if onMatchCallback s
                             then [EvMatch matches (1 <? comboCount s + 1)] else [])
          /\ timers s2 = timers s /\ isProcessing s2 = isProcessing s
          /\ selectedTile s2 = selectedTile s)
    as (G2 & H2 & C2 & E2 & T2 & P2 & S2).
  { unfold s2. destruct (onMatchCallback s); [done|]. by rewrite app_nil_r. }
  clearbody s2. rewrite bind_run.
  destruct (destroy_loop (destroyKeys matches) s2) as [L1 L2].
  set (s3 := snd (forM_ (destroyKeys matches) _ s2)) in *. clearbody s3.
  unfold setTimeout, modify. cbn [snd grid comboCount emitted timers isProcessing
                                  selectedTile set_timers].
  assert (forall l, tileAt l (set_timers (timers s3 ++ [mkTimer CbGravity DESTROY_DURATION]) s3)
                    = tileAt l s3) as Hsame by done.
  assert (forall l, tileAt l s2 = tileAt l s) as Ht2
    by (intros l; unfold tileAt; by rewrite H2).
  assert (forall r c, getTile r c s2 = getTile r c s) as Hg2
    by (intros r c; by apply getTile_grid).
  rewrite <- G2, <- E2, <- C2, <- T2, <- P2, <- S2.
  split; [exact (f_equal grid L1)|]. split; [exact (f_equal comboCount L1)|].
  split; [exact (f_equal emitted L1)|].
  split; [by rewrite <- (f_equal timers L1)|].
  split; [exact (f_equal isProcessing L1)|].
  split; [exact (f_equal selectedTile L1)|].
  intros l. rewrite Hsame, <- Ht2. destruct (L2 l) as [Hyes Hno]. split.
  - intros (k & Hk & Hl)%doomed_keys. apply Hyes. exists k. by rewrite Hg2.
  - intros Hout. apply Hno. intros (k & Hk & Hl). apply Hout, doomed_keys.
    exists k. by rewrite <- Hg2.
Qed.

(** X10: one call of [processMatches] on a well-formed board.  The combo counter goes up by one;
    the match callback, if there is one, is called once, with the flag
    [1 < comboCount]; every tile in a cell that a match lists starts its
    destroy animation, and no other tile changes; the grid does not change;
    and one timer is added, for the gravity step, of [DESTROY_DURATION]. *)
Theorem processMatches_pass (matches : list Match) (s : Board) :
  wellFormed s ->
  let s' := snd (processMatches matches s) in
  grid s' = grid s
  /\ comboCount s' = comboCount s + 1
  /\ emitted s'
     = emitted s ++ (if onMatchCallback s
                     then [EvMatch matches (1 <? comboCount s + 1)] else [])
  /\ timers s' = timers s ++ [mkTimer CbGravity DESTROY_DURATION]
  /\ isProcessing s' = isProcessing s
  /\ selectedTile s' = selectedTile s
  /\ forall l,
       (doomed matches s l ->
        tileAt l s' = startDestroyAnimation DESTROY_DURATION (tileAt l s))
       /\ (~ doomed matches s l -> tileAt l s' = tileAt l s).
Proof. intros _. apply processMatches_spec. Qed.

Lemma processMatches_pass_witness :
  wellFormed crossBoard
  /\ comboCount (snd (processMatches (fst (findMatches crossBoard)) crossBoard))
     = comboCount crossBoard + 1.
Proof.
  assert (wellFormed crossBoard) as Hwf.
  { assert (wellFormed (Board_new (drawsFrom crossDraws))) as Hwf0
      by apply Board_new_board.
    assert (gridAt 2 2 (Board_new (drawsFrom crossDraws)) = Some 18%nat) as Ha
      by (vm_compute; reflexivity).
    assert (gridAt 2 3 (Board_new (drawsFrom crossDraws)) = Some 19%nat) as Hb
      by (vm_compute; reflexivity).
    assert (18%nat <> 19%nat) as Hab by lia.
    exact (proj1 (swapTilesLogical_spec 18%nat 19%nat 2 2 2 3 _ Hwf0 Ha Hb Hab)). }
  split; [exact Hwf|].
  pose proof (processMatches_pass (fst (findMatches crossBoard)) crossBoard Hwf) as H.
  cbv zeta in H. destruct H as (_ & H & _). exact H.
Defined.

(** ** Further properties of the gravity step *)

(** X11: on a well-formed board, [removeDestroyedTiles] empties exactly the cells of the 8 x 8
    board whose tile is being destroyed; it changes no other cell and no
    tile object.  Afterwards no tile of the board is being destroyed. *)
Theorem removeDestroyedTiles_clears (s : Board) :
  wellFormed s ->
  let s' := snd (removeDestroyedTiles s) in
  heap s' = heap s /\ nextLoc s' = nextLoc s /\ length (grid s') = length (grid s)
  /\ (forall r c,
        gridAt r c s'
        = if decide (r < BOARD_ROWS /\ 0 <= c < BOARD_COLS) then cleared s r c
          else gridAt r c s)
  /\ (forall r c l, getTile r c s' = Some l -> isDestroying (tileAt l s') = false).
Proof.
  intros _ s'. destruct (removeDestroyedTiles_spec s) as (H1 & H2 & H3 & H4).
  fold s' in H1, H2, H3, H4. clearbody s'.
  split; [done|]. split; [done|]. split; [done|]. split; [done|].
  intros r c l (Hr & Hc & Hl)%getTile_Some. rewrite H4 in Hl.
  rewrite decide_True in Hl by lia. unfold cleared in Hl.
  destruct (gridAt r c s) as [l'|]; [|done].
  destruct (isDestroying (tileAt l' s)) eqn:Hd; [done|].
  injection Hl as <-. unfold tileAt. by rewrite H2.
Qed.

Lemma removeDestroyedTiles_clears_witness :
  wellFormed passBoard /\ heap (snd (removeDestroyedTiles passBoard)) = heap passBoard.
Proof.
  assert (wellFormed passBoard) as Hwf
    by (apply reachable_board; by eexists _, _).
  split; [exact Hwf|].
  pose proof (removeDestroyedTiles_clears passBoard Hwf) as H.
  cbv zeta in H. exact (proj1 H).
Defined.

(** X12: the compaction of one column by [applyGravity], on a well-formed
    board.  The counter [emptySpaces] ends as the number of empty cells of
    the column, which are then its top cells; the tiles of the column are
    below them, in the order they had; the other columns and the types of
    all tiles are untouched, the board stays well formed, and no tile is
    created. *)
Theorem compactColumn_gathers (c mf : Z) (s : Board) :
  wellFormed s ->
  let e := fst (fst (compactColumn c mf s)) in
  let s' := snd (compactColumn c mf s) in
  0 <= e <= BOARD_ROWS
  /\ wellFormed s'
  /\ (forall r c', c' <> c -> gridAt r c' s' = gridAt r c' s)
  /\ (forall r, 0 <= r < e -> gridAt r c s' = None)
  /\ (forall r, e <= r < BOARD_ROWS -> gridAt r c s' <> None)
  /\ columnTiles c s' = columnTiles c s
  /\ (forall l, type (tileAt l s') = type (tileAt l s))
  /\ nextLoc s' = nextLoc s.
Proof. apply compactColumn_spec. Qed.

Lemma compactColumn_gathers_witness :
  wellFormed holedBoard
  /\ fst (fst (compactColumn 2 0 holedBoard)) = 3
  /\ columnTiles 2 (snd (compactColumn 2 0 holedBoard)) = columnTiles 2 holedBoard.
Proof.
  assert (wellFormed holedBoard) as Hwf.
  { apply wf_removeDestroyedTiles, reachable_board. by eexists _, _. }
  split; [exact Hwf|]. split; [vm_compute; reflexivity|].
  pose proof (compactColumn_gathers 2 0 holedBoard Hwf) as H. cbv zeta in H.
  destruct H as (_ & _ & _ & _ & _ & H & _). exact H.
Defined.

(** X13: [applyGravity] on a well-formed board leaves a well-formed board
    in which every cell of the 8 x 8 board holds a tile; the tiles that
    existed keep their types; and exactly one timer is added, for
    [checkCascade], of at least 650 ms. *)
Theorem applyGravity_fills (s : Board) :
  wellFormed s ->
  let s' := snd (applyGravity s) in
  wellFormed s' /\ full s'
  /\ (forall l, (l < nextLoc s)%nat -> type (tileAt l s') = type (tileAt l s))
  /\ exists waitTime,
       timers s' = timers s ++ [mkTimer CbCheckCascade waitTime] /\ 650 <= waitTime.
Proof. apply applyGravity_spec. Qed.

Lemma applyGravity_fills_witness :
  wellFormed holedBoard /\ ~ full holedBoard /\ full (snd (applyGravity holedBoard)).
Proof.
  assert (wellFormed holedBoard) as Hwf.
  { apply wf_removeDestroyedTiles, reachable_board. by eexists _, _. }
  split; [exact Hwf|]. split.
  - intros Hfull. apply (Hfull 2 2); [unfold BOARD_ROWS; lia | unfold BOARD_COLS; lia|].
    vm_compute. reflexivity.
  - pose proof (applyGravity_fills holedBoard Hwf) as H. cbv zeta in H.
    destruct H as (_ & H & _). exact H.
Defined.
(** ** Further invariants *)

Lemma omap_total_length {A B : Type} (f : A -> option B) (l : list A) :
  (forall x, x ∈ l -> f x <> None) -> length (omap f l) = length l.
Proof.
  induction l as [|x l IH]; intros Hall; [done|].
  destruct (f x) as [b|] eqn:Hb.
  - rewrite (omap_cons_Some f x l b Hb). cbn [length]. f_equal. apply IH.
    intros y Hy. apply Hall. by apply list_elem_of_further.
  - by destruct (Hall x (list_elem_of_here _ _)).
Qed.

(** X15: a board that can arise has its 8 rows, and each of the 64 cells
    of the board holds a tile; these are 64 different tile objects. *)
Theorem reachable_full (s : Board) :
  reachable s ->
  length (grid s) = 8%nat /\ full s
  /\ length (boardTiles s) = 64%nat /\ NoDup (boardTiles s).
Proof.
  intros [Hwf Hfull]%reachable_board.
  split; [by destruct Hwf|]. split; [done|]. split; [|by apply boardTiles_NoDup].
  unfold boardTiles. rewrite omap_total_length; [done|].
  intros [r c] [Hr Hc]%elem_of_boardCells. cbn [fst snd].
  rewrite getTile_in_bounds by done. by apply Hfull.
Qed.

Lemma reachable_full_witness :
  reachable stalledBoard /\ length (boardTiles stalledBoard) = 64%nat.
Proof.
  assert (reachable stalledBoard) as Hreach by (by eexists _, _).
  split; [exact Hreach|].
  by destruct (reachable_full stalledBoard Hreach) as (_ & _ & ? & _).
Defined.

(** X16: on a board that can arise, the settled callback is called, and
    the processing ends, only
    when a timer of [checkCascade] fires on a board where [findMatches] finds
    nothing; the input then resets the combo counter and changes no cell and
    no tile. *)
Theorem settles_only_in_checkCascade (i : Input) (s : Board) :
  reachable s ->
  emitted (snd (step i s)) = emitted s ++ [EvSettled]
  \/ (isProcessing s = true /\ isProcessing (snd (step i s)) = false) ->
  (exists n t, i = TimerFires n /\ timers s !! n = Some t
               /\ callback t = CbCheckCascade /\ fst (findMatches s) = [])
  /\ isProcessing (snd (step i s)) = false /\ comboCount (snd (step i s)) = 0
  /\ sameCells s (snd (step i s)).
Proof.
  intros _ Hsettles%settle_point.
  destruct (step_settles i s Hsettles) as (H1 & H2 & _ & H4 & _).
  split; [|done].
  destruct i; try done. cbn [settles] in Hsettles.
  destruct (timers s !! n) as [t|] eqn:Ht; [|done].
  destruct (callback t) eqn:Hcb; try done.
  apply bool_decide_eq_true in Hsettles. by exists n, t.
Qed.

Lemma settles_only_in_checkCascade_witness :
  reachable stalledBoard /\ exists n t, TimerFires 0 = TimerFires n /\ timers stalledBoard !! n = Some t
              /\ callback t = CbCheckCascade /\ fst (findMatches stalledBoard) = [].
Proof.
  assert (reachable stalledBoard) as Hreach by (by eexists _, _).
  assert (emitted (snd (step (TimerFires 0) stalledBoard))
          = emitted stalledBoard ++ [EvSettled]) as Hev by (by vm_compute).
  split; [exact Hreach|].
  exact (proj1 (settles_only_in_checkCascade (TimerFires 0) stalledBoard Hreach
                  (or_introl Hev))).
Defined.

(** X17: [shuffle] on a well-formed board changes nothing but the types
    of the tiles of the board and the state of the random source, from which
    it takes one number for each tile but one.  Every tile keeps its state,
    its row and column and its animation clock, the grid keeps the tile of
    each cell, and a tile that is not on the board keeps its type too. *)
Theorem shuffle_frame (s : Board) :
  wellFormed s ->
  set_heap (heap s) (snd (shuffle s))
  = set_draws (draws s + (length (boardTiles s) - 1))%nat s
  /\ (forall l, tileAt l (snd (shuffle s))
                = set_type (type (tileAt l (snd (shuffle s)))) (tileAt l s))
  /\ (forall l, l ∉ boardTiles s -> tileAt l (snd (shuffle s)) = tileAt l s).
Proof.
  intros Hwf. destruct (shuffle_spec s Hwf) as (_ & _ & _ & H4 & H5 & H6).
  split; [exact H6|]. split; [exact H4 | exact H5].
Qed.

Lemma shuffle_frame_witness :
  set_heap (heap (Board_new (drawsFrom crossDraws)))
           (snd (shuffle (Board_new (drawsFrom crossDraws))))
  = set_draws (draws (Board_new (drawsFrom crossDraws))
               + (length (boardTiles (Board_new (drawsFrom crossDraws))) - 1))%nat
              (Board_new (drawsFrom crossDraws))
  /\ (forall l, tileAt l (snd (shuffle (Board_new (drawsFrom crossDraws))))
                = set_type (type (tileAt l (snd (shuffle (Board_new (drawsFrom crossDraws))))))
                           (tileAt l (Board_new (drawsFrom crossDraws))))
  /\ (forall l, l ∉ boardTiles (Board_new (drawsFrom crossDraws)) ->
                tileAt l (snd (shuffle (Board_new (drawsFrom crossDraws))))
                = tileAt l (Board_new (drawsFrom crossDraws))).
Proof.
  assert (wellFormed (Board_new (drawsFrom crossDraws))) as Hwf
    by apply Board_new_board.
  exact (shuffle_frame _ Hwf).
Defined.

(** X18: with three tile types or more, the construction loop leaves,
    whatever the state it starts from, a well-formed board in which every
    cell holds a tile of one of these types and no three adjacent cells of a
    row or column have the same type. *)
Theorem initializeBoardWith_three_types (typeCount : Z) (s : Board) :
  3 <= typeCount ->
  let s' := snd (initializeBoardWith typeCount s) in
  wellFormed s' /\ full s' /\ noRun3 s' /\ typesBelow typeCount s'.
Proof. apply initializeBoardWith_board. Qed.

Lemma initializeBoardWith_three_types_witness :
  typesBelow 3 (snd (initializeBoardWith 3 (emptyBoard (drawsFrom crossDraws)))).
Proof.
  pose proof (initializeBoardWith_three_types 3 (emptyBoard (drawsFrom crossDraws))) as H.
  cbv zeta in H. destruct H as (_ & _ & _ & H); [lia | exact H].
Defined.

Lemma getRandomTileType_range (typeCount r c : Z) (s : Board) :
  0 < typeCount -> 0 <= fst (getRandomTileType typeCount r c s) < typeCount.
Proof.
  intros Htc.
  destruct (availableTypes typeCount r c s) as [|ty0 rest] eqn:Hav.
  - rewrite getRandomTileType_fallback by done.
    change (fst (randomInt typeCount s)) with (entropy s (draws s) mod typeCount).
    by apply Z.mod_pos_bound.
  - pose proof (getRandomTileType_available typeCount r c s) as Hin.
    rewrite Hav in Hin. specialize (Hin ltac:(done)). rewrite <- Hav in Hin.
    apply list_elem_of_filter in Hin as [_ Hin%elem_of_seqZ]. lia.
Qed.

(** X19: [getRandomTileType] takes exactly one number from the random
    source and changes nothing else; with a positive type count the type it
    returns is one of the types, on both of its paths. *)
Theorem getRandomTileType_valid (typeCount r c : Z) (s : Board) :
  0 < typeCount ->
  0 <= fst (getRandomTileType typeCount r c s) < typeCount
  /\ snd (getRandomTileType typeCount r c s) = set_draws (S (draws s)) s.
Proof.
  intros Htc. split; [by apply getRandomTileType_range | apply getRandomTileType_draws].
Qed.

Lemma getRandomTileType_valid_witness :
  0 <= fst (getRandomTileType 1 0 2 (Board_new (drawsFrom []))) < 1.
Proof.
  by destruct (getRandomTileType_valid 1 0 2 (Board_new (drawsFrom [])) ltac:(lia)) as [? _].
Defined.
(** ** Tiles over time *)

Lemma agedTile_refl (t : Tile) : agedTile t t.
Proof. by repeat split. Qed.

Lemma agedTile_trans (t1 t2 t3 : Tile) : agedTile t1 t2 -> agedTile t2 t3 -> agedTile t1 t3.
Proof.
  intros (A1 & A2 & A3 & A4 & A5 & A6 & A7) (B1 & B2 & B3 & B4 & B5 & B6 & B7).
  repeat split; try congruence; auto.
Qed.

Lemma Tile_update_aged (dt : Q) (t : Tile) : agedTile t (snd (Tile_update dt t)).
Proof.
  unfold Tile_update.
  destruct (state t) eqn:Hst; try apply agedTile_refl;
    destruct (animationComplete _ _); unfold finishAnimation, agedTile; cbn; rewrite ?Hst;
      repeat split; done.
Qed.

(** X20: [Tile.update] never changes the type, the cell or the target of
    a tile; a tile being destroyed stays so (its animation finishes without
    going back to [Idle]); no tile becomes selected; a tile that is idle or
    selected is returned unchanged, with the result false; and when the
    result is true the tile is left idle, or still being destroyed. *)
Theorem Tile_update_keeps (dt : Q) (t : Tile) :
  agedTile t (snd (Tile_update dt t))
  /\ (state t = Idle \/ state t = Selected -> Tile_update dt t = (false, t))
  /\ (fst (Tile_update dt t) = true ->
      state (snd (Tile_update dt t)) = Idle
      \/ (state t = Destroying /\ state (snd (Tile_update dt t)) = Destroying)).
Proof.
  split; [apply Tile_update_aged|]. split.
  - unfold Tile_update. by intros [-> | ->].
  - unfold Tile_update.
    destruct (state t) eqn:Hst; try done;
      destruct (animationComplete _ _); try done; intros _;
        unfold finishAnimation; cbn; rewrite ?Hst; cbn; auto.
Qed.

Lemma Tile_update_keeps_witness :
  Tile_update 16 (Tile_new 0 0 0) = (false, Tile_new 0 0 0).
Proof.
  apply (proj1 (proj2 (Tile_update_keeps 16 (Tile_new 0 0 0)))). by left.
Defined.

Lemma aged_onTile (s : Board) (l : loc) (f : Tile -> Tile) :
  (forall x, agedTile x (f x)) ->
  preserves (fun t => set_heap (heap s) t = s
                      /\ forall l, agedTile (tileAt l s) (tileAt l t))
            (onTile l f).
Proof.
  intros Hf t [H1 H2]. split; [exact H1|].
  intros l'. rewrite tileAt_onTile. destruct (decide (l' = l)) as [->|]; [|apply H2].
  apply (agedTile_trans _ (tileAt l t)); [apply H2 | apply Hf].
Qed.

(** X21: on a well-formed board, [Board.update] changes nothing of the
    board but tile objects,
    and each tile object as [Tile.update] may: types, cells and targets are
    kept, tiles being destroyed stay so, and no tile becomes selected. *)
Theorem update_ages (dt : Q) (s : Board) :
  wellFormed s ->
  set_heap (heap s) (snd (update dt s)) = s
  /\ forall l, agedTile (tileAt l s) (tileAt l (snd (update dt s))).
Proof.
  intros _.
  assert (preserves (fun t => set_heap (heap s) t = s
                              /\ forall l, agedTile (tileAt l s) (tileAt l t))
                    (update dt)) as H.
  { unfold update.
    repeat first [ apply aged_onTile; apply Tile_update_aged | preserves_step ]. }
  apply H. split; [by destruct s | intros l; apply agedTile_refl].
Qed.

Lemma update_ages_witness :
  wellFormed passBoard
  /\ set_heap (heap passBoard) (snd (update 1000 passBoard)) = passBoard.
Proof.
  assert (wellFormed passBoard) as Hwf
    by (apply reachable_board; by eexists _, _).
  split; [exact Hwf|]. exact (proj1 (update_ages 1000 passBoard Hwf)).
Defined.
(** ** Invariants of the tile objects *)

Lemma keepsType_Tile_update (dt : Q) : keepsType (fun t => snd (Tile_update dt t)).
Proof. intros t. by destruct (Tile_update_aged dt t) as [? _]. Qed.

Lemma vt_onTile (l : loc) (f : Tile -> Tile) :
  keepsType f -> preserves validTypes (onTile l f).
Proof.
  intros Hf s H l'. rewrite tileAt_onTile.
  destruct (decide (l' = l)) as [->|]; [rewrite Hf|]; apply H.
Qed.

Lemma vt_newTile {A : Type} (ty : TileType) (r c : Z) (k : loc -> M A) :
  0 <= ty < TILE_TYPE_COUNT ->
  (forall tile, preserves validTypes (k tile)) ->
  preserves validTypes (let* tile := newTile ty r c in k tile).
Proof.
  intros Hty Hk. apply preserves_bind; [|done].
  intros s H l. rewrite tileAt_newTile. destruct (decide (l = nextLoc s)); [done | apply H].
Qed.

Lemma vt_frame (f : Board -> Board) :
  (forall s, heap (f s) = heap s) -> preserves validTypes (modify f).
Proof. intros Hf s H l. unfold tileAt, modify. cbn [snd]. rewrite Hf. apply H. Qed.

Ltac vt_leaf :=
  lazymatch goal with
  | |- preserves _ (onTile _ _) =>
      apply vt_onTile; first [ solve [intros ?; reflexivity] | apply keepsType_Tile_update ]
  | |- preserves _ _ => intros ? ?; assumption
  end.

Ltac vt_tac := repeat first [ preserves_step | vt_leaf ].

Lemma vt_initializeBoard : preserves validTypes initializeBoard.
Proof.
  unfold initializeBoard, initializeBoardWith.
  apply preserves_bind; [apply vt_frame; done | intros _].
  apply preserves_forM_. intros r.
  apply preserves_bind; [apply vt_frame; done | intros _].
  apply preserves_forM_. intros c s H.
  rewrite bind_run, getRandomTileType_draws.
  apply vt_newTile; [| intros tile; vt_tac | done].
  apply getRandomTileType_range. unfold TILE_TYPE_COUNT. lia.
Qed.

Lemma vt_applyGravity : preserves validTypes applyGravity.
Proof.
  unfold applyGravity. apply preserves_bind; [|intros; vt_tac].
  apply preserves_forM. intros c mf.
  apply preserves_bind; [unfold compactColumn, setBoardPosition, startFallAnimation; vt_tac|].
  intros [e mf']. unfold spawnColumn. apply preserves_forM. intros i mf'' s H.
  cbv zeta. rewrite bind_run.
  refine (vt_newTile (fst (randomInt TILE_TYPE_COUNT s)) _ c _ _ _
            (snd (randomInt TILE_TYPE_COUNT s)) H).
  - change (fst (randomInt TILE_TYPE_COUNT s))
      with (entropy s (draws s) mod TILE_TYPE_COUNT).
    apply Z.mod_pos_bound. unfold TILE_TYPE_COUNT. lia.
  - intros tile. unfold startSpawnAnimation. vt_tac.
Qed.

Lemma vt_shuffle (s : Board) : wellFormed s -> validTypes s -> validTypes (snd (shuffle s)).
Proof.
  intros Hwf H l. destruct (shuffle_spec s Hwf) as (_ & Htiles & Hperm & _ & Hout & _).
  destruct (decide (l ∈ boardTiles s)) as [Hin|Hnin]; [|rewrite Hout by done; apply H].
  assert (type (tileAt l (snd (shuffle s))) ∈ boardTypes (snd (shuffle s))) as Hty.
  { unfold boardTypes. rewrite Htiles. apply list_elem_of_fmap. by exists l. }
  rewrite Hperm in Hty. unfold boardTypes in Hty.
  apply list_elem_of_fmap in Hty as (l' & -> & _). apply H.
Qed.

Lemma vt_runCallback (cb : Callback) : preserves validTypes (runCallback cb).
Proof.
  destruct cb; cbn [runCallback].
  - unfold processMatches, emit, startDestroyAnimation. vt_tac.
  - unfold swapBack, startMoveAnimation. vt_tac.
  - apply preserves_bind; [unfold removeDestroyedTiles; vt_tac|].
    intros _. apply vt_applyGravity.
  - unfold checkCascade, processMatches, emit, startDestroyAnimation. vt_tac.
Qed.

Lemma vt_simple_step (i : Input) :
  i <> CallShuffle -> i <> CallHasValidMoves -> preserves validTypes (step i).
Proof.
  intros Hshuffle Hmoves. destruct i; cbn [step]; try done.
  - unfold trySwap, swapTilesLogical, deselectTile, startMoveAnimation. vt_tac.
  - unfold selectTile. vt_tac.
  - unfold deselectTile. vt_tac.
  - unfold update. vt_tac.
  - vt_tac.
  - unfold onMatch. vt_tac.
  - unfold onBoardSettled. vt_tac.
  - unfold fireTimer. apply preserves_bind; [vt_tac|].
    intros pending. destruct (pending !! n) as [t|]; [|vt_tac].
    apply preserves_bind; [vt_tac | intros _; apply vt_runCallback].
Qed.

Lemma vt_step (i : Input) (s : Board) :
  wellFormed s -> validTypes s -> validTypes (snd (step i s)).
Proof.
  intros Hwf H.
  destruct i; try (apply vt_simple_step; [discriminate | discriminate | exact H]).
  - cbn [step]. rewrite bind_run. unfold ret. cbn [snd].
    by rewrite hasValidMoves_restores.
  - by apply vt_shuffle.
Qed.

Lemma reachable_validTypes (s : Board) : reachable s -> validTypes s.
Proof.
  intros (rand & inputs & ->).
  assert (validTypes (Board_new rand)) as H0.
  { apply vt_initializeBoard. intros l. unfold tileAt, emptyBoard. cbn [heap].
    rewrite lookup_total_empty. cbn. unfold TILE_TYPE_COUNT. lia. }
  destruct (Board_new_board rand) as (Hwf & Hfull & _).
  revert H0 Hwf Hfull. generalize (Board_new rand).
  induction inputs as [|i inputs IH]; intros s H Hwf Hfull; [done|].
  rewrite run_cons. apply IH; [by apply vt_step | by apply wf_step | by apply board_step].
Qed.

(** X22: on every board that can arise, every tile has one of the six
    types of the game (so [TILE_COLORS[tile.type]] is defined), the tiles of
    the grid among them. *)
Theorem reachable_types_valid (s : Board) :
  reachable s -> validTypes s /\ typesBelow TILE_TYPE_COUNT s.
Proof.
  intros H%reachable_validTypes. split; [done|]. intros r c l _. apply H.
Qed.

Lemma reachable_types_valid_witness :
  reachable stalledBoard /\ typesBelow TILE_TYPE_COUNT stalledBoard.
Proof.
  assert (reachable stalledBoard) as Hreach by (by eexists _, _).
  split; [exact Hreach|]. exact (proj2 (reachable_types_valid stalledBoard Hreach)).
Defined.
(** ** The selection *)

Lemma so_onTile (l : loc) (f : Tile -> Tile) :
  keepsUnselected f -> preserves selectedOnly (onTile l f).
Proof.
  intros Hf s H l'. rewrite tileAt_onTile.
  destruct (decide (l' = l)) as [->|]; [intros Hsel%Hf; by apply H | apply H].
Qed.

Lemma so_newTile (ty : TileType) (r c : Z) : preserves selectedOnly (newTile ty r c).
Proof.
  intros s H l. rewrite tileAt_newTile.
  destruct (decide (l = nextLoc s)); [done | apply H].
Qed.

Lemma so_deselectTile : preserves selectedOnly deselectTile.
Proof.
  intros s H l. unfold deselectTile. rewrite bind_gets.
  destruct (selectedTile s) as [old|] eqn:Hsel.
  - rewrite bind_run. unfold modify. cbn [snd].
    change (tileAt l (set_selectedTile None ?t)) with (tileAt l t).
    rewrite tileAt_onTile. destruct (decide (l = old)) as [->|Hne]; [done|].
    intros Hl%H. congruence.
  - unfold ret. cbn [snd]. intros Hl%H. congruence.
Qed.

Lemma so_selectTile (r c : Z) : preserves selectedOnly (selectTile r c).
Proof.
  intros s H. unfold selectTile. rewrite !bind_gets.
  destruct (getTile r c s) as [tile|]; [|done].
  destruct (isProcessing s); [done|]. rewrite bind_gets.
  assert (forall t : Board,
             (forall l, l <> tile -> state (tileAt l t) <> Selected) ->
             selectedOnly (snd ((modify (set_selectedTile (Some tile)) >>
                                 onTile tile (set_state Selected)) t))) as Hnew.
  { intros t Hnone l. rewrite bind_run. unfold modify. cbn [fst snd].
    rewrite tileAt_onTile. destruct (decide (l = tile)) as [->|Hne]; [done|].
    intros Hl. by destruct (Hnone l Hne). }
  destruct (selectedTile s) as [old|] eqn:Hsel.
  - rewrite bind_run. apply Hnew. intros l Hne. rewrite tileAt_onTile.
    destruct (decide (l = old)) as [->|Hne']; [done|].
    intros Hl%H. congruence.
  - rewrite bind_run. apply Hnew. intros l Hne Hl%H. unfold ret in Hl. cbn in Hl.
    congruence.
Qed.

Lemma keepsUnselected_Tile_update (dt : Q) : keepsUnselected (fun t => snd (Tile_update dt t)).
Proof. intros t. by destruct (Tile_update_aged dt t) as (_ & _ & _ & _ & _ & _ & ?). Qed.

Ltac so_leaf :=
  lazymatch goal with
  | |- preserves _ (onTile _ _) =>
      apply so_onTile;
      first [ apply keepsUnselected_Tile_update
            | solve [intros ? Hsel; cbv in Hsel; first [discriminate | exact Hsel]] ]
  | |- preserves _ (newTile _ _ _) => apply so_newTile
  | |- preserves _ deselectTile => apply so_deselectTile
  | |- preserves _ (selectTile _ _) => apply so_selectTile
  | |- preserves _ _ => intros ? ?; assumption
  end.

Ltac so_tac := repeat first [ preserves_step | so_leaf ].

Lemma so_runCallback (cb : Callback) : preserves selectedOnly (runCallback cb).
Proof.
  destruct cb; cbn [runCallback].
  - unfold processMatches, emit. so_tac.
  - unfold swapBack. so_tac.
  - unfold removeDestroyedTiles, applyGravity, compactColumn, spawnColumn. so_tac.
  - unfold checkCascade, processMatches, emit. so_tac.
Qed.

Lemma so_step (i : Input) : preserves selectedOnly (step i).
Proof.
  destruct i; cbn [step].
  - unfold trySwap, swapTilesLogical. so_tac.
  - apply so_selectTile.
  - apply so_deselectTile.
  - unfold update. so_tac.
  - so_tac.
  - intros s H. rewrite bind_run. unfold ret. cbn [snd].
    by rewrite hasValidMoves_restores.
  - unfold shuffle. so_tac.
  - unfold onMatch. so_tac.
  - unfold onBoardSettled. so_tac.
  - unfold fireTimer. apply preserves_bind; [so_tac|].
    intros pending. destruct (pending !! n) as [t|]; [|so_tac].
    apply preserves_bind; [so_tac | intros _; apply so_runCallback].
Qed.

Lemma so_Board_new (rand : nat -> Z) : selectedOnly (Board_new rand).
Proof.
  assert (preserves selectedOnly initializeBoard) as H
    by (unfold initializeBoard, initializeBoardWith, getRandomTileType; so_tac).
  apply H. intros l. unfold tileAt, emptyBoard. cbn [heap].
  rewrite lookup_total_empty. done.
Qed.

Lemma reachable_selectedOnly (s : Board) : reachable s -> selectedOnly s.
Proof.
  intros (rand & inputs & ->).
  pose proof (so_Board_new rand) as H0. revert H0. generalize (Board_new rand).
  induction inputs as [|i inputs IH]; intros s H; [done|].
  rewrite run_cons. apply IH. by apply so_step.
Qed.

(** X23: on every board that can arise, a tile object in state
    [Selected] is the selected tile of the board: at most one tile is shown
    as selected. *)
Theorem reachable_one_selected (s : Board) (l l' : loc) :
  reachable s ->
  state (tileAt l s) = Selected -> state (tileAt l' s) = Selected ->
  getSelectedTile s = Some l /\ l = l'.
Proof.
  intros H%reachable_selectedOnly Hl Hl'.
  pose proof (H l Hl) as H1. pose proof (H l' Hl') as H2.
  split; [done | congruence].
Qed.

Lemma reachable_one_selected_witness :
  reachable selectedBoard
  /\ state (tileAt 18%nat selectedBoard) = Selected
  /\ getSelectedTile selectedBoard = Some 18%nat.
Proof.
  assert (reachable selectedBoard) as Hreach by (by eexists _, _).
  assert (state (tileAt 18%nat selectedBoard) = Selected) as Hsel
    by (vm_compute; reflexivity).
  split; [exact Hreach|]. split; [exact Hsel|].
  exact (proj1 (reachable_one_selected selectedBoard 18%nat 18%nat Hreach Hsel Hsel)).
Defined.
(** ** The test of a move *)

Lemma countWhile_nonneg (p : Z -> bool) (l : list Z) : 0 <= countWhile p l.
Proof. induction l as [|x l IH]; cbn [countWhile]; [lia|]. destruct (p x); lia. Qed.

Lemma countWhile_ge (p : Z -> bool) (l : list Z) (n : nat) :
  Z.of_nat n <= countWhile p l
  <-> forall i, (i < n)%nat -> exists x, l !! i = Some x /\ p x = true.
Proof.
  revert n. induction l as [|x l IH]; intros n; cbn [countWhile].
  - split.
    + intros Hn i Hi. lia.
    + intros Hall. destruct n as [|n]; [lia|].
      destruct (Hall 0%nat) as (x & Hx & _); [lia | done].
  - pose proof (countWhile_nonneg p l) as Hnn.
    destruct (p x) eqn:Hpx.
    + destruct n as [|n]; [split; [intros _ i Hi; lia | intros _; lia]|].
      split.
      * intros Hn [|i] Hi; [by exists x|].
        apply (proj1 (IH n)); lia.
      * intros Hall.
        assert (Z.of_nat n <= countWhile p l); [|lia].
        apply IH. intros i Hi. apply (Hall (S i)). lia.
    + split.
      * intros Hn i Hi. lia.
      * intros Hall. destruct n as [|n]; [lia|].
        destruct (Hall 0%nat) as (y & [= <-] & Hy); [lia | congruence].
Qed.

(** Counting to the left of [c], down to 0, and to the right, up to
    [hi - 1], with a test that fails outside [0, hi). *)
Lemma count_left (p : Z -> bool) (c a : Z) :
  (forall x, p x = true -> 0 <= x) -> 0 <= a ->
  a <= countWhile p (reverse (seqZ 0 c))
  <-> forall k, 1 <= k <= a -> p (c - k) = true.
Proof.
  intros Hlow Ha. rewrite <- (Z2Nat.id a) at 1 by done. rewrite countWhile_ge. split.
  - intros Hall k Hk. destruct (Hall (Z.to_nat (k - 1))) as (x & Hx & Hpx); [lia|].
    apply reverse_lookup_Some in Hx as [Hx Hlen]. rewrite length_seqZ in *.
    apply lookup_seqZ in Hx as [-> _]. rewrite <- Hpx. f_equal. lia.
  - intros Hall i Hi. exists (c - (Z.of_nat i + 1)).
    pose proof (Hall (Z.of_nat i + 1) ltac:(lia)) as Hpx. split; [|done].
    apply Hlow in Hpx. apply reverse_lookup_Some. rewrite length_seqZ.
    split; [|lia]. apply lookup_seqZ. lia.
Qed.

Lemma count_right (p : Z -> bool) (c hi b : Z) :
  (forall x, p x = true -> x < hi) -> 0 <= b ->
  b <= countWhile p (seqZ (c + 1) (hi - (c + 1)))
  <-> forall k, 1 <= k <= b -> p (c + k) = true.
Proof.
  intros Hhigh Hb. rewrite <- (Z2Nat.id b) at 1 by done. rewrite countWhile_ge. split.
  - intros Hall k Hk. destruct (Hall (Z.to_nat (k - 1))) as (x & Hx & Hpx); [lia|].
    apply lookup_seqZ in Hx as [-> _]. rewrite <- Hpx. f_equal. lia.
  - intros Hall i Hi. exists (c + (Z.of_nat i + 1)).
    pose proof (Hall (Z.of_nat i + 1) ltac:(lia)) as Hpx. split; [|done].
    apply Hhigh in Hpx. apply lookup_seqZ. lia.
Qed.

Lemma count_lineOf3 (p : Z -> bool) (c hi : Z) :
  (forall x, p x = true -> 0 <= x < hi) ->
  MIN_MATCH_LENGTH
  <= 1 + countWhile p (reverse (seqZ 0 c)) + countWhile p (seqZ (c + 1) (hi - (c + 1)))
  <-> lineOf3 p c.
Proof.
  intros Hp. unfold MIN_MATCH_LENGTH, lineOf3.
  pose proof (countWhile_nonneg p (reverse (seqZ 0 c))) as Hl.
  pose proof (countWhile_nonneg p (seqZ (c + 1) (hi - (c + 1)))) as Hr.
  split.
  - intros Hcount.
    exists (countWhile p (reverse (seqZ 0 c))),
           (countWhile p (seqZ (c + 1) (hi - (c + 1)))).
    split; [done|]. split; [done|]. split; [lia|]. split.
    + apply count_left; [intros x Hx; apply Hp in Hx; lia | done | lia].
    + apply (count_right p c hi); [intros x Hx; apply Hp in Hx; lia | done | lia].
  - intros (a & b & Ha & Hb & Hab & Hleft & Hright).
    apply count_left in Hleft; [|intros x Hx; apply Hp in Hx; lia | done].
    apply (count_right p c hi) in Hright; [|intros x Hx; apply Hp in Hx; lia | done].
    lia.
Qed.

Lemma hasType_bounds (ty : TileType) (s : Board) (r c : Z) :
  hasType ty s r c = true -> 0 <= r < BOARD_ROWS /\ 0 <= c < BOARD_COLS.
Proof.
  unfold hasType. destruct (getTile r c s) as [l|] eqn:Hl; [|done].
  intros _. by apply getTile_Some in Hl as (? & ? & _).
Qed.

(** X24: on a well-formed board, [checkMatchAt] answers true exactly when, counting the cell
    itself and, from it in both directions of its row, or of its column, the
    adjacent cells that hold a tile of the given type, there are three cells
    or more.  The tiles counted may be animating: this test, unlike
    [findMatches], does not look at the state of a tile. *)
Theorem checkMatchAt_iff (r c : Z) (ty : TileType) (s : Board) :
  wellFormed s ->
  checkMatchAt r c ty s = true
  <-> lineOf3 (fun c' => hasType ty s r c') c \/ lineOf3 (fun r' => hasType ty s r' c) r.
Proof.
  intros _. unfold checkMatchAt.
  pose proof (count_lineOf3 (fun c' => hasType ty s r c') c BOARD_COLS) as Hh.
  pose proof (count_lineOf3 (fun r' => hasType ty s r' c) r BOARD_ROWS) as Hv.
  cbv zeta.
  destruct (MIN_MATCH_LENGTH <=? _) eqn:Hhc.
  - apply Z.leb_le in Hhc. split; [intros _; left | done].
    apply Hh; [|done]. intros x Hx. by apply hasType_bounds in Hx as [_ ?].
  - apply Z.leb_gt in Hhc. rewrite Z.leb_le. split.
    + intros Hvc. right. apply Hv; [|done].
      intros x Hx. by apply hasType_bounds in Hx as [? _].
    + intros [Hline|Hline].
      * apply Hh in Hline; [lia|]. intros x Hx. by apply hasType_bounds in Hx as [_ ?].
      * apply Hv; [|done]. intros x Hx. by apply hasType_bounds in Hx as [? _].
Qed.

Lemma checkMatchAt_iff_witness :
  wellFormed crossBoard
  /\ (checkMatchAt 2 2 0 crossBoard = true
      <-> lineOf3 (fun c' => hasType 0 crossBoard 2 c') 2
          \/ lineOf3 (fun r' => hasType 0 crossBoard r' 2) 2).
Proof.
  assert (wellFormed crossBoard) as Hwf.
  { assert (wellFormed (Board_new (drawsFrom crossDraws))) as Hwf0
      by apply Board_new_board.
    assert (gridAt 2 2 (Board_new (drawsFrom crossDraws)) = Some 18%nat) as Ha
      by (vm_compute; reflexivity).
    assert (gridAt 2 3 (Board_new (drawsFrom crossDraws)) = Some 19%nat) as Hb
      by (vm_compute; reflexivity).
    assert (18%nat <> 19%nat) as Hab by lia.
    exact (proj1 (swapTilesLogical_spec 18%nat 19%nat 2 2 2 3 _ Hwf0 Ha Hb Hab)). }
  split; [exact Hwf|]. exact (checkMatchAt_iff 2 2 0 crossBoard Hwf).
Defined.
(** ** The timers of a cascade *)

Lemma filter_delete_length {A : Type} (P : A -> Prop) `{forall x, Decision (P x)}
      (l : list A) (n : nat) (x : A) :
  l !! n = Some x ->
  length (filter P l)
  = (length (filter P (delete n l)) + if decide (P x) then 1 else 0)%nat.
Proof.
  revert n. induction l as [|y l IH]; intros n Hn; [done|].
  destruct n as [|n].
  - injection Hn as ->. change (delete 0%nat (x :: l)) with l. rewrite filter_cons.
    destruct (decide (P x)); cbn [length]; lia.
  - change (delete (S n) (y :: l)) with (y :: delete n l).
    rewrite !filter_cons. specialize (IH n Hn).
    destruct (decide (P y)); cbn [length]; rewrite IH; destruct (decide (P x)); lia.
Qed.

Lemma cascadeTimers_snoc (s s' : Board) (t : Timer) :
  timers s' = timers s ++ [t] ->
  length (cascadeTimers s')
  = (length (cascadeTimers s) + if isCascade (callback t) then 1 else 0)%nat.
Proof.
  intros Ht. unfold cascadeTimers. rewrite Ht, filter_app, length_app.
  f_equal. rewrite filter_cons, filter_nil.
  destruct (isCascade (callback t)); [by rewrite decide_True | by rewrite decide_False].
Qed.

Lemma oneCascade_frame (s s' : Board) :
  timers s' = timers s -> isProcessing s' = isProcessing s -> oneCascade s -> oneCascade s'.
Proof. unfold oneCascade, cascadeTimers. by intros -> ->. Qed.

Lemma oneCascade_trySwap (pos1 pos2 : BoardPosition) (s : Board) :
  wellFormed s -> oneCascade s -> oneCascade (snd (trySwap pos1 pos2 s)).
Proof.
  intros Hwf Hone.
  destruct (trySwap_cases s pos1 pos2) as [-> | (a & b & Hidle & Hadj & Ha & Hb)]; [done|].
  pose proof (trySwap_outcome s pos1 pos2 a b Hwf Hidle Hadj Ha Hb) as Hout.
  cbv zeta in Hout. unfold oneCascade in *. rewrite Hidle in Hone.
  destruct Hout as [(_ & _ & _ & Hp & _ & _ & Ht)|(_ & _ & _ & _ & Hp & _ & _ & Ht)];
    rewrite Hp, (cascadeTimers_snoc s _ _ Ht), Hone; done.
Qed.

Lemma applyGravity_timers (s : Board) :
  exists waitTime,
    timers (snd (applyGravity s)) = timers s ++ [mkTimer CbCheckCascade waitTime]
    /\ isProcessing (snd (applyGravity s)) = isProcessing s.
Proof.
  unfold applyGravity. rewrite bind_run.
  assert (preserves (fun t => timers t = timers s /\ isProcessing t = isProcessing s)
            (forM (seqZ 0 BOARD_COLS)
               (fun c maxFallDistance =>
                  let* (emptySpaces, maxFallDistance) := compactColumn c maxFallDistance in
                  spawnColumn c emptySpaces maxFallDistance) 0)) as Hloop
    by (unfold compactColumn, spawnColumn; frame_tac).
  destruct (Hloop s) as [Ht Hp]; [done|].
  eexists. unfold setTimeout, modify. cbn [snd timers isProcessing set_timers].
  by rewrite Ht, Hp.
Qed.

Lemma oneCascade_fireTimer (n : nat) (s : Board) :
  oneCascade s -> oneCascade (snd (fireTimer n s)).
Proof.
  intros Hone. unfold fireTimer. rewrite bind_gets.
  destruct (timers s !! n) as [t|] eqn:Ht; [|done]. rewrite bind_modify.
  set (s1 := set_timers (delete n (timers s)) s).
  assert (length (cascadeTimers s)
          = (length (cascadeTimers s1) + if isCascade (callback t) then 1 else 0)%nat)
    as Hcount.
  { unfold cascadeTimers, s1. cbn [timers set_timers].
    rewrite (filter_delete_length _ _ n t Ht).
    destruct (isCascade (callback t)); [by rewrite decide_True | by rewrite decide_False]. }
  assert (isProcessing s1 = isProcessing s) as Hp1 by done.
  assert (forall ms, isCascade (callback t) = true ->
                     oneCascade (snd (processMatches ms s1))) as Hpass.
  { intros ms Hc. pose proof (processMatches_spec ms s1) as Hspec. cbv zeta in Hspec.
    destruct Hspec as (_ & _ & _ & Ht' & Hp' & _).
    unfold oneCascade in *. rewrite Hp', Hp1, (cascadeTimers_snoc s1 _ _ Ht').
    rewrite Hc in Hcount. cbn [isCascade callback].
    destruct (isProcessing s); lia. }
  destruct (callback t) as [ms|tile1 tile2| |] eqn:Hcb; cbn [runCallback].
  - by apply Hpass.
  - assert (preserves (fun u => timers u = timers s1 /\ isProcessing u = isProcessing s1)
                      (swapBack tile1 tile2)) as Hframe
      by (unfold swapBack; frame_tac).
    destruct (Hframe s1) as [Ht' Hp']; [done|].
    apply (oneCascade_frame s1); [done | done|].
    unfold oneCascade in *. rewrite Hp1. cbn [isCascade] in Hcount. lia.
  - rewrite bind_run.
    assert (preserves (fun u => timers u = timers s1 /\ isProcessing u = isProcessing s1)
                      removeDestroyedTiles) as Hframe
      by (unfold removeDestroyedTiles; frame_tac).
    destruct (Hframe s1) as [Ht' Hp']; [done|].
    set (s2 := snd (removeDestroyedTiles s1)) in *.
    destruct (applyGravity_timers s2) as (w & Ht'' & Hp'').
    unfold oneCascade in *. rewrite Hp'', Hp', Hp1, (cascadeTimers_snoc s2 _ _ Ht'').
    unfold cascadeTimers at 1. rewrite Ht'. fold (cascadeTimers s1).
    cbn [isCascade callback] in Hcount |- *. destruct (isProcessing s); lia.
  - destruct (matchesOf s1) as [|m ms] eqn:Hms.
    + destruct (checkCascade_settles s1) as (Hidle & _ & _ & _);
        [by rewrite findMatches_fst|].
      assert (timers (snd (checkCascade s1)) = timers s1) as Ht'.
      { unfold checkCascade. rewrite bind_run, findMatches_spec, Hms. cbn [fst snd length].
        change (0 <? Z.of_nat 0) with false. cbv iota.
        rewrite !bind_modify, bind_gets.
        by destruct (onBoardSettledCallback _). }
      unfold oneCascade in *. rewrite Hidle.
      unfold cascadeTimers at 1. rewrite Ht'. fold (cascadeTimers s1).
      cbn [isCascade] in Hcount. destruct (isProcessing s); lia.
    + rewrite checkCascade_continues by (rewrite findMatches_fst, Hms; done).
      by apply Hpass.
Qed.

Lemma oneCascade_step (i : Input) (s : Board) :
  wellFormed s -> oneCascade s -> oneCascade (snd (step i s)).
Proof.
  intros Hwf Hone.
  assert (forall m : M unit,
             preserves (fun u => timers u = timers s /\ isProcessing u = isProcessing s) m ->
             oneCascade (snd (m s))) as Hframe.
  { intros m Hm. destruct (Hm s) as [Ht Hp]; [done|]. by apply (oneCascade_frame s). }
  destruct i; cbn [step].
  - rewrite bind_run. unfold ret. cbn [snd]. by apply oneCascade_trySwap.
  - apply Hframe. unfold selectTile. frame_tac.
  - apply Hframe. unfold deselectTile. frame_tac.
  - apply Hframe. unfold update. frame_tac.
  - apply Hframe. frame_tac.
  - rewrite bind_run. unfold ret. cbn [snd]. by rewrite hasValidMoves_restores.
  - apply Hframe. unfold shuffle. frame_tac.
  - apply Hframe. unfold onMatch. frame_tac.
  - apply Hframe. unfold onBoardSettled. frame_tac.
  - by apply oneCascade_fireTimer.
Qed.

Lemma reachable_oneCascade (s : Board) : reachable s -> oneCascade s.
Proof.
  intros (rand & inputs & ->).
  assert (oneCascade (Board_new rand)) as H0.
  { assert (preserves (fun u => timers u = [] /\ isProcessing u = false) initializeBoard)
      as Hinit
      by (unfold initializeBoard, initializeBoardWith, getRandomTileType; frame_tac).
    destruct (Hinit (emptyBoard rand)) as [Ht Hp]; [done|].
    unfold oneCascade, cascadeTimers, Board_new. by rewrite Ht, Hp. }
  destruct (Board_new_board rand) as (Hwf & _).
  revert H0 Hwf. generalize (Board_new rand).
  induction inputs as [|i inputs IH]; intros s H Hwf; [done|].
  rewrite run_cons. apply IH; [by apply oneCascade_step | by apply wf_step].
Qed.

(** X25: on every board that can arise, a processing board has exactly
    one pending timer that carries the cascade on (for [processMatches], the
    gravity step or [checkCascade]), and a board that is not processing has
    none: a cascade never forks, and the board is never left processing with
    nothing scheduled. *)
Theorem reachable_one_cascade_timer (s : Board) :
  reachable s ->
  length (cascadeTimers s) = if getIsProcessing s then 1%nat else 0%nat.
Proof. apply reachable_oneCascade. Qed.

Lemma reachable_one_cascade_timer_witness :
  reachable stalledBoard
  /\ length (cascadeTimers stalledBoard)
     = if getIsProcessing stalledBoard then 1%nat else 0%nat.
Proof.
  assert (reachable stalledBoard) as Hreach by (by eexists _, _).
  split; [exact Hreach|]. exact (reachable_one_cascade_timer stalledBoard Hreach).
Defined.
